(** * Portfolio analytics: a shallow embedding of the quantitative core

    The Python sources [utils/portfolio.py], [utils/alerts.py],
    [utils/data_loader.py], the computed traces of [utils/visualization.py]
    (MACD, drawdown, contributions) and the parts of [app.py] that compute
    (ticker list, weights, valuation, latest day) are translated into Rocq
    functions.

    Numbers are IEEE 754 binary64 values ([spec_float] of the Standard
    Library at precision 53 and maximal exponent 1024), because the program
    computes with NumPy [float64] and Python [float]: not-a-number,
    infinities, signed zeros and rounding behave as on the machine.
    A pandas [Series] is the list of its values, a missing value is NaN, and
    a [DataFrame] is its date index together with its labelled columns.
    Python exceptions are values of the type [exn] carried by [result].

    What the libraries do is written out where the program calls them:
    reductions skip missing values, sums run left to right, [std] uses
    [ddof=1], [pct_change] pads missing values first, [cummax] leaves a
    missing entry missing, [ewm(adjust=False)] is the window aggregation pandas runs,
    a label slice on the date index keeps both bounds, Python's [/] raises
    on a zero divisor while NumPy's returns an infinity or NaN.  The result
    of [yf.download] is an input of [fetch_stock_data] and of
    [get_latest_market_changes].  Text is ASCII: [str.strip] and
    [str.upper] act on the ASCII characters.

    The file has three parts: the functions of the program, the wording of
    the specification they are compared with, and the proofs, which start
    with the facts on binary64 rounding and order they rest on. *)

From Stdlib Require Import ZArith List Bool String Ascii Lia.
From Stdlib Require Import Floats.SpecFloat DecimalString.
Import ListNotations.
Open Scope string_scope.
Open Scope list_scope.
Open Scope Z_scope.

(** ** Binary64 arithmetic *)

Module F64.

Definition prec : Z := 53.
Definition emax : Z := 1024.

Definition float := spec_float.

Definition add : float -> float -> float := SFadd prec emax.
Definition sub : float -> float -> float := SFsub prec emax.
Definition mul : float -> float -> float := SFmul prec emax.
Definition div : float -> float -> float := SFdiv prec emax.
Definition sqrt : float -> float := SFsqrt prec emax.
Definition neg : float -> float := SFopp.
Definition abs : float -> float := SFabs.

Definition ltb : float -> float -> bool := SFltb.
Definition leb : float -> float -> bool := SFleb.
Definition eqb : float -> float -> bool := SFeqb.

Definition nan : float := S754_nan.
Definition zero : float := S754_zero false.
Definition neg_infinity : float := S754_infinity true.

(** The float nearest to an integer (exact below 2^53). *)
Definition of_Z (z : Z) : float := binary_normalize prec emax z 0 false.

Definition one : float := of_Z 1.

Definition is_nan (x : float) : bool :=
  match x with S754_nan => true | _ => false end.

Definition is_zero (x : float) : bool :=
  match x with S754_zero _ => true | _ => false end.

Definition is_finite (x : float) : bool :=
  match x with S754_zero _ | S754_finite _ _ _ => true | _ => false end.

(** Well-formed binary64 data: a canonical mantissa and exponent. *)
Definition valid : float -> bool := valid_binary prec emax.

End F64.

Declare Scope f64_scope.
Delimit Scope f64_scope with f64.
Infix "+" := F64.add : f64_scope.
Infix "-" := F64.sub : f64_scope.
Infix "*" := F64.mul : f64_scope.
Infix "/" := F64.div : f64_scope.
Infix "<?" := F64.ltb : f64_scope.
Infix "<=?" := F64.leb : f64_scope.
Infix "=?" := F64.eqb : f64_scope.

(** ** Python exceptions *)

Inductive exn : Type :=
| ZeroDivisionError
| KeyError (key : string)
| IndexError
| ValueError (msg : string).

Inductive result (A : Type) : Type :=
| Ok (a : A)
| Raise (e : exn).

Arguments Ok {A} a.
Arguments Raise {A} e.

Definition bind {A B : Type} (r : result A) (k : A -> result B) : result B :=
  match r with
  | Ok a => k a
  | Raise e => Raise e
  end.

Notation "x <- r ;; k" := (bind r (fun x => k))
  (at level 61, r at next level, right associativity).

Fixpoint mapM {A B : Type} (f : A -> result B) (l : list A) : result (list B) :=
  match l with
  | [] => Ok []
  | a :: l' => b <- f a ;; bs <- mapM f l' ;; Ok (b :: bs)
  end.

Definition raises {A : Type} (r : result A) : bool :=
  match r with Ok _ => false | Raise _ => true end.

(** Python [x / y] on floats: a zero divisor raises. *)
Definition py_div (x y : F64.float) : result F64.float :=
  if F64.is_zero y then Raise ZeroDivisionError else Ok (x / y)%f64.

(** Python [sum(xs)]: a left fold that starts from 0. *)
Definition py_sum (xs : list F64.float) : F64.float :=
  fold_left F64.add xs F64.zero.

(** A Python [dict] with string keys, in insertion order. *)
Definition dict (V : Type) : Type := list (string * V).

Fixpoint dict_find {V : Type} (d : dict V) (k : string) : option V :=
  match d with
  | [] => None
  | (k', v) :: d' => if String.eqb k k' then Some v else dict_find d' k
  end.

(** [d[k]] raises [KeyError] on an absent key. *)
Definition dict_get {V : Type} (d : dict V) (k : string) : result V :=
  match dict_find d k with
  | Some v => Ok v
  | None => Raise (KeyError k)
  end.

(** ** pandas Series *)

Definition Series : Type := list F64.float.

Definition dropna (s : Series) : Series :=
  filter (fun x => negb (F64.is_nan x)) s.

(** Reductions skip NaN ([skipna=True]). *)
Definition count (s : Series) : Z := Z.of_nat (List.length (dropna s)).

(** NumPy's add-reduction, taken left to right: the first element starts
    the accumulation.  From eight values on NumPy adds pairwise, and a sum
    of negative zeros comes back as +0.0; this definition follows neither,
    and no statement below rests on a sum of that length or on the sign of
    a zero sum. *)
Definition np_sum (xs : list F64.float) : F64.float :=
  match xs with
  | [] => F64.zero
  | x :: xs' => fold_left F64.add xs' x
  end.

(** Sums put 0 in the place of a missing value. *)
Definition fill_zero (x : F64.float) : F64.float :=
  if F64.is_nan x then F64.zero else x.

Definition series_sum (s : Series) : F64.float := np_sum (map fill_zero s).

Definition series_mean (s : Series) : F64.float :=
  (series_sum s / F64.of_Z (count s))%f64.

(** [Series.std()] with [ddof=1]: NaN unless two values are present. *)
Definition series_var (s : Series) : F64.float :=
  let n := count s in
  let d := n - 1 in
  if d <=? 0 then F64.nan
  else
    let avg := (series_sum s / F64.of_Z n)%f64 in
    let sqr :=
      map (fun v => if F64.is_nan v then F64.zero
                    else let t := (avg - v)%f64 in (t * t)%f64) s in
    (np_sum sqr / F64.of_Z d)%f64.

Definition series_std (s : Series) : F64.float := F64.sqrt (series_var s).

Definition fmin (acc x : F64.float) : F64.float := if (x <? acc)%f64 then x else acc.
Definition fmax (acc x : F64.float) : F64.float := if (acc <? x)%f64 then x else acc.

Definition series_min (s : Series) : F64.float :=
  match dropna s with
  | [] => F64.nan
  | x :: xs => fold_left fmin xs x
  end.

Definition series_max (s : Series) : F64.float :=
  match dropna s with
  | [] => F64.nan
  | x :: xs => fold_left fmax xs x
  end.

(** [cummax]: a missing entry stays missing and does not touch the
    running maximum, which starts at minus infinity.  Between +0.0 and -0.0
    the running maximum keeps the earlier one here, where NumPy may keep the
    later one; the statements on the running maximum are on prices that are
    not zero, or do not depend on the sign of a zero. *)
Fixpoint cummax_from (acc : F64.float) (s : Series) : Series :=
  match s with
  | [] => []
  | x :: s' =>
      if F64.is_nan x then F64.nan :: cummax_from acc s'
      else let acc' := fmax acc x in acc' :: cummax_from acc' s'
  end.

Definition cummax (s : Series) : Series := cummax_from F64.neg_infinity s.

(** [ffill]: carry the last known value forward. *)
Fixpoint ffill_from (last : F64.float) (s : Series) : Series :=
  match s with
  | [] => []
  | x :: s' =>
      if F64.is_nan x then last :: ffill_from last s'
      else x :: ffill_from x s'
  end.

Definition ffill (s : Series) : Series := ffill_from F64.nan s.

(** [bfill]: carry the next known value backward. *)
Fixpoint bfill (s : Series) : Series :=
  match s with
  | [] => []
  | x :: s' =>
      let r := bfill s' in
      (if F64.is_nan x then hd F64.nan r else x) :: r
  end.

Fixpoint zip_with {A B C : Type} (f : A -> B -> C) (l : list A) (l' : list B) : list C :=
  match l, l' with
  | a :: t, b :: t' => f a b :: zip_with f t t'
  | _, _ => []
  end.

(** [pct_change()]: pad missing values, then [x_t / x_(t-1) - 1]; the first
    entry has no predecessor. *)
Definition pct_change (s : Series) : Series :=
  match ffill s with
  | [] => []
  | x :: xs => F64.nan :: zip_with (fun prev cur => (cur / prev - F64.one)%f64) (x :: xs) xs
  end.

(** Positional access [s.iloc[0]] and [s.iloc[-1]]; on a date index
    [s[0]] and [s[-1]] read the same positions. *)
Definition iloc_first (s : Series) : result F64.float :=
  match s with
  | [] => Raise IndexError
  | x :: _ => Ok x
  end.

Definition iloc_last (s : Series) : result F64.float :=
  match rev s with
  | [] => Raise IndexError
  | x :: _ => Ok x
  end.

(** ** pandas DataFrame: a date index and labelled columns *)

Record DataFrame : Type := {
  index : list Z;
  columns : dict Series
}.

Definition empty_frame : DataFrame := {| index := []; columns := [] |}.

(** [df.empty]: no row or no column. *)
Definition df_empty (df : DataFrame) : bool :=
  match index df, columns df with
  | [], _ => true
  | _, [] => true
  | _, _ => false
  end.

(** [sum(axis=1)]: one sum per date over the columns, NaN skipped. *)
Definition sum_axis1 (nrows : nat) (cols : list Series) : Series :=
  map (fun i => series_sum (map (fun c => nth i c F64.nan) cols)) (seq 0 nrows).

(** ** utils/portfolio.py *)

(** Lines 20 to 26: equal weights by default, otherwise the given weights
    divided by their total. *)
Definition normalize_weights (data : DataFrame) (weights : option (dict F64.float))
  : result (dict F64.float) :=
  match weights with
  | None =>
      let n := F64.of_Z (Z.of_nat (List.length (columns data))) in
      mapM (fun c => w <- py_div F64.one n ;; Ok (fst c, w)) (columns data)
  | Some ws =>
      let total_weight := py_sum (map snd ws) in
      mapM (fun kv => w <- py_div (snd kv) total_weight ;; Ok (fst kv, w)) ws
  end.

Definition compute_portfolio_value (data : DataFrame)
    (weights : option (dict F64.float)) (initial_value : F64.float)
  : result Series :=
  if df_empty data then Ok []
  else
    weights' <- normalize_weights data weights ;;
    weights_list <- mapM (fun c => dict_get weights' (fst c)) (columns data) ;;
    let normalized_prices :=
      map (fun c => map (fun p => (p / hd F64.nan (snd c))%f64) (snd c)) (columns data) in
    let weighted_prices :=
      zip_with (fun col w => map (fun p => (p * w)%f64) col) normalized_prices weights_list in
    Ok (map (fun v => (v * initial_value)%f64)
            (sum_axis1 (List.length (index data)) weighted_prices)).

(** The default [initial_value=100000]. *)
Definition default_initial_value : F64.float := F64.of_Z 100000.

Record Metrics : Type := {
  cumulative_return : F64.float;
  annual_volatility : F64.float;
  max_drawdown : F64.float
}.

(** [last / first - 1] *)
Definition cumulative_return_of (s : Series) : result F64.float :=
  last <- iloc_last s ;;
  first <- iloc_first s ;;
  Ok (last / first - F64.one)%f64.

Definition sqrt_252 : F64.float := F64.sqrt (F64.of_Z 252).

Definition drawdown_of (portfolio_value : Series) : F64.float :=
  let running_max := cummax portfolio_value in
  (series_min (zip_with F64.sub portfolio_value running_max) / series_max running_max)%f64.

Definition compute_portfolio_metrics (portfolio_value : Series) : result Metrics :=
  let daily_returns := dropna (pct_change portfolio_value) in
  cr <- cumulative_return_of portfolio_value ;;
  let vol := (series_std daily_returns * sqrt_252)%f64 in
  Ok {| cumulative_return := cr;
        annual_volatility := vol;
        max_drawdown := drawdown_of portfolio_value |}.

(** The default [risk_free_rate=0.02]. *)
Definition default_risk_free_rate : F64.float := (F64.of_Z 2 / F64.of_Z 100)%f64.

Definition excess_returns_of (portfolio_values : Series) (risk_free_rate : F64.float) : Series :=
  let daily_returns := dropna (pct_change portfolio_values) in
  map (fun r => (r - risk_free_rate / F64.of_Z 252)%f64) daily_returns.

Definition compute_sharpe_ratio (portfolio_values : Series) (risk_free_rate : F64.float)
  : F64.float :=
  let excess_returns := excess_returns_of portfolio_values risk_free_rate in
  (series_mean excess_returns / series_std excess_returns * sqrt_252)%f64.

Definition compute_sortino_ratio (portfolio_values : Series) (risk_free_rate : F64.float)
  : F64.float :=
  let daily_returns := dropna (pct_change portfolio_values) in
  let excess_returns := excess_returns_of portfolio_values risk_free_rate in
  let downside_std := series_std (filter (fun r => (r <? F64.zero)%f64) daily_returns) in
  if (downside_std =? F64.zero)%f64 then F64.nan
  else (series_mean excess_returns / downside_std * sqrt_252)%f64.

(** ** f-strings

    An alert text is kept as the sequence of the fragments of its f-string:
    literal text, a number under [:.2f], or a number under the default
    format. *)

Inductive fragment : Type :=
| Lit (s : string)
| Fixed2 (x : F64.float)
| Shown (x : F64.float).

Definition message : Type := list fragment.

Definition round_half_even (num den : Z) : Z :=
  let q := num / den in
  let r := num mod den in
  match 2 * r ?= den with
  | Lt => q
  | Gt => q + 1
  | Eq => if Z.even q then q else q + 1
  end.

Definition digits_of (z : Z) : string :=
  NilZero.string_of_uint (N.to_uint (Z.to_N z)).

Definition two_digits (z : Z) : string :=
  if z <? 10 then ("0" ++ digits_of z)%string else digits_of z.

(** [format(x, ".2f")]: the exact binary value rounded to two decimals,
    ties to even. *)
Definition format_2f (x : F64.float) : string :=
  let sign (s : bool) := if s then "-" else "" in
  match x with
  | S754_nan => "nan"
  | S754_infinity s => (sign s ++ "inf")%string
  | S754_zero s => (sign s ++ "0.00")%string
  | S754_finite s m e =>
      let hundredths :=
        match e with
        | Zneg p => round_half_even (Zpos m * 100) (2 ^ Zpos p)
        | _ => Zpos m * 100 * 2 ^ e
        end in
      (sign s ++ digits_of (hundredths / 100) ++ "." ++ two_digits (hundredths mod 100))%string
  end.

(** ** utils/alerts.py *)

Definition hundred : F64.float := F64.of_Z 100.

Definition portfolio_message (min_drop threshold_pct : F64.float) : message :=
  [Lit "Portfolio dropped by "; Fixed2 (F64.abs min_drop);
   Lit "% which exceeds your threshold of "; Shown threshold_pct; Lit "%"].

Definition check_portfolio_drop (portfolio_value : Series) (threshold_pct : F64.float)
  : option message :=
  match portfolio_value with
  | [] => None
  | first :: _ =>
      let drop_pct := map (fun v => ((v / first - F64.one) * hundred)%f64) portfolio_value in
      let min_drop := series_min drop_pct in
      if (min_drop <=? F64.neg threshold_pct)%f64
      then Some (portfolio_message min_drop threshold_pct)
      else None
  end.

Definition stock_message (ticker : string) (min_change threshold_pct : F64.float) : message :=
  [Lit ticker; Lit " dropped by "; Fixed2 (F64.abs min_change);
   Lit "% in a single day, exceeding your threshold of "; Shown threshold_pct; Lit "%"].

(** [data.pct_change() * 100], column by column. *)
Definition daily_change_of (data : DataFrame) : dict Series :=
  map (fun c => (fst c, map (fun r => (r * hundred)%f64) (pct_change (snd c))))
      (columns data).

Definition check_stock_drops (data : DataFrame) (tickers : list string)
    (threshold_pct : F64.float) : list message :=
  if df_empty data then []
  else
    let daily_change := daily_change_of data in
    flat_map
      (fun ticker =>
         match dict_find daily_change ticker with
         | Some col =>
             let min_change := series_min col in
             if (min_change <=? F64.neg threshold_pct)%f64
             then [stock_message ticker min_change threshold_pct]
             else []
         | None => []
         end)
      tickers.

(** ** utils/data_loader.py

    The value of [yf.download(...)] is an input: a frame whose columns are
    labelled by a price field and, under a [MultiIndex], by a symbol. *)

Record RawFrame : Type := {
  raw_index : list Z;
  raw_multi : bool;
  raw_columns : list ((string * string) * Series)
}.

Definition all_nan (s : Series) : bool := forallb F64.is_nan s.

(** [dropna(axis=1, how='all')] *)
Definition dropna_columns {K : Type} (cols : list (K * Series)) : list (K * Series) :=
  filter (fun c => negb (all_nan (snd c))) cols.

Definition upper_ascii (c : ascii) : ascii :=
  let n := nat_of_ascii c in
  if ((97 <=? n) && (n <=? 122))%nat then ascii_of_nat (n - 32) else c.

(** [str.upper()] on ASCII text. *)
Fixpoint upper (s : string) : string :=
  match s with
  | EmptyString => EmptyString
  | String c s' => String (upper_ascii c) (upper s')
  end.

Definition has_field (field : string) (cols : list ((string * string) * Series)) : bool :=
  existsb (fun c => String.eqb (fst (fst c)) field) cols.

(** Lines 13 to 41: the adjusted close when the frame has one, the close
    otherwise, relabelled by symbol.  Selecting an absent field raises
    [KeyError]. *)
Definition select_prices (multi : bool) (cols : list ((string * string) * Series))
    (tickers : list string) : result (dict Series) :=
  let field := if has_field "Adj Close" cols then "Adj Close" else "Close" in
  if has_field field cols then
    let picked := filter (fun c => String.eqb (fst (fst c)) field) cols in
    let labelled :=
      map (fun c => (if multi then snd (fst c) else field, snd c)) picked in
    match tickers with
    | [t] =>
        match labelled with
        | [c] => Ok [(upper t, snd c)]
        | _ => Raise (ValueError "Length mismatch")
        end
    | _ => Ok (map (fun c => (upper (fst c), snd c)) labelled)
    end
  else Raise (KeyError field).

Fixpoint select_rows {A : Type} (keep : list bool) (l : list A) : list A :=
  match keep, l with
  | k :: keep', x :: l' =>
      if k then x :: select_rows keep' l' else select_rows keep' l'
  | _, _ => []
  end.

Definition in_range (start_date end_date d : Z) : bool :=
  (start_date <=? d) && (d <=? end_date).

(** [data.loc[start_date:end_date]] on an increasing date index: both
    bounds belong to the slice. *)
Definition loc_range (start_date end_date : Z) (df : DataFrame) : DataFrame :=
  let keep := map (in_range start_date end_date) (index df) in
  {| index := select_rows keep (index df);
     columns := map (fun c => (fst c, select_rows keep (snd c))) (columns df) |}.

Definition fill_missing (cols : dict Series) : dict Series :=
  map (fun c => (fst c, bfill (ffill (snd c)))) cols.

Definition fetch_stock_data (raw : RawFrame) (tickers : list string)
    (start_date end_date : Z) : result DataFrame :=
  let data := dropna_columns (raw_columns raw) in
  match raw_index raw, data with
  | [], _ | _, [] => Ok empty_frame
  | _, _ =>
      prices <- select_prices (raw_multi raw) data tickers ;;
      let filled := dropna_columns (fill_missing prices) in
      match filled with
      | [] => Ok empty_frame
      | _ => Ok (loc_range start_date end_date
                   {| index := raw_index raw; columns := filled |})
      end
  end.

(** ** utils/visualization.py: the MACD lines *)

(** [ewm(span=..)]: [com = (span - 1) / 2] and [alpha = 1 / (1 + com)]. *)
Definition ewm_alpha (span : Z) : F64.float :=
  let com := (F64.of_Z (span - 1) / F64.of_Z 2)%f64 in
  (F64.one / (F64.one + com))%f64.

(** [ewm(span=.., adjust=False).mean()] as the window aggregation of
    pandas runs it, with [ignore_na=False] and one observation required.
    It keeps the average [weighted] and the weight [old_wt] of that average.
    The first value seeds the average and [old_wt] starts at 1.  At a
    later value [cur]:
    - while the average is NaN, an observation replaces it;
    - otherwise [old_wt] is multiplied by [1 - alpha]; a missing [cur]
      leaves the average as it is; an observation equal to the average
      leaves it too (the guard for constant series), any other
      observation gives
      [(old_wt * weighted + alpha * cur) / (old_wt + alpha)];
      after an observation [old_wt] is 1 again.
    Every operation rounds on its own. *)
Record Ewm : Type := {
  weighted : F64.float;
  old_wt : F64.float
}.

Definition ewm_step (alpha : F64.float) (st : Ewm) (cur : F64.float) : Ewm :=
  let old_wt_factor := (F64.one - alpha)%f64 in
  let new_wt := alpha in
  if F64.is_nan (weighted st) then
    if F64.is_nan cur then st else {| weighted := cur; old_wt := old_wt st |}
  else
    let old_wt' := (old_wt st * old_wt_factor)%f64 in
    if F64.is_nan cur then {| weighted := weighted st; old_wt := old_wt' |}
    else
      {| weighted :=
           if (weighted st =? cur)%f64 then weighted st
           else ((old_wt' * weighted st + new_wt * cur) / (old_wt' + new_wt))%f64;
         old_wt := F64.one |}.

Fixpoint ewm_from (alpha : F64.float) (st : Ewm) (s : Series) : Series :=
  match s with
  | [] => []
  | cur :: s' =>
      let st' := ewm_step alpha st cur in
      weighted st' :: ewm_from alpha st' s'
  end.

Definition ewm_mean (span : Z) (s : Series) : Series :=
  match s with
  | [] => []
  | x :: s' => x :: ewm_from (ewm_alpha span) {| weighted := x; old_wt := F64.one |} s'
  end.

Record Macd : Type := {
  macd_line : Series;
  signal_line : Series;
  histogram : Series
}.

Definition macd_of (prices : Series) : Macd :=
  let ema12 := ewm_mean 12 prices in
  let ema26 := ewm_mean 26 prices in
  let macd := zip_with F64.sub ema12 ema26 in
  let signal := ewm_mean 9 macd in
  let hist := zip_with F64.sub macd signal in
  {| macd_line := macd; signal_line := signal; histogram := hist |}.

(** The three traces [plot_macd] draws; nothing when the symbol is not a
    column or has no data. *)
Definition plot_macd (data : DataFrame) (ticker : string) : option Macd :=
  match dict_find (columns data) ticker with
  | None => None
  | Some prices => if all_nan prices then None else Some (macd_of prices)
  end.

(** ** app.py: the weights handed to the valuation *)

Definition app_weights (tickers : list string) (raw_weights : list Z) : dict F64.float :=
  let n := Z.of_nat (List.length tickers) in
  if 1 <? n then
    let total := fold_left Z.add raw_weights 0 in
    if total =? 0 then map (fun t => (t, (F64.one / F64.of_Z n)%f64)) tickers
    else map (fun tw => (fst tw, (F64.of_Z (snd tw) / F64.of_Z total)%f64))
             (combine tickers raw_weights)
  else
    match tickers with
    | [t] => [(t, F64.one)]
    | _ => []
    end.

(** Lines 111 to 117: one symbol is valued by its own price column. *)
Definition app_portfolio_value (data : DataFrame) (tickers : list string)
    (weights : dict F64.float) : result Series :=
  match tickers with
  | [ticker] => dict_get (columns data) ticker
  | _ => compute_portfolio_value data (Some weights) default_initial_value
  end.

(** ** utils/alerts.py: the latest market changes

    The value of [yf.download(tickers, period="5d", interval="1d")] is an
    input.  A row of the summary keeps the symbol, the f-string of the
    price, the arrow that opens the change cell, and the rest of that
    cell. *)

Inductive arrow : Type := Up | Down.

Record ChangeRow : Type := {
  row_ticker : string;
  row_price : message;
  row_arrow : arrow;
  row_change : message
}.

(** [s.iloc[-1 - k]], NaN standing for a position the series lacks. *)
Definition iloc_back (k : nat) (s : Series) : F64.float := nth k (rev s) F64.nan.

(** Line 80, for one column: [(data.iloc[-1] / data.iloc[-2] - 1) * 100]. *)
Definition latest_change (col : Series) : F64.float :=
  ((iloc_back 0 col / iloc_back 1 col - F64.one) * hundred)%f64.

Definition latest_row (latest_prices changes : dict F64.float) (t : string)
  : result ChangeRow :=
  p <- dict_get latest_prices t ;;
  c <- dict_get changes t ;;
  Ok {| row_ticker := t;
        row_price := [Lit "$"; Fixed2 p];
        row_arrow := if (F64.zero <? c)%f64 then Up else Down;
        row_change := [Lit " "; Fixed2 (F64.abs c); Lit "%"] |}.

(** Lines 58 to 89, inside the [try].  Under a single-level header the
    selected field is a Series, its last entry a scalar, and subscripting
    a scalar by a symbol raises. *)
Definition latest_changes_body (raw : RawFrame) (tickers : list string)
  : result (list ChangeRow) :=
  let cols := raw_columns raw in
  let field :=
    if has_field "Adj Close" cols then Some "Adj Close"
    else if has_field "Close" cols then Some "Close"
    else None in
  match field with
  | None => Ok []
  | Some field =>
      if (List.length (raw_index raw) <? 2)%nat then Ok []
      else if raw_multi raw then
        let data :=
          map (fun c => (snd (fst c), ffill (snd c)))
              (filter (fun c => String.eqb (fst (fst c)) field) cols) in
        let changes := map (fun c => (fst c, latest_change (snd c))) data in
        let latest_prices := map (fun c => (fst c, iloc_back 0 (snd c))) data in
        mapM (latest_row latest_prices changes) tickers
      else Raise IndexError
  end.

(** Every exception ends in the empty table. *)
Definition get_latest_market_changes (raw : RawFrame) (tickers : list string)
  : list ChangeRow :=
  match tickers with
  | [] => []
  | _ =>
      match latest_changes_body raw tickers with
      | Ok summary => summary
      | Raise _ => []
      end
  end.

(** ** utils/visualization.py: the other computed traces *)

(** [df[t] = v]: the column keeps its place; a new label goes last. *)
Fixpoint dict_set {V : Type} (d : dict V) (k : string) (v : V) : dict V :=
  match d with
  | [] => [(k, v)]
  | (k', v') :: d' =>
      if String.eqb k k' then (k, v) :: d' else (k', v') :: dict_set d' k v
  end.

(** Lines 84 to 86: the loop over the keys of [weights]. *)
Definition scale_columns (cols : dict Series) (weights : dict F64.float)
  : result (dict Series) :=
  fold_left
    (fun acc t =>
       df <- acc ;;
       col <- dict_get df t ;;
       w <- dict_get weights t ;;
       Ok (dict_set df t (map (fun p => (p * w)%f64) col)))
    (map fst weights) (Ok cols).

(** The stacked areas [plot_portfolio_contributions] draws: one trace per
    key of [weights], read from the scaled frame. *)
Definition plot_portfolio_contributions (data : DataFrame) (weights : dict F64.float)
  : result (dict Series) :=
  df <- scale_columns (columns data) weights ;;
  mapM (fun t => col <- dict_get df t ;; Ok (t, col)) (map fst weights).

(** The line [plot_drawdown] draws: [(prices - cum_max) / cum_max * 100]. *)
Definition drawdown_curve (prices : Series) : Series :=
  let cum_max := cummax prices in
  map (fun d => (d * hundred)%f64)
      (zip_with F64.div (zip_with F64.sub prices cum_max) cum_max).

Definition plot_drawdown (df : DataFrame) (ticker : string) : result Series :=
  prices <- dict_get (columns df) ticker ;;
  Ok (drawdown_curve prices).

(** ** app.py: the ticker list *)

(** The ASCII characters [str.strip()] removes. *)
Definition is_space (c : ascii) : bool :=
  let n := nat_of_ascii c in
  (((9 <=? n) && (n <=? 13)) || ((28 <=? n) && (n <=? 32)))%nat.

Fixpoint lstrip (s : string) : string :=
  match s with
  | EmptyString => EmptyString
  | String c s' => if is_space c then lstrip s' else s
  end.

Fixpoint rstrip (s : string) : string :=
  match s with
  | EmptyString => EmptyString
  | String c s' =>
      match rstrip s' with
      | EmptyString => if is_space c then EmptyString else String c EmptyString
      | r => String c r
      end
  end.

Definition strip (s : string) : string := rstrip (lstrip s).

Definition comma : ascii := ","%char.

(** [s.split(",")]: at least one piece, empty ones included. *)
Fixpoint split_comma (s : string) : list string :=
  match s with
  | EmptyString => [EmptyString]
  | String c s' =>
      if Ascii.eqb c comma then EmptyString :: split_comma s'
      else
        match split_comma s' with
        | piece :: pieces => String c piece :: pieces
        | [] => [String c EmptyString]
        end
  end.

Definition is_empty (s : string) : bool :=
  match s with EmptyString => true | _ => false end.

(** [list(dict.fromkeys(l))]: the first occurrence of each key, in order. *)
Fixpoint fromkeys (seen l : list string) : list string :=
  match l with
  | [] => []
  | k :: l' =>
      if existsb (String.eqb k) seen then fromkeys seen l'
      else k :: fromkeys (k :: seen) l'
  end.

(** Lines 25 and 26. *)
Definition parse_tickers (tickers_input : string) : list string :=
  fromkeys []
    (map (fun t => upper (strip t))
         (filter (fun t => negb (is_empty (strip t))) (split_comma tickers_input))).

(** [",".join(l)] *)
Fixpoint join_comma (l : list string) : string :=
  match l with
  | [] => EmptyString
  | [t] => t
  | t :: l' => (t ++ String comma (join_comma l'))%string
  end.

(** Lines 77 and 78: the requested symbols the table has no column for. *)
Definition invalid_tickers (tickers : list string) (data : DataFrame) : list string :=
  filter (fun t => negb (existsb (String.eqb t) (map fst (columns data)))) tickers.

(** ** app.py: the latest day's changes (lines 232 to 272) *)

(** A line of the panel: green with an up arrow when the change is above 0,
    red with a down arrow otherwise; the label; the change under [:.2f]. *)
Record DayLine : Type := {
  line_rising : bool;
  line_label : string;
  line_change : F64.float
}.

(** A change is shown when [abs(change) >= threshold]. *)
Definition day_line (label : string) (change threshold : F64.float) : list DayLine :=
  if (threshold <=? F64.abs change)%f64
  then [{| line_rising := (F64.zero <? change)%f64;
           line_label := label;
           line_change := change |}]
  else [].

Record LatestDay : Type := {
  portfolio_lines : list DayLine;
  stock_lines : list DayLine;
  no_significant_changes : bool
}.

Definition latest_day_changes (data : DataFrame) (tickers : list string)
    (portfolio_value : Series) (portfolio_threshold stock_threshold : F64.float)
  : result LatestDay :=
  let daily_change := daily_change_of data in
  first <- iloc_first portfolio_value ;;
  latest_portfolio_change <-
    iloc_last (map (fun v => ((v / first - F64.one) * hundred)%f64) portfolio_value) ;;
  stocks <-
    mapM (fun t =>
            col <- dict_get daily_change t ;;
            latest_stock_change <- iloc_last col ;;
            Ok (day_line t latest_stock_change stock_threshold))
         tickers ;;
  let stock_alerted :=
    existsb (fun l => match l with [] => false | _ => true end) stocks in
  Ok {| portfolio_lines := day_line "Portfolio" latest_portfolio_change portfolio_threshold;
        stock_lines := List.concat stocks;
        no_significant_changes :=
          (F64.abs latest_portfolio_change <? portfolio_threshold)%f64
          && negb stock_alerted |}.

(** ** The specification's wording

    Definitions that follow the sentences of the specification, to be
    compared with the functions above, and the inputs the examples use. *)

Definition no_nan (s : Series) : bool := forallb (fun x => negb (F64.is_nan x)) s.

(** Section 4.4: the percent change of a point relative to the first value
    of the series. *)
Definition pct_vs_first (portfolio_value : Series) (v : F64.float) : F64.float :=
  ((v / hd F64.nan portfolio_value - F64.one) * hundred)%f64.

Definition worst_drop (portfolio_value : Series) : F64.float :=
  series_min (map (pct_vs_first portfolio_value) portfolio_value).

(** Section 4.4: the minimum day-over-day percent change of an asset. *)
Definition worst_daily_change (data : DataFrame) (ticker : string) : option F64.float :=
  option_map series_min (dict_find (daily_change_of data) ticker).

Definition qualifies (data : DataFrame) (threshold_pct : F64.float) (ticker : string) : bool :=
  match worst_daily_change data ticker with
  | Some m => (m <=? F64.neg threshold_pct)%f64
  | None => false
  end.

Definition stock_alert (data : DataFrame) (threshold_pct : F64.float) (ticker : string)
  : list message :=
  match worst_daily_change data ticker with
  | Some m =>
      if (m <=? F64.neg threshold_pct)%f64 then [stock_message ticker m threshold_pct] else []
  | None => []
  end.

(** An alert names the asset its text starts with. *)
Definition names (ticker : string) (m : message) : bool :=
  match m with
  | Lit s :: _ => String.eqb s ticker
  | _ => false
  end.

Definition alerts_naming (ticker : string) (alerts : list message) : list message :=
  filter (names ticker) alerts.

(** Section 4.3: the running historical maximum at a date is the maximum of
    the values up to that date; the drawdown divides the least difference to
    it by the maximum of the running maxima. *)
Definition running_max_at (portfolio_value : Series) (i : nat) : F64.float :=
  series_max (firstn (S i) portfolio_value).

Definition spec_max_drawdown (portfolio_value : Series) : F64.float :=
  let dates := seq 0 (List.length portfolio_value) in
  (series_min (map (fun i => (nth i portfolio_value F64.nan
                               - running_max_at portfolio_value i)%f64) dates)
   / series_max (map (running_max_at portfolio_value) dates))%f64.

Fixpoint strictly_increasing (s : Series) : bool :=
  match s with
  | x :: (y :: _) as t => (x <? y)%f64 && strictly_increasing t
  | _ => true
  end.

(** A positive, finite, well-formed price or value. *)
Definition positive_value (x : F64.float) : bool :=
  match x with
  | S754_finite false _ _ => F64.valid x
  | _ => false
  end.

(** Section 8: the cumulative return of the series the valuation produces. *)
Definition engine_cumulative_return (data : DataFrame) (weights : dict F64.float)
    (initial_value : F64.float) : result F64.float :=
  v <- compute_portfolio_value data (Some weights) initial_value ;;
  cumulative_return_of v.

Definition single_asset (dates : list Z) (ticker : string) (prices : Series) : DataFrame :=
  {| index := dates; columns := [(ticker, prices)] |}.

Definition rising_series : Series := [F64.of_Z 100; F64.of_Z 110; F64.of_Z 121].

Definition dipping_series : Series := [F64.of_Z 100; F64.of_Z 90; F64.of_Z 95].

Definition two_day_drop : DataFrame :=
  {| index := [1; 2]; columns := [("A", [F64.of_Z 100; F64.of_Z 90])] |}.

Definition two_assets : DataFrame :=
  {| index := [1; 2; 3];
     columns := [("A", [F64.of_Z 10; F64.of_Z 11; F64.of_Z 12]);
                 ("B", [F64.of_Z 20; F64.of_Z 20; F64.of_Z 30])] |}.

(** The float 0.5. *)
Definition one_half : F64.float := S754_finite false 4503599627370496 (-53).

(** ** Notions the proofs use *)

Definition fexp64 : Z -> Z := fexp F64.prec F64.emax.

(** One alignment step of a rounding: shift the mantissa right down to the
    canonical exponent. *)
Definition sh (m e : Z) : Z * Z :=
  let n := Z.max 0 (fexp64 (Zdigits2 m + e) - e) in (Z.shiftr m n, e + n).

(** The float a rounding returns for a mantissa and an exponent. *)
Definition pack (s : bool) (m e : Z) : F64.float :=
  match m with
  | Z0 => S754_zero s
  | Zpos p => if e <=? 971 then S754_finite s p e else S754_infinity s
  | Zneg _ => S754_nan
  end.

(** A rounded value keeps the sign it was given and is never NaN. *)
Inductive signed_as (s : bool) : F64.float -> Prop :=
| signed_zero : signed_as s (S754_zero s)
| signed_finite p e : -1074 <= e <= 971 -> signed_as s (S754_finite s p e)
| signed_infinity : signed_as s (S754_infinity s).

(** Positive results of a rounding: finite above the least exponent, or
    plus infinity. *)
Definition pos_rounded (x : F64.float) : Prop :=
  signed_as false x /\ F64.is_zero x = false.

(** Floats other than NaN are ordered as these triples are, lexicographically. *)
Definition rank (x : F64.float) : Z * Z * Z :=
  match x with
  | S754_nan => (0, 0, 0)
  | S754_infinity true => (-2, 0, 0)
  | S754_finite true m e => (-1, - e, - Zpos m)
  | S754_zero _ => (0, 0, 0)
  | S754_finite false m e => (1, e, Zpos m)
  | S754_infinity false => (2, 0, 0)
  end.

Definition lex_lt (a b : Z * Z * Z) : Prop :=
  let '(a1, a2, a3) := a in
  let '(b1, b2, b3) := b in
  a1 < b1 \/ (a1 = b1 /\ (a2 < b2 \/ (a2 = b2 /\ a3 < b3))).

Definition lex_le (a b : Z * Z * Z) : Prop := lex_lt a b \/ a = b.

(** The state of a running maximum: nothing seen yet, or the largest value
    seen. *)
Definition upd (st : option F64.float) (x : F64.float) : option F64.float :=
  if F64.is_nan x then st
  else Some (match st with None => x | Some a => fmax a x end).

Definition val (st : option F64.float) : F64.float :=
  match st with None => F64.nan | Some a => a end.

Definition acc_of (st : option F64.float) : F64.float :=
  match st with None => F64.neg_infinity | Some a => a end.

Definition known (st : option F64.float) : Prop :=
  match st with None => True | Some a => F64.is_nan a = false end.

Definition prefix_maxima (st : option F64.float) (s : Series) : Series :=
  map (fun i => val (fold_left upd (firstn (S i) s) st)) (seq 0 (List.length s)).

(** What [cummax] carries along a series of positive values. *)
Definition below_peak (acc : F64.float) : Prop :=
  acc = F64.neg_infinity \/ positive_value acc = true.

(** Split a hypothesis [a && b = true] in two. *)
Ltac split_andb H H1 H2 :=
  apply andb_true_iff in H; destruct H as [H1 H2].

(** A symbol that holds a comma. *)
Fixpoint has_comma (s : string) : bool :=
  match s with
  | EmptyString => false
  | String c s' => Ascii.eqb c comma || has_comma s'
  end.

(** A symbol as [parse_tickers] leaves it: not empty, stripped, in upper
    case, without a comma. *)
Definition normal_ticker (t : string) : Prop :=
  is_empty t = false /\ strip t = t /\ upper t = t /\ has_comma t = false.

(** A weight of the sidebar: zero, or a positive float. *)
Definition zero_or_pos (x : F64.float) : Prop := x = F64.zero \/ pos_rounded x.

(** One turn of the loop of [plot_portfolio_contributions]. *)
Definition scale_step (weights : dict F64.float) (acc : result (dict Series)) (t : string)
  : result (dict Series) :=
  df <- acc ;;
  col <- dict_get df t ;;
  w <- dict_get weights t ;;
  Ok (dict_set df t (map (fun p => F64.mul p w) col)).

(** A column after the loop: multiplied by its weight when it has one. *)
Definition scaled (weights : dict F64.float) (t : string) (col : Series) : Series :=
  match dict_find weights t with
  | Some w => map (fun p => F64.mul p w) col
  | None => col
  end.

(** The state of an exponential average after the value at position [i]. *)
Definition ewm_state (alpha : F64.float) (s : Series) (i : nat) : Ewm :=
  fold_left (ewm_step alpha) (firstn i (tl s))
            {| weighted := hd F64.nan s; old_wt := F64.one |}.

(** * Facts on binary64 rounding *)

Lemma fexp_unfold e : fexp64 e = Z.max (e - 53) (-1074).
Proof. reflexivity. Qed.

Lemma fexp_mono a b : a <= b -> fexp64 a <= fexp64 b.
Proof. rewrite !fexp_unfold. lia. Qed.

Lemma fexp_ge_emin e : -1074 <= fexp64 e.
Proof. rewrite fexp_unfold. lia. Qed.

Lemma digits2_pos_size p : digits2_pos p = Pos.size p.
Proof. induction p; simpl; congruence. Qed.

Lemma Zdigits2_log2 p : Zdigits2 (Zpos p) = Z.log2 (Zpos p) + 1.
Proof.
  simpl. rewrite digits2_pos_size.
  destruct p; simpl; try reflexivity; rewrite Pos2Z.inj_succ; lia.
Qed.

Lemma Zdigits2_nonneg m : 0 <= m -> 0 <= Zdigits2 m.
Proof. destruct m; simpl; lia. Qed.

Lemma Zdigits2_pos_gt p : 0 < Zdigits2 (Zpos p).
Proof. simpl. lia. Qed.

Lemma Zdigits2_bounds p :
  2 ^ (Zdigits2 (Zpos p) - 1) <= Zpos p < 2 ^ Zdigits2 (Zpos p).
Proof.
  rewrite Zdigits2_log2.
  replace (Z.log2 (Zpos p) + 1 - 1) with (Z.log2 (Zpos p)) by lia.
  apply (Z.log2_spec (Zpos p)). lia.
Qed.

Lemma Zdigits2_le m n : 0 <= m <= n -> Zdigits2 m <= Zdigits2 n.
Proof.
  intros [Hm Hn]. destruct m as [|p|p]; [|destruct n as [|q|q]|]; try lia.
  - apply Zdigits2_nonneg. lia.
  - rewrite !Zdigits2_log2. pose proof (Z.log2_le_mono (Zpos p) (Zpos q)). lia.
Qed.

Lemma Zdigits2_mul_pow2 p k :
  0 <= k -> Zdigits2 (Zpos p * 2 ^ k) = Zdigits2 (Zpos p) + k.
Proof.
  intros Hk.
  assert (Hpos : 0 < Zpos p * 2 ^ k) by (apply Z.mul_pos_pos; [lia | apply Z.pow_pos_nonneg; lia]).
  destruct (Zpos p * 2 ^ k) as [|q|q] eqn:E; try lia.
  rewrite !Zdigits2_log2, <- E, Z.log2_mul_pow2 by lia. lia.
Qed.

Lemma Zdigits2_shiftr p n :
  0 <= n -> 0 < Z.shiftr (Zpos p) n ->
  Zdigits2 (Z.shiftr (Zpos p) n) = Zdigits2 (Zpos p) - n.
Proof.
  intros Hn Hpos.
  destruct (Z.shiftr (Zpos p) n) as [|q|q] eqn:E; try lia.
  rewrite !Zdigits2_log2, <- E, Z.log2_shiftr by lia.
  assert (~ Z.log2 (Zpos p) < n).
  { intro Hlt. apply (Z.shiftr_eq_0 (Zpos p)) in Hlt; lia. }
  lia.
Qed.

(** Shifting right by [n] bits. *)

Lemma shr_1_m r : 0 <= shr_m r -> shr_m (shr_1 r) = Z.shiftr (shr_m r) 1.
Proof.
  destruct r as [m r s]. simpl. intros Hm.
  rewrite <- Z.div2_spec.
  destruct m as [|[p|p|]|p]; simpl; try reflexivity; lia.
Qed.

Lemma shr_1_nonneg r : 0 <= shr_m r -> 0 <= shr_m (shr_1 r).
Proof.
  intros H. rewrite shr_1_m by assumption. apply Z.shiftr_nonneg. assumption.
Qed.

Lemma iter_pos_nat {A : Type} (f : A -> A) p x :
  iter_pos f p x = Nat.iter (Pos.to_nat p) f x.
Proof.
  revert x. induction p as [p IH|p IH|]; intros x; cbn [iter_pos].
  - rewrite !IH, Pos2Nat.inj_xI.
    replace (S (2 * Pos.to_nat p)) with (Pos.to_nat p + S (Pos.to_nat p))%nat by lia.
    rewrite Nat.iter_add, Nat.iter_succ_r. reflexivity.
  - rewrite !IH, Pos2Nat.inj_xO.
    replace (2 * Pos.to_nat p)%nat with (Pos.to_nat p + Pos.to_nat p)%nat by lia.
    rewrite Nat.iter_add. reflexivity.
  - reflexivity.
Qed.

Lemma iter_shr_1_m n r :
  0 <= shr_m r ->
  shr_m (Nat.iter n shr_1 r) = Z.shiftr (shr_m r) (Z.of_nat n).
Proof.
  intros Hm. induction n as [|n IH].
  - simpl. rewrite Z.shiftr_0_r. reflexivity.
  - assert (Hn : 0 <= shr_m (Nat.iter n shr_1 r)).
    { rewrite IH. apply Z.shiftr_nonneg. assumption. }
    rewrite Nat.iter_succ, shr_1_m, IH by assumption.
    rewrite Z.shiftr_shiftr by lia. f_equal. lia.
Qed.

Lemma shr_m_shift m e l n :
  0 <= m ->
  shr_m (fst (shr (shr_record_of_loc m l) e n)) = Z.shiftr m (Z.max 0 n) /\
  snd (shr (shr_record_of_loc m l) e n) = e + Z.max 0 n.
Proof.
  intros Hm.
  assert (Hr : shr_m (shr_record_of_loc m l) = m) by (destruct l as [|[]]; reflexivity).
  destruct n as [|p|p]; simpl.
  - rewrite Hr. split; [reflexivity | lia].
  - rewrite iter_pos_nat, iter_shr_1_m by lia.
    rewrite Hr, positive_nat_Z. split; reflexivity.
  - rewrite Hr. split; [reflexivity | lia].
Qed.

Lemma shr_fexp_sh m e l :
  0 <= m ->
  shr_m (fst (shr_fexp F64.prec F64.emax m e l)) = fst (sh m e) /\
  snd (shr_fexp F64.prec F64.emax m e l) = snd (sh m e).
Proof.
  intros Hm. unfold shr_fexp, sh. cbn [fst snd].
  apply shr_m_shift. assumption.
Qed.

Lemma sh_nonneg m e : 0 <= m -> 0 <= fst (sh m e).
Proof. intros H. unfold sh. cbn [fst]. apply Z.shiftr_nonneg. assumption. Qed.

Lemma sh_exp_ge m e : fexp64 (Zdigits2 m + e) <= snd (sh m e) /\ e <= snd (sh m e).
Proof. unfold sh. cbn [snd]. lia. Qed.

Lemma sh_pos m e : 0 < m -> -1074 <= e -> 0 < fst (sh m e).
Proof.
  intros Hm He. unfold sh. cbn [fst].
  destruct m as [|p|p]; try lia.
  set (n := Z.max 0 _).
  assert (Hn : n <= Z.log2 (Zpos p)).
  { subst n. rewrite fexp_unfold, Zdigits2_log2.
    pose proof (Z.log2_nonneg (Zpos p)). lia. }
  assert (H0 : Z.shiftr (Zpos p) n <> 0).
  { rewrite Z.shiftr_eq_0_iff. lia. }
  pose proof (Z.shiftr_nonneg (Zpos p) n). lia.
Qed.

Lemma sh_canonical m e :
  0 < m -> e <= fexp64 (Zdigits2 m + e) -> 0 < fst (sh m e) ->
  fexp64 (Zdigits2 (fst (sh m e)) + snd (sh m e)) = snd (sh m e) /\
  Zdigits2 (fst (sh m e)) + snd (sh m e) = Zdigits2 m + e.
Proof.
  intros Hm He. unfold sh. cbn [fst snd].
  destruct m as [|p|p]; try lia.
  set (n := Z.max 0 _). intros Hpos.
  assert (Hn : 0 <= n) by (subst n; lia).
  rewrite Zdigits2_shiftr by assumption.
  replace (Zdigits2 (Zpos p) - n + (e + n)) with (Zdigits2 (Zpos p) + e) by lia.
  split; [subst n; lia | reflexivity].
Qed.

Lemma round_nearest_even_cases m l :
  round_nearest_even m l = m \/ round_nearest_even m l = m + 1.
Proof.
  destruct l as [|[]]; simpl; auto. destruct (Z.even m); auto.
Qed.

(** The rounding of [m * 2^e]: align, round to nearest, align again. *)
Lemma binary_round_aux_spec s m e l :
  0 <= m ->
  exists c, (c = 0 \/ c = 1) /\
    binary_round_aux F64.prec F64.emax s m e l =
      pack s (fst (sh (fst (sh m e) + c) (snd (sh m e))))
             (snd (sh (fst (sh m e) + c) (snd (sh m e)))).
Proof.
  intros Hm. unfold binary_round_aux.
  destruct (shr_fexp_sh m e l Hm) as [H1 H2].
  destruct (shr_fexp F64.prec F64.emax m e l) as [r1 e1]. cbn [fst snd] in H1, H2.
  set (m1 := round_nearest_even (shr_m r1) (loc_of_shr_record r1)).
  assert (Hc : m1 = fst (sh m e) \/ m1 = fst (sh m e) + 1).
  { subst m1. rewrite <- H1. apply round_nearest_even_cases. }
  assert (Hm1 : 0 <= m1).
  { pose proof (sh_nonneg m e Hm). lia. }
  destruct (shr_fexp_sh m1 e1 loc_Exact Hm1) as [H3 H4].
  destruct (shr_fexp F64.prec F64.emax m1 e1 loc_Exact) as [r2 e2]. cbn [fst snd] in H3, H4.
  exists (m1 - fst (sh m e)). split; [lia|].
  replace (fst (sh m e) + (m1 - fst (sh m e))) with m1 by lia.
  rewrite <- H2, <- H3, <- H4. reflexivity.
Qed.

Lemma valid_finite_iff s p e :
  F64.valid (S754_finite s p e) = true <->
  fexp64 (Zdigits2 (Zpos p) + e) = e /\ e <= 971.
Proof.
  unfold F64.valid, valid_binary, bounded, canonical_mantissa.
  rewrite andb_true_iff, Z.eqb_eq, Z.leb_le. reflexivity.
Qed.

Lemma pack_valid s m e :
  (0 < m -> fexp64 (Zdigits2 m + e) = e) -> F64.valid (pack s m e) = true.
Proof.
  intros H. destruct m as [|p|p]; simpl; try reflexivity.
  destruct (Z.leb_spec e 971); [|reflexivity].
  apply valid_finite_iff. split; [apply H; lia | assumption].
Qed.

Lemma signed_as_not_nan s x : signed_as s x -> F64.is_nan x = false.
Proof. destruct 1; reflexivity. Qed.

Lemma pack_signed s m e : 0 <= m -> -1074 <= e -> signed_as s (pack s m e).
Proof.
  intros Hm He. destruct m as [|p|p]; simpl; try lia.
  - constructor.
  - destruct (Z.leb_spec e 971); constructor. lia.
Qed.

Lemma binary_round_aux_signed s m e l :
  0 <= m -> signed_as s (binary_round_aux F64.prec F64.emax s m e l).
Proof.
  intros Hm. destruct (binary_round_aux_spec s m e l Hm) as (c & Hc & ->).
  pose proof (sh_nonneg m e Hm) as Ha.
  pose proof (sh_exp_ge m e) as [Hea _].
  pose proof (fexp_ge_emin (Zdigits2 m + e)).
  apply pack_signed.
  - apply sh_nonneg. lia.
  - pose proof (sh_exp_ge (fst (sh m e) + c) (snd (sh m e))) as [_ ?]. lia.
Qed.

(** Above the least exponent a positive mantissa does not round to zero. *)
Lemma binary_round_aux_nonzero s m e l :
  0 < m -> -1074 <= e ->
  F64.is_zero (binary_round_aux F64.prec F64.emax s m e l) = false.
Proof.
  intros Hm He.
  destruct (binary_round_aux_spec s m e l) as (c & Hc & ->); [lia|].
  pose proof (sh_pos m e Hm He) as Ha.
  pose proof (sh_exp_ge m e) as [_ Hea].
  assert (Hb : 0 < fst (sh (fst (sh m e) + c) (snd (sh m e)))).
  { apply sh_pos; lia. }
  destruct (fst (sh (fst (sh m e) + c) (snd (sh m e)))) as [|p|p]; try lia.
  simpl. destruct (_ <=? _); reflexivity.
Qed.

(** Rounding from an exponent that is not above the canonical one gives
    well-formed data. *)
Lemma binary_round_aux_valid s m e l :
  0 <= m -> e <= fexp64 (Zdigits2 m + e) ->
  F64.valid (binary_round_aux F64.prec F64.emax s m e l) = true.
Proof.
  intros Hm He.
  destruct (binary_round_aux_spec s m e l Hm) as (c & Hc & ->).
  pose proof (sh_nonneg m e Hm) as Ha.
  assert (Hea : snd (sh m e) = fexp64 (Zdigits2 m + e)).
  { unfold sh. cbn [snd]. lia. }
  apply pack_valid. intros Hb.
  assert (Hm1 : 0 < fst (sh m e) + c).
  { destruct (Z.eq_dec (fst (sh m e) + c) 0) as [E|E]; [|lia].
    rewrite E in Hb. unfold sh in Hb. cbn [fst] in Hb.
    rewrite Z.shiftr_0_l in Hb. lia. }
  assert (Hpre : snd (sh m e) <= fexp64 (Zdigits2 (fst (sh m e) + c) + snd (sh m e))).
  { destruct (Z.eq_dec (fst (sh m e)) 0) as [E0|E0].
    - (* everything was shifted out: the exponent is the least one *)
      assert (c = 1) by lia. subst c. rewrite E0. simpl Zdigits2.
      assert (snd (sh m e) = -1074).
      { rewrite Hea. unfold sh in E0. cbn [fst] in E0.
        destruct m as [|p|p]; try lia.
        - simpl Zdigits2 in *. rewrite fexp_unfold in *. lia.
        - apply Z.shiftr_eq_0_iff in E0. destruct E0 as [E0|[_ E0]]; [lia|].
          rewrite Zdigits2_log2 in *. rewrite fexp_unfold in *. lia. }
      rewrite fexp_unfold. lia.
    - assert (0 < m) by (destruct m; try lia; unfold sh in E0; cbn [fst] in E0;
                         rewrite Z.shiftr_0_l in E0; lia).
      destruct (sh_canonical m e) as [Hcan _]; try lia.
      rewrite <- Hcan at 1. apply fexp_mono.
      pose proof (Zdigits2_le (fst (sh m e)) (fst (sh m e) + c)). lia. }
  apply sh_canonical; assumption.
Qed.

Lemma iter_shr_1_exact n m :
  0 < m ->
  Nat.iter n shr_1 {| shr_m := m * 2 ^ Z.of_nat n; shr_r := false; shr_s := false |} =
  {| shr_m := m; shr_r := false; shr_s := false |}.
Proof.
  revert m. induction n as [|n IH]; intros m Hm.
  - simpl. f_equal. lia.
  - rewrite Nat.iter_succ.
    replace (m * 2 ^ Z.of_nat (S n)) with ((2 * m) * 2 ^ Z.of_nat n).
    + rewrite IH by lia. destruct m as [|p|p]; try lia. reflexivity.
    + rewrite Nat2Z.inj_succ, Z.pow_succ_r by lia. ring.
Qed.

(** A representable value is not changed by rounding. *)
Lemma binary_round_aux_exact s p e k :
  F64.valid (S754_finite s p e) = true -> 0 <= k ->
  binary_round_aux F64.prec F64.emax s (Zpos p * 2 ^ k) (e - k) loc_Exact =
  S754_finite s p e.
Proof.
  intros Hv Hk. apply valid_finite_iff in Hv. destruct Hv as [Hcan Hmax].
  unfold binary_round_aux, shr_fexp.
  rewrite Zdigits2_mul_pow2 by assumption.
  replace (Zdigits2 (Zpos p) + k + (e - k)) with (Zdigits2 (Zpos p) + e) by lia.
  change (fexp F64.prec F64.emax) with fexp64. rewrite Hcan.
  replace (e - (e - k)) with k by lia.
  assert (Hshr : shr (shr_record_of_loc (Zpos p * 2 ^ k) loc_Exact) (e - k) k =
                 ({| shr_m := Zpos p; shr_r := false; shr_s := false |}, e)).
  { destruct k as [|q|q]; try lia.
    - simpl. repeat f_equal; lia.
    - unfold shr. rewrite iter_pos_nat. cbn [shr_record_of_loc].
      rewrite <- (positive_nat_Z q) at 1.
      rewrite iter_shr_1_exact by lia. f_equal. lia. }
  rewrite Hshr. cbn [shr_m loc_of_shr_record round_nearest_even].
  rewrite Hcan, Z.sub_diag. cbn [shr shr_record_of_loc shr_m].
  change (Z.sub F64.emax F64.prec) with 971.
  destruct (Z.leb_spec e 971); [reflexivity | lia].
Qed.

Lemma one_unfold : F64.one = S754_finite false 4503599627370496 (-52).
Proof. reflexivity. Qed.

Lemma mul_one_r x : F64.valid x = true -> F64.mul x F64.one = x.
Proof.
  intros Hv. rewrite one_unfold. destruct x as [s|s| |s p e]; simpl;
    try (rewrite xorb_false_r; reflexivity); try reflexivity.
  unfold F64.mul, SFmul. rewrite xorb_false_r, Pos2Z.inj_mul.
  change (Z.pos 4503599627370496) with (2 ^ 52).
  replace (Z.add e (-52)) with (e - 52) by lia.
  apply binary_round_aux_exact; [assumption | lia].
Qed.

Lemma mul_one_l x : F64.valid x = true -> F64.mul F64.one x = x.
Proof.
  intros Hv. rewrite one_unfold. destruct x as [s|s| |s p e]; try reflexivity.
  unfold F64.mul, SFmul. cbn [xorb].
  rewrite Pos.mul_comm, Pos2Z.inj_mul.
  change (Z.pos 4503599627370496) with (2 ^ 52).
  replace (Z.add (-52) e) with (e - 52) by lia.
  apply binary_round_aux_exact; [assumption | lia].
Qed.

Lemma div_eucl_div_mod a b : Z.div_eucl a b = (a / b, a mod b).
Proof. unfold Z.div, Z.modulo. destruct (Z.div_eucl a b). reflexivity. Qed.

Lemma new_location_exact b : new_location b 0 = loc_Exact.
Proof. unfold new_location. destruct (Z.even b); reflexivity. Qed.

Lemma div_one_r x : F64.valid x = true -> F64.div x F64.one = x.
Proof.
  intros Hv. rewrite one_unfold. destruct x as [s|s| |s p e]; simpl;
    try (rewrite xorb_false_r; reflexivity); try reflexivity.
  pose proof Hv as Hv'. apply valid_finite_iff in Hv'. destruct Hv' as [Hcan Hmax].
  unfold F64.div, SFdiv, SFdiv_core_binary.
  change (fexp F64.prec F64.emax) with fexp64.
  change (Zdigits2 (Z.pos 4503599627370496)) with 53.
  set (e' := Z.min _ _).
  assert (He' : e' <= e).
  { subst e'. pose proof (fexp_mono (Zdigits2 (Zpos p) + e - (53 + -52)) (Zdigits2 (Zpos p) + e)). lia. }
  assert (Hs : 0 < e - -52 - e') by lia.
  destruct (e - -52 - e') as [|q|q] eqn:Es; try lia.
  rewrite div_eucl_div_mod, Z.shiftl_mul_pow2 by lia.
  change (Z.pos 4503599627370496) with (2 ^ 52).
  assert (Hq : Zpos q = (e - e') + 52) by lia.
  rewrite Hq, Z.pow_add_r, Z.mul_assoc by lia.
  rewrite Z.div_mul, Z.mod_mul by lia.
  rewrite new_location_exact, xorb_false_r.
  replace e' with (e - (e - e')) at 2 by lia.
  apply binary_round_aux_exact; [assumption | lia].
Qed.

Lemma div_diag s p e :
  F64.div (S754_finite s p e) (S754_finite s p e) = F64.one.
Proof.
  unfold F64.div, SFdiv, SFdiv_core_binary.
  rewrite !Z.sub_diag, xorb_nilpotent.
  change (Z.sub 0 (Z.min (fexp F64.prec F64.emax 0) 0)) with 53.
  cbv iota beta.
  rewrite div_eucl_div_mod, Z.shiftl_mul_pow2 by lia.
  rewrite Z.mul_comm, Z.div_mul, Z.mod_mul by lia.
  rewrite new_location_exact. reflexivity.
Qed.

Lemma Zdigits2_pow2 j : 0 <= j -> Zdigits2 (2 ^ j) = j + 1.
Proof.
  intros Hj. assert (H : 0 < 2 ^ j) by (apply Z.pow_pos_nonneg; lia).
  destruct (2 ^ j) as [|q|q] eqn:E; try lia.
  rewrite Zdigits2_log2, <- E, Z.log2_pow2 by lia. reflexivity.
Qed.

Lemma Zdigits2_div a b :
  0 < a -> 0 < b -> Zdigits2 a - Zdigits2 b <= Zdigits2 (a / b).
Proof.
  intros Ha Hb.
  destruct a as [|p|p]; try lia. destruct b as [|q|q]; try lia.
  pose proof (Zdigits2_bounds p) as [Hp _].
  pose proof (Zdigits2_bounds q) as [_ Hq].
  pose proof (Zdigits2_pos_gt p). pose proof (Zdigits2_pos_gt q).
  assert (Hquot : 0 <= Zpos p / Zpos q) by (apply Z.div_pos; lia).
  destruct (Z_le_gt_dec (Zdigits2 (Zpos p)) (Zdigits2 (Zpos q))) as [Hle|Hgt].
  - pose proof (Zdigits2_nonneg _ Hquot). lia.
  - set (j := Zdigits2 (Zpos p) - 1 - Zdigits2 (Zpos q)).
    assert (Hj : 0 <= j) by (subst j; lia).
    assert (Hlow : 2 ^ j <= Zpos p / Zpos q).
    { apply Z.div_le_lower_bound; [lia|].
      assert (Hsplit : 2 ^ (Zdigits2 (Zpos p) - 1) = 2 ^ j * 2 ^ Zdigits2 (Zpos q)).
      { rewrite <- Z.pow_add_r by lia. f_equal. subst j. lia. }
      assert (0 < 2 ^ j) by (apply Z.pow_pos_nonneg; lia).
      nia. }
    assert (H2 : 0 <= 2 ^ j) by (apply Z.pow_nonneg; lia).
    pose proof (Zdigits2_le (2 ^ j) (Zpos p / Zpos q) (conj H2 Hlow)) as Hd.
    rewrite Zdigits2_pow2 in Hd by assumption. subst j. lia.
Qed.

(** The quotient of two floats is well-formed data. *)
Lemma div_valid x y : F64.valid (F64.div x y) = true.
Proof.
  destruct x as [sx|sx| |sx mx ex], y as [sy|sy| |sy my ey]; try reflexivity.
  unfold F64.div, SFdiv, SFdiv_core_binary.
  change (fexp F64.prec F64.emax) with fexp64.
  set (D := Zdigits2 (Z.pos mx) + ex - (Zdigits2 (Z.pos my) + ey)).
  set (e' := Z.min (fexp64 D) (ex - ey)).
  set (m' := match ex - ey - e' with Z0 => _ | Zpos _ => _ | Zneg _ => _ end).
  rewrite div_eucl_div_mod.
  assert (Hs : 0 <= ex - ey - e') by (subst e'; lia).
  assert (Hm' : m' = Zpos mx * 2 ^ (ex - ey - e')).
  { subst m'. destruct (ex - ey - e') as [|q|q] eqn:E; try lia.
    rewrite Z.shiftl_mul_pow2 by lia. reflexivity. }
  assert (Hpos : 0 < m').
  { rewrite Hm'. apply Z.mul_pos_pos; [lia | apply Z.pow_pos_nonneg; lia]. }
  apply binary_round_aux_valid.
  - apply Z.div_pos; lia.
  - pose proof (Zdigits2_div m' (Zpos my) Hpos ltac:(lia)) as Hd.
    rewrite Hm' in Hd at 1. rewrite Zdigits2_mul_pow2 in Hd by assumption.
    transitivity (fexp64 D); [subst e'; lia|].
    apply fexp_mono. subst D. lia.
Qed.

Lemma div_not_nan x y :
  F64.is_finite x = true -> F64.is_finite y = true -> F64.is_zero y = false ->
  F64.is_nan (F64.div x y) = false.
Proof.
  destruct x as [sx|sx| |sx mx ex], y as [sy|sy| |sy my ey]; try discriminate; try reflexivity.
  intros _ _ _. unfold F64.div, SFdiv, SFdiv_core_binary.
  rewrite div_eucl_div_mod.
  apply (signed_as_not_nan (xorb sx sy)).
  apply binary_round_aux_signed. apply Z.div_pos; [|lia].
  destruct (_ - _ - _); try lia. apply Z.shiftl_nonneg. lia.
Qed.

Lemma pos_iter_xO p d : Zpos (Pos.iter xO p d) = Zpos p * 2 ^ Zpos d.
Proof.
  induction d as [|d IH] using Pos.peano_ind.
  - simpl. lia.
  - rewrite Pos.iter_succ, Pos2Z.inj_xO, IH, Pos2Z.inj_succ, Z.pow_succ_r by lia. ring.
Qed.

Lemma shl_align_spec p e e0 :
  let '(m, e1) := shl_align p e e0 in
  e1 = Z.min e e0 /\ Zpos m = Zpos p * 2 ^ (e - e1).
Proof.
  unfold shl_align. destruct (e0 - e) as [|d|d] eqn:E.
  - split; [lia|]. replace (e - e) with 0 by lia. lia.
  - split; [lia|]. replace (e - e) with 0 by lia. lia.
  - split; [lia|]. rewrite pos_iter_xO. f_equal. f_equal. lia.
Qed.

Lemma binary_round_signed s p e :
  signed_as s (binary_round F64.prec F64.emax s p e).
Proof.
  unfold binary_round. destruct (shl_align _ _ _) as [m e1].
  apply binary_round_aux_signed. lia.
Qed.

Lemma binary_round_nonzero s p e :
  -1074 <= e -> F64.is_zero (binary_round F64.prec F64.emax s p e) = false.
Proof.
  intros He. unfold binary_round.
  pose proof (shl_align_spec p e (fexp F64.prec F64.emax (Z.pos (digits2_pos p) + e))) as H.
  destruct (shl_align _ _ _) as [m e1]. destruct H as [H1 _].
  apply binary_round_aux_nonzero; [lia|].
  pose proof (fexp_ge_emin (Z.pos (digits2_pos p) + e)). unfold fexp64 in *. lia.
Qed.

(** Integers below 2^53 are floats. *)
Lemma of_Z_exact p :
  Zpos p < 2 ^ 53 ->
  let d := Zdigits2 (Zpos p) in
  exists m, Zpos m = Zpos p * 2 ^ (53 - d) /\
            F64.of_Z (Zpos p) = S754_finite false m (d - 53) /\
            F64.valid (S754_finite false m (d - 53)) = true.
Proof.
  intros Hp d.
  assert (Hd : 0 < d <= 53).
  { subst d. split; [apply Zdigits2_pos_gt|].
    rewrite Zdigits2_log2. apply Z.log2_lt_pow2 in Hp; lia. }
  unfold F64.of_Z, binary_normalize, binary_round.
  pose proof (shl_align_spec p 0 (fexp F64.prec F64.emax (Z.pos (digits2_pos p) + 0))) as H.
  destruct (shl_align _ _ _) as [m e1]. destruct H as [H1 H2].
  change (Z.pos (digits2_pos p)) with d in H1.
  change (fexp F64.prec F64.emax) with fexp64 in H1.
  rewrite fexp_unfold in H1.
  assert (He1 : e1 = d - 53) by lia. clear H1.
  rewrite He1 in *. clear He1.
  replace (0 - (d - 53)) with (53 - d) in H2 by lia.
  assert (Hv : F64.valid (S754_finite false m (d - 53)) = true).
  { apply valid_finite_iff. rewrite H2, Zdigits2_mul_pow2 by lia.
    fold d. rewrite fexp_unfold. lia. }
  exists m. split; [assumption|]. split; [|assumption].
  pose proof (binary_round_aux_exact false m (d - 53) 0 Hv ltac:(lia)) as Hex.
  rewrite Z.mul_1_r, Z.sub_0_r in Hex. exact Hex.
Qed.

Lemma add_pos x y : pos_rounded x -> pos_rounded y -> pos_rounded (F64.add x y).
Proof.
  intros [Hx Zx] [Hy Zy].
  destruct Hx as [|px ex Hex|]; try discriminate;
  destruct Hy as [|py ey Hey|]; try discriminate;
    try (split; [constructor | reflexivity]).
  unfold F64.add, SFadd, cond_Zopp.
  match goal with |- context [binary_normalize _ _ (Z.add (Zpos ?a) (Zpos ?b)) _ _] =>
    change (Z.add (Zpos a) (Zpos b)) with (Zpos (a + b)) end.
  unfold binary_normalize. split.
  - apply binary_round_signed.
  - apply binary_round_nonzero. lia.
Qed.

Lemma add_zero_pos x : pos_rounded x -> F64.add F64.zero x = x.
Proof.
  intros [Hx Zx]. destruct Hx; try discriminate; reflexivity.
Qed.

Lemma py_sum_pos_from acc ws :
  pos_rounded acc -> Forall pos_rounded ws -> pos_rounded (fold_left F64.add ws acc).
Proof.
  intros Hacc Hws. revert acc Hacc.
  induction Hws as [|w ws Hw _ IH]; intros acc Hacc; cbn [fold_left].
  - assumption.
  - apply IH. apply add_pos; assumption.
Qed.

Lemma py_sum_pos w ws :
  Forall pos_rounded (w :: ws) -> pos_rounded (py_sum (w :: ws)).
Proof.
  intros H. inversion H as [|? ? Hw Hws]; subst.
  unfold py_sum. cbn [fold_left]. rewrite add_zero_pos by assumption.
  apply py_sum_pos_from; assumption.
Qed.

(** The equal weight [1 / n]. *)
Lemma one_div_of_Z_pos n :
  0 < n < 2 ^ 53 -> pos_rounded (F64.div F64.one (F64.of_Z n)).
Proof.
  intros Hn. destruct n as [|p|p]; try lia.
  destruct (of_Z_exact p) as (m & Hm & -> & Hv); [lia|].
  set (d := Zdigits2 (Zpos p)) in *.
  assert (Hd : 0 < d <= 53).
  { subst d. split; [apply Zdigits2_pos_gt|].
    rewrite Zdigits2_log2. destruct Hn as [_ Hn]. apply Z.log2_lt_pow2 in Hn; lia. }
  assert (Hdm : Zdigits2 (Zpos m) = 53).
  { rewrite Hm, Zdigits2_mul_pow2 by lia. fold d. lia. }
  rewrite one_unfold. unfold F64.div, SFdiv, SFdiv_core_binary.
  rewrite Hdm. change (Zdigits2 (Z.pos 4503599627370496)) with 53.
  change (fexp F64.prec F64.emax) with fexp64. rewrite fexp_unfold.
  set (e' := Z.min _ _).
  assert (He' : e' = -d - 52) by (subst e'; lia).
  assert (Hs : -52 - (d - 53) - e' = 53) by lia.
  rewrite Hs. cbv iota beta. rewrite div_eucl_div_mod.
  assert (Hmlt : Zpos m < 2 ^ 53).
  { pose proof (Zdigits2_bounds m) as [_ H]. rewrite Hdm in H. exact H. }
  assert (Hq : 0 < Z.shiftl (Z.pos 4503599627370496) 53 / Zpos m).
  { apply Z.div_str_pos. change (Z.shiftl (Z.pos 4503599627370496) 53) with (2 ^ 105). lia. }
  split.
  - apply binary_round_aux_signed. lia.
  - apply binary_round_aux_nonzero; lia.
Qed.

(** ** The order of floats *)

Lemma lex_lt_trans a b c : lex_lt a b -> lex_lt b c -> lex_lt a c.
Proof. destruct a as [[? ?] ?], b as [[? ?] ?], c as [[? ?] ?]. simpl. lia. Qed.

Lemma lex_le_trans a b c : lex_le a b -> lex_le b c -> lex_le a c.
Proof.
  intros [H1| ->] [H2| ->]; [left; eapply lex_lt_trans; eassumption | left | left | right];
    auto.
Qed.

Lemma lex_total a b : lex_lt a b \/ lex_le b a.
Proof.
  destruct a as [[a1 a2] a3], b as [[b1 b2] b3]. unfold lex_le. simpl.
  destruct (Z.lt_total a1 b1) as [?|[?|?]];
  destruct (Z.lt_total a2 b2) as [?|[?|?]];
  destruct (Z.lt_total a3 b3) as [?|[?|?]]; subst; auto 10; try (left; lia); right; left; lia.
Qed.

Lemma lex_lt_irrefl a b : lex_lt a b -> lex_le b a -> False.
Proof.
  destruct a as [[a1 a2] a3], b as [[b1 b2] b3]. unfold lex_le. simpl.
  intros H [H'|H']; [lia | inversion H'; subst; lia].
Qed.

Lemma SFcompare_rank x y :
  F64.is_nan x = false -> F64.is_nan y = false ->
  match SFcompare x y with
  | Some Lt => lex_lt (rank x) (rank y)
  | Some Eq => rank x = rank y
  | Some Gt => lex_lt (rank y) (rank x)
  | None => False
  end.
Proof.
  destruct x as [sx|sx| |sx mx ex], y as [sy|sy| |sy my ey]; try discriminate; intros _ _;
    try (destruct sx); try (destruct sy); simpl; try reflexivity; try lia.
  - change (PosDef.Pos.compare_cont Eq mx my) with (Pos.compare mx my).
    destruct (Z.compare_spec ex ey); try lia.
    subst. destruct (Pos.compare_spec mx my); simpl; try lia. subst. reflexivity.
  - change (PosDef.Pos.compare_cont Eq mx my) with (Pos.compare mx my).
    destruct (Z.compare_spec ex ey); try lia.
    subst. destruct (Pos.compare_spec mx my); simpl; try lia. subst. reflexivity.
Qed.

Lemma ltb_rank x y : F64.ltb x y = true -> lex_lt (rank x) (rank y).
Proof.
  unfold F64.ltb, SFltb. intros H.
  assert (Hx : F64.is_nan x = false) by (destruct x; try reflexivity; discriminate).
  assert (Hy : F64.is_nan y = false) by (destruct x, y; try reflexivity; discriminate).
  pose proof (SFcompare_rank x y Hx Hy) as R.
  destruct (SFcompare x y) as [[]|]; try discriminate. exact R.
Qed.

Lemma leb_rank x y : F64.leb x y = true -> lex_le (rank x) (rank y).
Proof.
  unfold F64.leb, SFleb. intros H.
  assert (Hx : F64.is_nan x = false) by (destruct x; try reflexivity; discriminate).
  assert (Hy : F64.is_nan y = false) by (destruct x, y; try reflexivity; discriminate).
  pose proof (SFcompare_rank x y Hx Hy) as R.
  destruct (SFcompare x y) as [[]|]; try discriminate; [right | left]; exact R.
Qed.

Lemma rank_leb x y :
  F64.is_nan x = false -> F64.is_nan y = false ->
  lex_le (rank x) (rank y) -> F64.leb x y = true.
Proof.
  intros Hx Hy H. unfold F64.leb, SFleb.
  pose proof (SFcompare_rank x y Hx Hy) as R.
  destruct (SFcompare x y) as [[]|]; try reflexivity; try contradiction.
  exfalso. eapply lex_lt_irrefl; eassumption.
Qed.

Lemma not_ltb_leb x y :
  F64.is_nan x = false -> F64.is_nan y = false ->
  F64.ltb x y = false -> F64.leb y x = true.
Proof.
  intros Hx Hy H. apply rank_leb; try assumption.
  unfold F64.ltb, SFltb in H.
  pose proof (SFcompare_rank x y Hx Hy) as R.
  destruct (SFcompare x y) as [[]|]; try discriminate; try contradiction.
  - right. symmetry. exact R.
  - left. exact R.
Qed.

Lemma leb_not_nan x y :
  F64.leb x y = true -> F64.is_nan x = false /\ F64.is_nan y = false.
Proof.
  unfold F64.leb, SFleb. destruct x, y; simpl; try discriminate; auto.
Qed.

Lemma leb_trans x y z : F64.leb x y = true -> F64.leb y z = true -> F64.leb x z = true.
Proof.
  intros H1 H2.
  destruct (leb_not_nan _ _ H1) as [Hx _]. destruct (leb_not_nan _ _ H2) as [_ Hz].
  apply rank_leb; try assumption.
  eapply lex_le_trans; apply leb_rank; eassumption.
Qed.

Lemma leb_refl x : F64.is_nan x = false -> F64.leb x x = true.
Proof. intros H. apply rank_leb; try assumption. right. reflexivity. Qed.

Lemma ltb_leb x y : F64.ltb x y = true -> F64.leb x y = true.
Proof.
  unfold F64.ltb, F64.leb, SFltb, SFleb. destruct (SFcompare x y) as [[]|]; auto.
Qed.

Lemma sub_diag x : F64.is_finite x = true -> F64.sub x x = F64.zero.
Proof.
  destruct x as [[]|s| |s m e]; try discriminate; intros _; try reflexivity.
  unfold F64.sub, SFsub. rewrite Z.sub_diag. reflexivity.
Qed.

Lemma signed_true_le_zero x : signed_as true x -> F64.leb x F64.zero = true.
Proof. destruct 1; reflexivity. Qed.

Lemma valid_digits_le s m e :
  F64.valid (S754_finite s m e) = true -> Zpos m < 2 ^ 53.
Proof.
  intros Hv. apply valid_finite_iff in Hv. destruct Hv as [Hcan _].
  rewrite fexp_unfold in Hcan.
  pose proof (Zdigits2_bounds m) as [_ Hlt].
  pose proof (Zdigits2_pos_gt m).
  eapply Z.lt_le_trans; [exact Hlt|]. apply Z.pow_le_mono_r; lia.
Qed.

Lemma valid_normal_ge s m e :
  F64.valid (S754_finite s m e) = true -> -1074 < e -> 2 ^ 52 <= Zpos m.
Proof.
  intros Hv He. apply valid_finite_iff in Hv. destruct Hv as [Hcan _].
  rewrite fexp_unfold in Hcan.
  pose proof (Zdigits2_bounds m) as [Hge _].
  replace (Zdigits2 (Zpos m)) with 53 in Hge by lia. exact Hge.
Qed.

(** Below the running maximum: the difference of two positive floats is
    not positive when the first is not the larger one. *)
Lemma sub_le_zero mx ex my ey :
  F64.valid (S754_finite false mx ex) = true ->
  F64.valid (S754_finite false my ey) = true ->
  F64.ltb (S754_finite false my ey) (S754_finite false mx ex) = false ->
  F64.leb (F64.sub (S754_finite false mx ex) (S754_finite false my ey)) F64.zero = true.
Proof.
  intros Hvx Hvy Hlt.
  apply not_ltb_leb in Hlt; try reflexivity.
  apply leb_rank in Hlt. unfold lex_le, lex_lt, rank in Hlt.
  unfold F64.sub, SFsub, cond_Zopp.
  pose proof (shl_align_spec mx ex (Z.min ex ey)) as Ha.
  pose proof (shl_align_spec my ey (Z.min ex ey)) as Hb.
  destruct (shl_align mx ex (Z.min ex ey)) as [a ea].
  destruct (shl_align my ey (Z.min ex ey)) as [b eb].
  destruct Ha as [-> Ha]. destruct Hb as [-> Hb]. cbn [fst].
  assert (Hab : Zpos a <= Zpos b).
  { rewrite Ha, Hb.
    destruct (Z.eq_dec ex ey) as [->|Hne].
    - replace (ey - Z.min ey (Z.min ey ey)) with 0 by lia.
      destruct Hlt as [Hlt|Hlt]; [lia | inversion Hlt; lia].
    - assert (Hex : ex < ey).
      { destruct Hlt as [Hlt|Hlt]; [lia | inversion Hlt; lia]. }
      replace (ex - Z.min ex (Z.min ex ey)) with 0 by lia.
      replace (ey - Z.min ey (Z.min ex ey)) with (ey - ex) by lia.
      pose proof (valid_digits_le _ _ _ Hvx) as Hmx.
      assert (Hey : -1074 < ey).
      { apply valid_finite_iff in Hvx. destruct Hvx as [Hcan _].
        rewrite fexp_unfold in Hcan. lia. }
      pose proof (valid_normal_ge _ _ _ Hvy Hey) as Hmy.
      assert (H2 : 2 ^ 1 <= 2 ^ (ey - ex)) by (apply Z.pow_le_mono_r; lia).
      change (2 ^ 53) with (2 ^ 52 * 2 ^ 1) in Hmx. nia. }
  destruct (Zpos a - Zpos b) as [|q|q] eqn:E; try lia.
  - reflexivity.
  - apply signed_true_le_zero. apply binary_round_signed.
Qed.

(** A quotient of a non-positive by a positive float is not positive. *)
Lemma div_le_zero x m e :
  F64.leb x F64.zero = true ->
  F64.leb (F64.div x (S754_finite false m e)) F64.zero = true.
Proof.
  intros Hx. destruct x as [sx|sx| |sx mx ex]; try discriminate.
  - reflexivity.
  - destruct sx; [reflexivity | discriminate].
  - destruct sx; [|discriminate].
    apply signed_true_le_zero.
    unfold F64.div, SFdiv, SFdiv_core_binary. rewrite div_eucl_div_mod.
    apply (binary_round_aux_signed (xorb true false)).
    apply Z.div_pos; [|lia].
    destruct (_ - _ - _); try lia. apply Z.shiftl_nonneg. lia.
Qed.

(** ** Empty input *)

(** C7. On the empty price table (no date or no symbol) the valuation
    returns the empty value series, whatever the weights and the initial
    value are, and raises nothing. *)
Theorem compute_portfolio_value_empty data weights initial_value :
  df_empty data = true ->
  compute_portfolio_value data weights initial_value = Ok [].
Proof.
  intros H. unfold compute_portfolio_value. rewrite H. reflexivity.
Qed.

Lemma compute_portfolio_value_empty_witness :
  df_empty empty_frame = true /\
  forall weights initial_value,
    compute_portfolio_value empty_frame weights initial_value = Ok [].
Proof.
  split; [reflexivity|].
  intros weights initial_value.
  apply (compute_portfolio_value_empty empty_frame weights initial_value).
  reflexivity.
Defined.

(** ** Sortino ratio *)

Lemma filter_nil {A : Type} (f : A -> bool) l :
  (forall x, In x l -> f x = false) -> filter f l = [].
Proof.
  induction l as [|a l IH]; intros H; simpl; [reflexivity|].
  rewrite (H a) by (left; reflexivity). apply IH. intros x Hx. apply H. right. exact Hx.
Qed.

Lemma div_nan_r x : F64.div x F64.nan = F64.nan.
Proof. destruct x; reflexivity. Qed.

Lemma mul_nan_l y : F64.mul F64.nan y = F64.nan.
Proof. reflexivity. Qed.

Lemma series_std_nil : series_std [] = F64.nan.
Proof. reflexivity. Qed.

(** C2. A value series without a negative daily return has no Sortino
    ratio: the result is NaN, which is not equal to 0.  No exception is
    involved: the downside deviation of no return at all is NaN, and NaN
    passes the test against 0 and the division.  This holds for every
    series, those of two points or more included. *)
Theorem sortino_undefined_without_downside portfolio_values risk_free_rate :
  (forall r, In r (dropna (pct_change portfolio_values)) -> F64.ltb r F64.zero = false) ->
  compute_sortino_ratio portfolio_values risk_free_rate = F64.nan /\
  F64.eqb (compute_sortino_ratio portfolio_values risk_free_rate) F64.zero = false.
Proof.
  intros H.
  assert (E : compute_sortino_ratio portfolio_values risk_free_rate = F64.nan).
  { unfold compute_sortino_ratio.
    rewrite (filter_nil _ _ H), series_std_nil.
    change (F64.eqb F64.nan F64.zero) with false. cbv iota.
    rewrite div_nan_r. apply mul_nan_l. }
  rewrite E. split; reflexivity.
Qed.

Lemma sortino_undefined_without_downside_witness :
  compute_sortino_ratio rising_series default_risk_free_rate = F64.nan /\
  F64.eqb (compute_sortino_ratio rising_series default_risk_free_rate) F64.zero = false.
Proof.
  apply (sortino_undefined_without_downside rising_series default_risk_free_rate).
  intros r Hr. vm_compute in Hr.
  repeat (destruct Hr as [<-|Hr]; [reflexivity|]). destruct Hr.
Defined.

(** ** MACD *)

Lemma zip_with_length {A B C : Type} (f : A -> B -> C) l l' :
  List.length (zip_with f l l') = Nat.min (List.length l) (List.length l').
Proof.
  revert l'. induction l as [|a l IH]; intros [|b l']; simpl; auto.
Qed.

Lemma zip_with_nth {A B C : Type} (f : A -> B -> C) l l' i da db dc :
  (i < List.length l)%nat -> (i < List.length l')%nat ->
  nth i (zip_with f l l') dc = f (nth i l da) (nth i l' db).
Proof.
  revert l' i. induction l as [|a l IH]; intros [|b l'] [|i]; simpl; intros H1 H2;
    try lia; [reflexivity|]. apply IH; lia.
Qed.

Lemma ewm_from_length alpha st s : List.length (ewm_from alpha st s) = List.length s.
Proof. revert st. induction s as [|x s IH]; intros st; simpl; auto. Qed.

Lemma ewm_mean_length span s : List.length (ewm_mean span s) = List.length s.
Proof. destruct s; simpl; [reflexivity|]. rewrite ewm_from_length. reflexivity. Qed.

Lemma ewm_from_nth alpha st s i d :
  (i < List.length s)%nat ->
  nth i (ewm_from alpha st s) d = weighted (fold_left (ewm_step alpha) (firstn (S i) s) st).
Proof.
  revert st i. induction s as [|x s IH]; intros st i Hi; [simpl in Hi; lia|].
  destruct i as [|i]; [reflexivity|].
  cbn [ewm_from nth]. rewrite IH by (simpl in Hi; lia). reflexivity.
Qed.

Lemma ewm_mean_nth span s i d :
  (i < List.length s)%nat ->
  nth i (ewm_mean span s) d = weighted (ewm_state (ewm_alpha span) s i).
Proof.
  intros Hi. destruct s as [|x s]; [simpl in Hi; lia|].
  destruct i as [|i]; [reflexivity|].
  cbn [ewm_mean nth]. unfold ewm_state. cbn [tl hd].
  apply ewm_from_nth. simpl in Hi. lia.
Qed.

Lemma firstn_succ_nth {A : Type} (l : list A) i d :
  (i < List.length l)%nat -> firstn (S i) l = firstn i l ++ [nth i l d].
Proof.
  revert i. induction l as [|a l IH]; intros i Hi; [simpl in Hi; lia|].
  destruct i as [|i]; [reflexivity|].
  cbn [firstn nth app]. f_equal. apply IH. simpl in Hi. lia.
Qed.

Lemma ewm_state_succ alpha s i :
  (S i < List.length s)%nat ->
  ewm_state alpha s (S i) = ewm_step alpha (ewm_state alpha s i) (nth (S i) s F64.nan).
Proof.
  intros Hi. destruct s as [|x s]; [simpl in Hi; lia|].
  unfold ewm_state. cbn [tl hd nth].
  rewrite (firstn_succ_nth s i F64.nan) by (simpl in Hi; lia).
  rewrite fold_left_app. reflexivity.
Qed.

(** The weight of the average is 1 after an observation, and as long as
    there is no average. *)
Lemma ewm_state_old_wt alpha s i :
  (i < List.length s)%nat ->
  F64.is_nan (nth i s F64.nan) = false \/
  F64.is_nan (weighted (ewm_state alpha s i)) = true ->
  old_wt (ewm_state alpha s i) = F64.one.
Proof.
  induction i as [|i IH]; intros Hi H; [reflexivity|].
  rewrite ewm_state_succ in * by exact Hi.
  specialize (IH ltac:(lia)).
  unfold ewm_step in *.
  destruct (F64.is_nan (weighted (ewm_state alpha s i))) eqn:Hw.
  - destruct (F64.is_nan (nth (S i) s F64.nan)) eqn:Hc.
    + apply IH. right. reflexivity.
    + cbn [old_wt]. apply IH. right. reflexivity.
  - destruct (F64.is_nan (nth (S i) s F64.nan)) eqn:Hc; [|reflexivity].
    cbn [weighted] in H. destruct H as [H|H]; congruence.
Qed.

Lemma binary_round_valid s p e : F64.valid (binary_round F64.prec F64.emax s p e) = true.
Proof.
  unfold binary_round.
  pose proof (shl_align_spec p e (fexp F64.prec F64.emax (Z.pos (digits2_pos p) + e))) as H.
  destruct (shl_align _ _ _) as [m e1]. destruct H as [H1 H2].
  apply binary_round_aux_valid; [lia|].
  rewrite H2, Zdigits2_mul_pow2 by lia.
  change (Z.pos (digits2_pos p)) with (Zdigits2 (Zpos p)) in H1.
  change (fexp F64.prec F64.emax) with fexp64 in H1.
  replace (Zdigits2 (Z.pos p) + (e - e1) + e1) with (Zdigits2 (Z.pos p) + e) by lia.
  lia.
Qed.

Lemma sub_valid x y :
  F64.valid x = true -> F64.valid y = true -> F64.valid (F64.sub x y) = true.
Proof.
  intros Hx Hy.
  destruct x as [sx|sx| |sx mx ex], y as [sy|sy| |sy my ey];
    try reflexivity; try exact Hx; try exact Hy;
    try (destruct sx, sy; reflexivity).
  unfold F64.sub, SFsub, binary_normalize.
  destruct (_ - _) as [|q|q]; [reflexivity | apply binary_round_valid..].
Qed.

(** The weight of an average that [k] missing values separate from the
    next observation. *)
Lemma ewm_state_gap alpha s i k :
  (i + k < List.length s)%nat ->
  (forall j, (1 <= j <= k)%nat -> F64.is_nan (nth (i + j) s F64.nan) = true) ->
  F64.is_nan (weighted (ewm_state alpha s i)) = false ->
  weighted (ewm_state alpha s (i + k)) = weighted (ewm_state alpha s i) /\
  old_wt (ewm_state alpha s (i + k)) =
    Nat.iter k (fun w => F64.mul w (F64.sub F64.one alpha)) (old_wt (ewm_state alpha s i)).
Proof.
  intros Hlen Hgap Hw. induction k as [|k IH].
  - rewrite Nat.add_0_r. split; reflexivity.
  - destruct IH as [IHw IHo]; [lia | intros j Hj; apply Hgap; lia|].
    assert (Hn : F64.is_nan (nth (S (i + k)) s F64.nan) = true)
      by (replace (S (i + k)) with (i + S k)%nat by lia; apply Hgap; lia).
    replace (i + S k)%nat with (S (i + k)) in * by lia.
    rewrite ewm_state_succ by exact Hlen. unfold ewm_step.
    rewrite IHw, Hw, Hn. cbn [weighted old_wt].
    split; [reflexivity|]. rewrite IHo. reflexivity.
Qed.

Lemma ewm_state_nan_gap alpha s i k :
  (i + k < List.length s)%nat ->
  (forall j, (1 <= j <= k)%nat -> F64.is_nan (nth (i + j) s F64.nan) = true) ->
  F64.is_nan (weighted (ewm_state alpha s i)) = true ->
  ewm_state alpha s (i + k) = ewm_state alpha s i.
Proof.
  intros Hlen Hgap Hw. induction k as [|k IH].
  - rewrite Nat.add_0_r. reflexivity.
  - assert (Hn : F64.is_nan (nth (S (i + k)) s F64.nan) = true)
      by (replace (S (i + k)) with (i + S k)%nat by lia; apply Hgap; lia).
    replace (i + S k)%nat with (S (i + k)) in * by lia.
    rewrite ewm_state_succ by exact Hlen. unfold ewm_step.
    rewrite IH by (try lia; intros j Hj; apply Hgap; lia).
    rewrite Hw, Hn. reflexivity.
Qed.

(** The laws of the exponential average: the first value seeds it, a
    missing value leaves it as it is, and an observation updates it. *)
Lemma ewm_mean_laws span s :
  let alpha := ewm_alpha span in
  let beta := F64.sub F64.one alpha in
  let ema := ewm_mean span s in
  List.length ema = List.length s /\
  nth 0 ema F64.nan = nth 0 s F64.nan /\
  (forall i, (S i < List.length s)%nat ->
     F64.is_nan (nth (S i) s F64.nan) = true ->
     nth (S i) ema F64.nan = nth i ema F64.nan) /\
  (forall i k, (i + k + 1 < List.length s)%nat ->
     F64.is_nan (nth i s F64.nan) = false \/ F64.is_nan (nth i ema F64.nan) = true ->
     (forall j, (1 <= j <= k)%nat -> F64.is_nan (nth (i + j) s F64.nan) = true) ->
     F64.is_nan (nth (i + k + 1) s F64.nan) = false ->
     let y := nth i ema F64.nan in
     let x := nth (i + k + 1) s F64.nan in
     let w := Nat.iter k (fun w => F64.mul w beta) beta in
     nth (i + k + 1) ema F64.nan =
       if F64.is_nan y then x
       else if F64.eqb y x then y
       else F64.div (F64.add (F64.mul w y) (F64.mul alpha x)) (F64.add w alpha)).
Proof.
  intros alpha beta ema.
  split; [apply ewm_mean_length|].
  split; [destruct s; reflexivity|].
  split.
  - intros i Hi Hnan. subst ema.
    rewrite !ewm_mean_nth by lia. fold alpha.
    rewrite ewm_state_succ by exact Hi. unfold ewm_step. rewrite Hnan.
    destruct (F64.is_nan (weighted (ewm_state alpha s i))); reflexivity.
  - intros i k Hlen Hone Hgap Hobs y x w. subst y ema.
    assert (Ey : nth i (ewm_mean span s) F64.nan = weighted (ewm_state alpha s i))
      by (apply ewm_mean_nth; lia).
    rewrite Ey in Hone |- *.
    pose proof (ewm_state_old_wt alpha s i ltac:(lia) Hone) as Hwt.
    rewrite ewm_mean_nth by exact Hlen. fold alpha.
    subst x. replace (i + k + 1)%nat with (S (i + k)) in * by lia.
    set (x := nth (S (i + k)) s F64.nan) in *.
    rewrite ewm_state_succ by exact Hlen. unfold ewm_step. fold x. rewrite Hobs.
    destruct (F64.is_nan (weighted (ewm_state alpha s i))) eqn:Hw.
    + rewrite (ewm_state_nan_gap alpha s i k) by (try lia; assumption).
      rewrite Hw. reflexivity.
    + destruct (ewm_state_gap alpha s i k ltac:(lia) Hgap Hw) as [Ew Eo].
      rewrite Ew, Hw, Eo, Hwt. cbn [weighted]. fold beta.
      assert (Hiter : F64.mul (Nat.iter k (fun w0 => F64.mul w0 beta) F64.one) beta = w).
      { subst w.
        change (Nat.iter (S k) (fun w0 => F64.mul w0 beta) F64.one =
                Nat.iter k (fun w0 => F64.mul w0 beta) beta).
        rewrite Nat.iter_succ_r. cbv beta.
        rewrite mul_one_l; [reflexivity|].
        apply sub_valid; [reflexivity | apply div_valid]. }
      rewrite Hiter. reflexivity.
Qed.

(** C9. The MACD lines.  The smoothing factors of the spans 12, 26 and 9
    are 2/(span+1).  An exponential average has one entry per date, starts
    at the first value, stays as it is at a missing value, and is updated by
    an observation x to ((1 - alpha) y + alpha x) / ((1 - alpha) + alpha),
    where y is the average so far; it takes x when there is no average yet,
    keeps y when x equals y, and (1 - alpha) is taken once more for every
    missing value since the last observation.  When [plot_macd] draws, the
    symbol is a column that has data, the three lines have one entry per
    date, the MACD line is EMA12 - EMA26 date by date, the signal line is
    the average of span 9 of the MACD line, and the histogram is the MACD
    line minus the signal line at every date; it draws nothing exactly when
    the symbol is no column or the column is all missing. *)
Theorem macd_histogram_identity data ticker :
  (ewm_alpha 12 = F64.div (F64.of_Z 2) (F64.of_Z (12 + 1)) /\
   ewm_alpha 26 = F64.div (F64.of_Z 2) (F64.of_Z (26 + 1)) /\
   ewm_alpha 9 = F64.div (F64.of_Z 2) (F64.of_Z (9 + 1))) /\
  (forall span s,
     let alpha := ewm_alpha span in
     let beta := F64.sub F64.one alpha in
     let ema := ewm_mean span s in
     List.length ema = List.length s /\
     nth 0 ema F64.nan = nth 0 s F64.nan /\
     (forall i, (S i < List.length s)%nat ->
        F64.is_nan (nth (S i) s F64.nan) = true ->
        nth (S i) ema F64.nan = nth i ema F64.nan) /\
     (forall i k, (i + k + 1 < List.length s)%nat ->
        F64.is_nan (nth i s F64.nan) = false \/ F64.is_nan (nth i ema F64.nan) = true ->
        (forall j, (1 <= j <= k)%nat -> F64.is_nan (nth (i + j) s F64.nan) = true) ->
        F64.is_nan (nth (i + k + 1) s F64.nan) = false ->
        let y := nth i ema F64.nan in
        let x := nth (i + k + 1) s F64.nan in
        let w := Nat.iter k (fun w => F64.mul w beta) beta in
        nth (i + k + 1) ema F64.nan =
          if F64.is_nan y then x
          else if F64.eqb y x then y
          else F64.div (F64.add (F64.mul w y) (F64.mul alpha x)) (F64.add w alpha))) /\
  match plot_macd data ticker with
  | None =>
      dict_find (columns data) ticker = None \/
      exists prices, dict_find (columns data) ticker = Some prices /\ all_nan prices = true
  | Some m =>
      exists prices,
        dict_find (columns data) ticker = Some prices /\ all_nan prices = false /\
        let n := List.length prices in
        (List.length (macd_line m) = n /\ List.length (signal_line m) = n /\
         List.length (histogram m) = n) /\
        (forall i, (i < n)%nat ->
           nth i (macd_line m) F64.nan =
             F64.sub (nth i (ewm_mean 12 prices) F64.nan)
                     (nth i (ewm_mean 26 prices) F64.nan)) /\
        signal_line m = ewm_mean 9 (macd_line m) /\
        (forall i, (i < n)%nat ->
           nth i (histogram m) F64.nan =
             F64.sub (nth i (macd_line m) F64.nan) (nth i (signal_line m) F64.nan))
  end.
Proof.
  split; [repeat split; vm_compute; reflexivity|].
  split; [intros span s; apply ewm_mean_laws|].
  unfold plot_macd.
  destruct (dict_find (columns data) ticker) as [prices|]; [|left; reflexivity].
  destruct (all_nan prices) eqn:Hall; [right; exists prices; split; [reflexivity | exact Hall]|].
  exists prices. split; [reflexivity|]. split; [exact Hall|].
  cbv zeta. set (m := macd_of prices). set (n := List.length prices).
  assert (Lm : List.length (macd_line m) = n).
  { subst m n. unfold macd_of. cbn [macd_line].
    rewrite zip_with_length, !ewm_mean_length. lia. }
  assert (Ls : List.length (signal_line m) = n).
  { rewrite <- Lm. subst m. unfold macd_of. cbn [macd_line signal_line].
    apply ewm_mean_length. }
  split.
  { split; [exact Lm|]. split; [exact Ls|].
    subst m. unfold macd_of in *. cbn [macd_line signal_line histogram] in *.
    rewrite zip_with_length, Lm, Ls. lia. }
  split.
  { intros i Hi. subst m n. unfold macd_of. cbn [macd_line].
    apply zip_with_nth; rewrite ewm_mean_length; exact Hi. }
  split; [reflexivity|].
  intros i Hi. subst m. unfold macd_of in *. cbn [macd_line signal_line histogram] in *.
  apply zip_with_nth; [rewrite Lm | rewrite Ls]; exact Hi.
Qed.

(** ** Filling missing prices *)

Lemma is_nan_eq x : F64.is_nan x = true -> x = F64.nan.
Proof. destruct x; try discriminate. reflexivity. Qed.

Lemma ffill_from_known x s :
  F64.is_nan x = false -> no_nan (ffill_from x s) = true.
Proof.
  revert x. induction s as [|y s IH]; intros x Hx; simpl; [reflexivity|].
  destruct (F64.is_nan y) eqn:Hy; simpl.
  - rewrite Hx. simpl. apply IH. exact Hx.
  - rewrite Hy. simpl. apply IH. exact Hy.
Qed.

Lemma ffill_shape s :
  exists k t, ffill s = repeat F64.nan k ++ t /\ no_nan t = true.
Proof.
  unfold ffill. induction s as [|x s (k & t & E & Ht)]; simpl.
  - exists 0%nat, []. split; reflexivity.
  - destruct (F64.is_nan x) eqn:Hx.
    + exists (S k), t. rewrite E. split; [reflexivity | exact Ht].
    + exists 0%nat, (x :: ffill_from x s). split; [reflexivity|].
      simpl. rewrite Hx. simpl. apply ffill_from_known. exact Hx.
Qed.

Lemma bfill_no_nan t : no_nan t = true -> bfill t = t.
Proof.
  induction t as [|x t IH]; simpl; [reflexivity|].
  rewrite andb_true_iff, negb_true_iff. intros [Hx Ht].
  rewrite Hx, IH by exact Ht. reflexivity.
Qed.

Lemma bfill_leading k t :
  no_nan t = true -> bfill (repeat F64.nan k ++ t) = repeat (hd F64.nan t) k ++ t.
Proof.
  intros Ht. induction k as [|k IH]; simpl.
  - apply bfill_no_nan. exact Ht.
  - rewrite IH. f_equal. destruct k; reflexivity.
Qed.

Lemma no_nan_app s t : no_nan (s ++ t) = no_nan s && no_nan t.
Proof. apply forallb_app. Qed.

Lemma no_nan_repeat x k : F64.is_nan x = false -> no_nan (repeat x k) = true.
Proof. intros Hx. induction k; simpl; [reflexivity|]. rewrite Hx. exact IHk. Qed.

Lemma all_nan_repeat k : all_nan (repeat F64.nan k) = true.
Proof. induction k; simpl; auto. Qed.

(** After both fills a column is complete, or it never had a value. *)
Lemma fill_dichotomy s :
  all_nan (bfill (ffill s)) = true \/ no_nan (bfill (ffill s)) = true.
Proof.
  destruct (ffill_shape s) as (k & t & -> & Ht).
  rewrite bfill_leading by exact Ht.
  destruct t as [|x t].
  - left. rewrite app_nil_r. apply all_nan_repeat.
  - right. simpl in Ht. split_andb Ht Hx Ht.
    rewrite no_nan_app. simpl. rewrite Hx, Ht.
    rewrite no_nan_repeat by (apply negb_true_iff; exact Hx). reflexivity.
Qed.

(** Forward fill: a gap after a known price repeats that price. *)
Lemma ffill_gap last x k rest :
  F64.is_nan x = false ->
  ffill_from last (x :: repeat F64.nan k ++ rest) = x :: repeat x k ++ ffill_from x rest.
Proof.
  intros Hx. simpl. rewrite Hx. f_equal.
  induction k as [|k IH]; simpl; [reflexivity|]. rewrite IH. reflexivity.
Qed.

(** Backward fill: a leading gap repeats the first known price. *)
Lemma bfill_gap x k rest :
  F64.is_nan x = false ->
  bfill (repeat F64.nan k ++ x :: rest) = repeat x k ++ x :: bfill rest.
Proof.
  intros Hx. induction k as [|k IH]; simpl.
  - rewrite Hx. reflexivity.
  - rewrite IH. f_equal. destruct k; reflexivity.
Qed.

Lemma select_rows_filter {A : Type} (f : A -> bool) l :
  select_rows (map f l) l = filter f l.
Proof.
  induction l as [|a l IH]; simpl; [reflexivity|].
  destruct (f a); rewrite IH; reflexivity.
Qed.

Lemma select_rows_no_nan keep s : no_nan s = true -> no_nan (select_rows keep s) = true.
Proof.
  revert keep. induction s as [|x s IH]; intros [|k keep]; simpl; try reflexivity.
  rewrite andb_true_iff. intros [Hx Hs].
  destruct k; simpl; [rewrite Hx|]; apply IH; exact Hs.
Qed.

Lemma dropna_columns_filled_no_nan (prices : dict Series) c :
  In c (dropna_columns (fill_missing prices)) -> no_nan (snd c) = true.
Proof.
  unfold dropna_columns, fill_missing. rewrite filter_In, in_map_iff.
  intros [(c0 & <- & _) Hc]. cbn [snd] in *.
  destruct (fill_dichotomy (snd c0)) as [H|H]; [|exact H].
  rewrite H in Hc. discriminate.
Qed.

(** C8. The normalizer.  A forward fill repeats the last known price over
    a gap and a backward fill repeats the first known price over a leading
    gap; a date is in the range when it lies between the two bounds, both
    included.  [fetch_stock_data] returns the empty table when nothing was
    fetched; it raises exactly when no price field can be selected;
    otherwise it fills every selected column forward, then backward, drops
    the columns that are still all missing, returns the empty table when
    none is left, and else returns the dates of the range with, for every
    remaining column in order, the filled values at those dates.  So every
    column of a returned table is free of missing values, and a gap inside
    the range is filled from a price before the range. *)
Theorem fetch_stock_data_fills_then_filters raw tickers start_date end_date :
  (forall last x k rest, F64.is_nan x = false ->
     ffill_from last (x :: repeat F64.nan k ++ rest) =
     x :: repeat x k ++ ffill_from x rest) /\
  (forall x k rest, F64.is_nan x = false ->
     bfill (repeat F64.nan k ++ x :: rest) = repeat x k ++ x :: bfill rest) /\
  (forall d, in_range start_date end_date d = true <-> start_date <= d <= end_date) /\
  (let data := dropna_columns (raw_columns raw) in
   match fetch_stock_data raw tickers start_date end_date with
   | Raise err =>
       raw_index raw <> [] /\ data <> [] /\
       select_prices (raw_multi raw) data tickers = Raise err
   | Ok df =>
       (forall c, In c (columns df) -> no_nan (snd c) = true) /\
       ((raw_index raw = [] \/ data = []) /\ df = empty_frame \/
        raw_index raw <> [] /\ data <> [] /\
        exists prices,
          select_prices (raw_multi raw) data tickers = Ok prices /\
          let kept := filter (fun c => negb (all_nan (bfill (ffill (snd c))))) prices in
          (kept = [] /\ df = empty_frame \/
           kept <> [] /\
           index df = filter (in_range start_date end_date) (raw_index raw) /\
           columns df =
             map (fun c => (fst c,
                            select_rows (map (in_range start_date end_date) (raw_index raw))
                                        (bfill (ffill (snd c)))))
                 kept))
   end) /\
  fetch_stock_data
    {| raw_index := [1; 2; 3; 4]; raw_multi := true;
       raw_columns := [(("Close", "A"), [F64.of_Z 100; F64.nan; F64.nan; F64.of_Z 103]);
                       (("Close", "B"), [F64.nan; F64.nan; F64.of_Z 50; F64.nan]);
                       (("Close", "C"), [F64.nan; F64.nan; F64.nan; F64.nan])] |}
    ["A"; "B"; "C"] 2 3
  = Ok {| index := [2; 3];
          columns := [("A", [F64.of_Z 100; F64.of_Z 100]);
                      ("B", [F64.of_Z 50; F64.of_Z 50])] |}.
Proof.
  split; [exact ffill_gap|]. split; [exact bfill_gap|].
  split.
  { intros d. unfold in_range. rewrite andb_true_iff, !Z.leb_le. reflexivity. }
  split; [|reflexivity].
  cbv zeta. unfold fetch_stock_data.
  destruct (raw_index raw) as [|d0 idx] eqn:Eidx.
  { split; [intros c []| left; split; [left|]; reflexivity]. }
  destruct (dropna_columns (raw_columns raw)) as [|c0 cols] eqn:Ecols.
  { split; [intros c []| left; split; [right|]; reflexivity]. }
  destruct (select_prices (raw_multi raw) (c0 :: cols) tickers) as [prices|err] eqn:Esel;
    cbn [bind]; [|repeat split; discriminate].
  assert (Ekept : dropna_columns (fill_missing prices) =
                  map (fun c => (fst c, bfill (ffill (snd c))))
                      (filter (fun c => negb (all_nan (bfill (ffill (snd c))))) prices)).
  { unfold dropna_columns, fill_missing.
    clear. induction prices as [|p prices IH]; [reflexivity|].
    cbn [map filter snd fst]. destruct (all_nan (bfill (ffill (snd p)))); cbn [negb map fst snd].
    - exact IH.
    - f_equal. exact IH. }
  destruct (dropna_columns (fill_missing prices)) as [|f0 filled] eqn:Efill.
  { split; [intros c []|]. right. split; [discriminate|]. split; [discriminate|].
    exists prices. split; [reflexivity|]. left. split; [|reflexivity].
    destruct (filter _ prices); [reflexivity | discriminate Ekept]. }
  split.
  - intros c Hc. unfold loc_range in Hc. cbn [columns index] in Hc.
    apply in_map_iff in Hc. destruct Hc as (c1 & <- & Hc1). cbn [snd].
    apply select_rows_no_nan.
    apply (dropna_columns_filled_no_nan prices). rewrite Efill. exact Hc1.
  - right. split; [discriminate|]. split; [discriminate|].
    exists prices. split; [reflexivity|]. right.
    split; [intros E; rewrite E in Ekept; discriminate Ekept|].
    unfold loc_range. cbn [columns index]. split.
    + apply (select_rows_filter (in_range start_date end_date)).
    + rewrite Ekept, map_map. reflexivity.
Qed.

(** ** Minimum of a series *)

Lemma dropna_In x s : In x (dropna s) <-> In x s /\ F64.is_nan x = false.
Proof. unfold dropna. rewrite filter_In, negb_true_iff. reflexivity. Qed.

Create HintDb f64 discriminated.

#[local] Hint Resolve leb_refl ltb_leb not_ltb_leb : f64.

Lemma fold_fmin_spec xs x :
  F64.is_nan x = false -> (forall y, In y xs -> F64.is_nan y = false) ->
  In (fold_left fmin xs x) (x :: xs) /\
  forall y, In y (x :: xs) -> F64.leb (fold_left fmin xs x) y = true.
Proof.
  revert x. induction xs as [|z xs IH]; intros x Hx Hxs.
  - simpl. split; [left; reflexivity|]. intros y [<-|[]]. auto with f64.
  - assert (Hz : F64.is_nan z = false) by (apply Hxs; left; reflexivity).
    assert (Hxs' : forall y, In y xs -> F64.is_nan y = false)
      by (intros y Hy; apply Hxs; right; exact Hy).
    cbn [fold_left]. unfold fmin at 2 4.
    destruct (F64.ltb z x) eqn:Hlt.
    + destruct (IH z Hz Hxs') as [Hin Hle]. split.
      * destruct Hin as [E|Hin]; [right; left; exact E | right; right; exact Hin].
      * intros y [<-|Hy]; [|apply Hle; exact Hy].
        eapply leb_trans; [apply Hle; left; reflexivity | auto with f64].
    + destruct (IH x Hx Hxs') as [Hin Hle]. split.
      * destruct Hin as [E|Hin]; [left; exact E | right; right; exact Hin].
      * intros y [<-|[<-|Hy]].
        -- apply Hle. left. reflexivity.
        -- eapply leb_trans; [apply Hle; left; reflexivity | auto with f64].
        -- apply Hle. right. exact Hy.
Qed.

Lemma series_min_spec s :
  dropna s <> [] ->
  In (series_min s) (dropna s) /\
  forall y, In y (dropna s) -> F64.leb (series_min s) y = true.
Proof.
  unfold series_min. intros Hne.
  destruct (dropna s) as [|x xs] eqn:E; [contradiction|].
  assert (Hall : forall y, In y (x :: xs) -> F64.is_nan y = false).
  { intros y Hy. rewrite <- E in Hy. apply dropna_In in Hy. apply Hy. }
  apply fold_fmin_spec.
  - apply Hall. left. reflexivity.
  - intros y Hy. apply Hall. right. exact Hy.
Qed.

Lemma series_min_nan s : dropna s = [] -> series_min s = F64.nan.
Proof. unfold series_min. intros ->. reflexivity. Qed.

(** The minimum is at most a bound exactly when some entry is. *)
Lemma series_min_leb_iff s b :
  F64.leb (series_min s) b = true <-> exists c, In c s /\ F64.leb c b = true.
Proof.
  split.
  - intros H. destruct (dropna s) as [|x xs] eqn:E.
    + rewrite series_min_nan in H by exact E. discriminate.
    + destruct (series_min_spec s) as [Hin _]; [rewrite E; discriminate|].
      exists (series_min s). split; [|exact H].
      apply dropna_In in Hin. apply Hin.
  - intros (c & Hc & Hle).
    destruct (leb_not_nan _ _ Hle) as [Hcn _].
    assert (Hin : In c (dropna s)) by (apply dropna_In; split; assumption).
    destruct (series_min_spec s) as [_ Hmin].
    { intros E. rewrite E in Hin. destruct Hin. }
    eapply leb_trans; [apply Hmin; exact Hin | exact Hle].
Qed.

(** ** Portfolio drop alert *)

Lemma check_portfolio_drop_unfold portfolio_value threshold_pct :
  check_portfolio_drop portfolio_value threshold_pct =
  if F64.leb (worst_drop portfolio_value) (F64.neg threshold_pct)
  then Some (portfolio_message (worst_drop portfolio_value) threshold_pct)
  else None.
Proof.
  destruct portfolio_value as [|first rest]; reflexivity.
Qed.

(** C4. The portfolio alert is emitted exactly when the minimum, over the
    whole series, of the percent changes relative to the first value is at
    most minus the threshold, that is, exactly when some point of the series
    dropped that far; a minimum equal to minus the threshold triggers it.
    The alert carries the magnitude of that minimum: for 100, 90, 95 and a
    threshold of 5 it shows 10.00, although the last value is only 5.00
    below the first. *)
Theorem check_portfolio_drop_worst portfolio_value threshold_pct :
  let changes := map (pct_vs_first portfolio_value) portfolio_value in
  ((exists msg, check_portfolio_drop portfolio_value threshold_pct = Some msg) <->
   F64.leb (series_min changes) (F64.neg threshold_pct) = true) /\
  (F64.leb (series_min changes) (F64.neg threshold_pct) = true <->
   exists c, In c changes /\ F64.leb c (F64.neg threshold_pct) = true) /\
  (F64.eqb (series_min changes) (F64.neg threshold_pct) = true ->
   exists msg, check_portfolio_drop portfolio_value threshold_pct = Some msg) /\
  (forall msg, check_portfolio_drop portfolio_value threshold_pct = Some msg ->
     msg = portfolio_message (series_min changes) threshold_pct /\
     nth_error msg 1 = Some (Fixed2 (F64.abs (series_min changes))) /\
     In (series_min changes) changes /\
     forall c, In c changes -> F64.is_nan c = false ->
       F64.leb (series_min changes) c = true) /\
  (exists m,
     check_portfolio_drop [F64.of_Z 100; F64.of_Z 90; F64.of_Z 95] (F64.of_Z 5) =
       Some (portfolio_message m (F64.of_Z 5)) /\
     format_2f (F64.abs m) = "10.00" /\
     format_2f (F64.abs (pct_vs_first [F64.of_Z 100; F64.of_Z 90; F64.of_Z 95] (F64.of_Z 95)))
       = "5.00").
Proof.
  intros changes.
  pose proof (check_portfolio_drop_unfold portfolio_value threshold_pct) as U.
  fold changes in U. change (worst_drop portfolio_value) with (series_min changes) in U.
  split; [|split; [|split; [|split]]].
  - rewrite U. destruct (F64.leb (series_min changes) (F64.neg threshold_pct)).
    + split; [reflexivity | intros _; eexists; reflexivity].
    + split; [intros [msg H]; discriminate | discriminate].
  - apply series_min_leb_iff.
  - intros Heq. rewrite U.
    assert (Hle : F64.leb (series_min changes) (F64.neg threshold_pct) = true).
    { unfold F64.eqb, SFeqb in Heq. unfold F64.leb, SFleb.
      destruct (SFcompare _ _) as [[]|]; try discriminate. reflexivity. }
    rewrite Hle. eexists. reflexivity.
  - intros msg H. rewrite U in H.
    destruct (F64.leb (series_min changes) (F64.neg threshold_pct)) eqn:Hle; [|discriminate].
    injection H as <-. split; [reflexivity|]. split; [reflexivity|].
    destruct (leb_not_nan _ _ Hle) as [Hn _].
    assert (Hne : dropna changes <> []).
    { intros E. rewrite series_min_nan in Hn by exact E. discriminate. }
    destruct (series_min_spec changes Hne) as [Hin Hmin]. split.
    + apply dropna_In in Hin. apply Hin.
    + intros c Hc Hcn. apply Hmin. apply dropna_In. split; assumption.
  - exists (worst_drop [F64.of_Z 100; F64.of_Z 90; F64.of_Z 95]).
    split; [vm_compute; reflexivity|]. split; vm_compute; reflexivity.
Qed.

(** ** Per-asset alerts *)

Section PerAssetAlerts.

Variable data : DataFrame.
Variable threshold_pct : F64.float.
Hypothesis data_not_empty : df_empty data = false.

Lemma check_stock_drops_unfold tickers :
  check_stock_drops data tickers threshold_pct =
  flat_map (stock_alert data threshold_pct) tickers.
Proof.
  unfold check_stock_drops. rewrite data_not_empty.
  apply flat_map_ext. intros t. unfold stock_alert, worst_daily_change.
  destruct (dict_find (daily_change_of data) t); reflexivity.
Qed.

Lemma alerts_naming_stock_alert a t :
  alerts_naming a (stock_alert data threshold_pct t) =
  if String.eqb t a then stock_alert data threshold_pct t else [].
Proof.
  unfold stock_alert. destruct (worst_daily_change data t) as [m|].
  - destruct (F64.leb m (F64.neg threshold_pct)); simpl;
      destruct (String.eqb t a); reflexivity.
  - destruct (String.eqb t a); reflexivity.
Qed.

Lemma alerts_naming_app a l l' :
  alerts_naming a (l ++ l') = alerts_naming a l ++ alerts_naming a l'.
Proof. apply filter_app. Qed.

Lemma alerts_naming_absent a tickers :
  ~ In a tickers ->
  alerts_naming a (flat_map (stock_alert data threshold_pct) tickers) = [].
Proof.
  induction tickers as [|t tickers IH]; intros Hn; [reflexivity|].
  cbn [flat_map]. rewrite alerts_naming_app, alerts_naming_stock_alert.
  destruct (String.eqb_spec t a) as [->|Hne].
  - exfalso. apply Hn. left. reflexivity.
  - apply IH. intros H. apply Hn. right. exact H.
Qed.

(** C5, in the form that holds. For a non-empty price table and a ticker
    list without repetition, the alerts that name an asset are: one alert,
    carrying the minimum day-over-day percent change of the asset over the
    whole series, when the asset is listed, is a column of the table and
    that minimum is at most minus the threshold; no alert otherwise. *)
Theorem check_stock_drops_listed tickers :
  NoDup tickers ->
  forall a,
    alerts_naming a (check_stock_drops data tickers threshold_pct) =
    match worst_daily_change data a with
    | Some m =>
        if existsb (String.eqb a) tickers && (m <=? F64.neg threshold_pct)%f64
        then [stock_message a m threshold_pct] else []
    | None => []
    end.
Proof.
  intros Hnd a. rewrite check_stock_drops_unfold.
  induction Hnd as [|t tickers Hnotin Hnd IH].
  - simpl. destruct (worst_daily_change data a); reflexivity.
  - cbn [flat_map existsb]. rewrite alerts_naming_app, alerts_naming_stock_alert.
    destruct (String.eqb_spec t a) as [->|Hta].
    + rewrite String.eqb_refl. cbn [orb andb].
      rewrite alerts_naming_absent by exact Hnotin. rewrite app_nil_r.
      unfold stock_alert. destruct (worst_daily_change data a); reflexivity.
    + rewrite IH. cbn [app].
      destruct (String.eqb_spec a t) as [E|_]; [congruence|]. reflexivity.
Qed.

End PerAssetAlerts.

Lemma check_stock_drops_listed_witness :
  df_empty two_day_drop = false /\ NoDup ["A"; "B"] /\
  exists m,
    worst_daily_change two_day_drop "A" = Some m /\
    alerts_naming "A" (check_stock_drops two_day_drop ["A"; "B"] (F64.of_Z 5)) =
      [stock_message "A" m (F64.of_Z 5)] /\
    format_2f (F64.abs m) = "10.00".
Proof.
  assert (Hnd : NoDup ["A"; "B"]).
  { constructor; [simpl; intros [H|[]]; discriminate|].
    constructor; [intros []|constructor]. }
  split; [reflexivity|]. split; [exact Hnd|].
  exists (series_min (map (fun r => (r * hundred)%f64)
                          (pct_change [F64.of_Z 100; F64.of_Z 90]))).
  split; [reflexivity|]. split.
  - rewrite (check_stock_drops_listed two_day_drop (F64.of_Z 5) eq_refl ["A"; "B"] Hnd "A").
    vm_compute. reflexivity.
  - vm_compute. reflexivity.
Defined.

(** Over arbitrary ticker lists the reading "one alert for each asset that
    dropped" fails: an asset that dropped is not reported when it is not
    listed, and is reported twice when it is listed twice. *)
Lemma check_stock_drops_counterexample :
  df_empty two_day_drop = false /\
  qualifies two_day_drop (F64.of_Z 5) "A" = true /\
  List.length (alerts_naming "A" (check_stock_drops two_day_drop [] (F64.of_Z 5))) = 0%nat /\
  List.length (alerts_naming "A"
     (check_stock_drops two_day_drop ["A"; "A"] (F64.of_Z 5))) = 2%nat.
Proof. repeat split; vm_compute; reflexivity. Qed.

(** ** Running maximum *)

Lemma fmax_idem a x : fmax a (fmax a x) = fmax a x.
Proof.
  unfold fmax. destruct (F64.ltb a x) eqn:E; [rewrite E; reflexivity|].
  destruct (F64.ltb a a); reflexivity.
Qed.

Lemma fmax_self a : fmax a a = a.
Proof. unfold fmax. destruct (F64.ltb a a); reflexivity. Qed.

Lemma fmax_neg_infinity x : F64.is_nan x = false -> fmax F64.neg_infinity x = x.
Proof. destruct x as [s|[]| |s m e]; try discriminate; reflexivity. Qed.

Lemma fmax_not_nan a x :
  F64.is_nan a = false -> F64.is_nan x = false -> F64.is_nan (fmax a x) = false.
Proof. intros Ha Hx. unfold fmax. destruct (F64.ltb a x); assumption. Qed.

Lemma upd_known st x : known st -> known (upd st x).
Proof.
  unfold upd. destruct (F64.is_nan x) eqn:Hx; [auto|].
  destruct st as [a|]; simpl; intros H; [apply fmax_not_nan|]; assumption.
Qed.

Lemma acc_of_upd st x :
  F64.is_nan x = false -> acc_of (upd st x) = fmax (acc_of st) x.
Proof.
  intros Hx. unfold upd. rewrite Hx. destruct st as [a|]; simpl; [reflexivity|].
  symmetry. apply fmax_neg_infinity. exact Hx.
Qed.

Lemma val_upd st x : F64.is_nan x = false -> val (upd st x) = acc_of (upd st x).
Proof. intros Hx. unfold upd. rewrite Hx. reflexivity. Qed.

Lemma series_max_from st s :
  val (fold_left upd s st) =
  match st with
  | Some a => fold_left fmax (dropna s) a
  | None => series_max s
  end.
Proof.
  revert st. induction s as [|x s IH]; intros st.
  - destruct st; reflexivity.
  - cbn [fold_left]. rewrite IH. unfold upd, series_max. cbn [dropna filter].
    destruct (F64.is_nan x) eqn:Hx; cbn [negb].
    + destruct st; reflexivity.
    + destruct st; reflexivity.
Qed.

Lemma series_max_fold s : series_max s = val (fold_left upd s None).
Proof. rewrite series_max_from. reflexivity. Qed.

Lemma prefix_maxima_cons st x s :
  prefix_maxima st (x :: s) = val (upd st x) :: prefix_maxima (upd st x) s.
Proof.
  unfold prefix_maxima. cbn [List.length seq map firstn fold_left]. f_equal.
  rewrite <- seq_shift, map_map. apply map_ext. intros i. reflexivity.
Qed.

Lemma prefix_maxima_running s :
  prefix_maxima None s = map (running_max_at s) (seq 0 (List.length s)).
Proof.
  unfold prefix_maxima, running_max_at. apply map_ext. intros i.
  symmetry. apply series_max_fold.
Qed.

Lemma sub_nan_l y : F64.sub F64.nan y = F64.nan.
Proof. reflexivity. Qed.

(** The differences to the running maximum, as the code folds them and as
    the prefixes give them. *)
Lemma differences_agree st s :
  zip_with F64.sub s (cummax_from (acc_of st) s) =
  zip_with F64.sub s (prefix_maxima st s).
Proof.
  revert st. induction s as [|x s IH]; intros st; [reflexivity|].
  rewrite prefix_maxima_cons. cbn [cummax_from].
  destruct (F64.is_nan x) eqn:Hx.
  - apply is_nan_eq in Hx. subst x. cbn [zip_with]. rewrite !sub_nan_l. f_equal.
    change (upd st F64.nan) with st. apply IH.
  - cbn [zip_with]. rewrite val_upd, acc_of_upd by exact Hx. f_equal.
    rewrite <- acc_of_upd by exact Hx. apply IH.
Qed.

Lemma upd_val_absorb st x : known st -> upd st (val (upd st x)) = upd st x.
Proof.
  intros Hk. unfold upd at 2 3. destruct (F64.is_nan x) eqn:Hx.
  - destruct st as [a|]; simpl in *; [|reflexivity].
    unfold upd. rewrite Hk, fmax_self. reflexivity.
  - destruct st as [a|]; simpl in *.
    + unfold upd. rewrite fmax_not_nan by assumption. rewrite fmax_idem. reflexivity.
    + unfold upd. rewrite Hx. reflexivity.
Qed.

Lemma peak_of_prefix_maxima st s :
  known st -> fold_left upd (prefix_maxima st s) st = fold_left upd s st.
Proof.
  revert st. induction s as [|x s IH]; intros st Hk; [reflexivity|].
  rewrite prefix_maxima_cons. cbn [fold_left].
  rewrite upd_val_absorb by exact Hk.
  assert (Hk' : known (upd st x)) by (apply upd_known; exact Hk).
  (* the remaining maxima are folded from the state they were built from *)
  rewrite <- (IH (upd st x) Hk'). reflexivity.
Qed.

Lemma peak_of_cummax st s :
  known st -> fold_left upd (cummax_from (acc_of st) s) st = fold_left upd s st.
Proof.
  revert st. induction s as [|x s IH]; intros st Hk; [reflexivity|].
  cbn [cummax_from fold_left].
  destruct (F64.is_nan x) eqn:Hx.
  - cbn [fold_left]. apply is_nan_eq in Hx. subst x.
    change (upd st F64.nan) with st. apply IH. exact Hk.
  - cbn [fold_left]. rewrite <- acc_of_upd by exact Hx.
    rewrite <- val_upd by exact Hx. rewrite upd_val_absorb by exact Hk.
    rewrite val_upd by exact Hx. apply IH. apply upd_known. exact Hk.
Qed.

(** The maximum of the running maximum is the all-time peak. *)
Lemma series_max_cummax s : series_max (cummax s) = series_max s.
Proof.
  rewrite !series_max_fold. unfold cummax.
  change F64.neg_infinity with (acc_of None).
  rewrite peak_of_cummax by exact I. reflexivity.
Qed.

Lemma series_max_running s :
  series_max (map (running_max_at s) (seq 0 (List.length s))) = series_max s.
Proof.
  rewrite <- prefix_maxima_running, !series_max_fold.
  rewrite peak_of_prefix_maxima by exact I. reflexivity.
Qed.

Lemma zip_with_map_seq (f : F64.float -> F64.float -> F64.float) (g : nat -> F64.float) s :
  zip_with f s (map g (seq 0 (List.length s))) =
  map (fun i => f (nth i s F64.nan) (g i)) (seq 0 (List.length s)).
Proof.
  revert g. induction s as [|x s IH]; intros g; [reflexivity|].
  cbn [List.length seq map zip_with nth]. f_equal.
  rewrite <- seq_shift, !map_map. rewrite (IH (fun i => g (S i))). reflexivity.
Qed.

(** The code's drawdown is the one the specification words. *)
Lemma drawdown_of_spec s : drawdown_of s = spec_max_drawdown s.
Proof.
  unfold drawdown_of, spec_max_drawdown.
  rewrite series_max_cummax, series_max_running. f_equal. f_equal.
  unfold cummax. change F64.neg_infinity with (acc_of None).
  rewrite differences_agree, prefix_maxima_running. apply zip_with_map_seq.
Qed.

Lemma metrics_defined s :
  s <> [] -> exists m, compute_portfolio_metrics s = Ok m /\ max_drawdown m = drawdown_of s.
Proof.
  intros Hne. unfold compute_portfolio_metrics, cumulative_return_of, iloc_last, iloc_first.
  destruct s as [|x s]; [contradiction|].
  destruct (rev (x :: s)) as [|y r] eqn:E.
  - apply (f_equal (@List.length _)) in E. rewrite length_rev in E. discriminate.
  - cbn [bind]. eexists. split; reflexivity.
Qed.

(** ** Increasing series *)

Lemma is_finite_not_nan x : F64.is_finite x = true -> F64.is_nan x = false.
Proof. destruct x; try discriminate; reflexivity. Qed.

Lemma dropna_finite s : forallb F64.is_finite s = true -> dropna s = s.
Proof.
  induction s as [|x s IH]; [reflexivity|]. cbn [forallb dropna filter].
  rewrite andb_true_iff. intros [Hx Hs].
  rewrite (is_finite_not_nan x Hx). cbn [negb]. f_equal. apply IH. exact Hs.
Qed.

Lemma strictly_increasing_cons x y t :
  strictly_increasing (x :: y :: t) = F64.ltb x y && strictly_increasing (y :: t).
Proof. reflexivity. Qed.

Lemma cummax_from_increasing acc s :
  strictly_increasing (acc :: s) = true -> forallb F64.is_finite s = true ->
  cummax_from acc s = s.
Proof.
  revert acc. induction s as [|x s IH]; intros acc Hinc Hfin; [reflexivity|].
  rewrite strictly_increasing_cons in Hinc.
  split_andb Hinc Hlt Hinc.
  cbn [forallb] in Hfin. split_andb Hfin Hx Hfin.
  cbn [cummax_from]. rewrite (is_finite_not_nan x Hx).
  unfold fmax. rewrite Hlt. f_equal. apply IH; assumption.
Qed.

Lemma cummax_increasing s :
  strictly_increasing s = true -> forallb F64.is_finite s = true -> cummax s = s.
Proof.
  intros Hinc Hfin. unfold cummax. apply cummax_from_increasing; [|exact Hfin].
  destruct s as [|x s]; [reflexivity|].
  rewrite strictly_increasing_cons, andb_true_iff. split; [|exact Hinc].
  cbn [forallb] in Hfin. split_andb Hfin Hx Hrest.
  destruct x as [?|?| |[] ? ?]; try discriminate; reflexivity.
Qed.

Lemma fold_fmax_increasing xs x d :
  strictly_increasing (x :: xs) = true -> fold_left fmax xs x = last (x :: xs) d.
Proof.
  revert x. induction xs as [|y xs IH]; intros x Hinc; [reflexivity|].
  rewrite strictly_increasing_cons in Hinc.
  split_andb Hinc Hlt Hinc.
  cbn [fold_left]. unfold fmax at 2. rewrite Hlt. rewrite (IH y Hinc). reflexivity.
Qed.

Lemma series_max_increasing s :
  strictly_increasing s = true -> forallb F64.is_finite s = true ->
  series_max s = last s F64.nan.
Proof.
  intros Hinc Hfin. unfold series_max. rewrite dropna_finite by exact Hfin.
  destruct s as [|x xs]; [reflexivity|].
  apply fold_fmax_increasing. exact Hinc.
Qed.

Lemma zip_sub_self s :
  forallb F64.is_finite s = true ->
  zip_with F64.sub s s = map (fun _ => F64.zero) s.
Proof.
  induction s as [|x s IH]; [reflexivity|]. cbn [forallb].
  rewrite andb_true_iff. intros [Hx Hs]. cbn [zip_with map].
  rewrite sub_diag by exact Hx. f_equal. apply IH. exact Hs.
Qed.

Lemma fold_fmin_zeros (s : Series) :
  fold_left fmin (map (fun _ => F64.zero) s) F64.zero = F64.zero.
Proof. induction s as [|x s IH]; [reflexivity|]. cbn [map fold_left]. exact IH. Qed.

Lemma dropna_zeros (s : Series) :
  dropna (map (fun _ => F64.zero) s) = map (fun _ => F64.zero) s.
Proof.
  induction s as [|y s IH]; [reflexivity|].
  cbn [map]. unfold dropna in *. cbn [filter F64.is_nan F64.zero negb]. f_equal. exact IH.
Qed.

Lemma series_min_zeros (s : Series) :
  s <> [] -> series_min (map (fun _ => F64.zero) s) = F64.zero.
Proof.
  destruct s as [|x s]; [contradiction|]. intros _.
  unfold series_min. rewrite dropna_zeros. cbn [map]. apply fold_fmin_zeros.
Qed.

Lemma last_finite s d :
  s <> [] -> forallb F64.is_finite s = true -> F64.is_finite (last s d) = true.
Proof.
  induction s as [|x s IH]; [contradiction|]. intros _. cbn [forallb].
  rewrite andb_true_iff. intros [Hx Hs].
  destruct s as [|y s]; [exact Hx|]. apply IH; [discriminate | exact Hs].
Qed.

Lemma drawdown_increasing s :
  s <> [] -> strictly_increasing s = true -> forallb F64.is_finite s = true ->
  F64.is_zero (last s F64.nan) = false ->
  F64.eqb (drawdown_of s) F64.zero = true.
Proof.
  intros Hne Hinc Hfin Hlast. unfold drawdown_of.
  rewrite cummax_increasing by assumption.
  rewrite zip_sub_self by assumption.
  rewrite series_min_zeros by assumption.
  rewrite series_max_increasing by assumption.
  pose proof (last_finite s F64.nan Hne Hfin) as Hf.
  destruct (last s F64.nan) as [?|?| |sg m e]; try discriminate.
  destruct sg; reflexivity.
Qed.

(** C3, in the form that holds. For a value series of two points or more
    the metrics are defined, and Max Drawdown is the minimum over the dates
    of (value - running maximum) divided by the maximum of the running
    maxima, which is the all-time peak.  On a strictly increasing series of
    finite values whose last value is not zero it equals 0. *)
Theorem max_drawdown_all_time_peak portfolio_value :
  (2 <= List.length portfolio_value)%nat ->
  exists m,
    compute_portfolio_metrics portfolio_value = Ok m /\
    max_drawdown m = spec_max_drawdown portfolio_value /\
    series_max (map (running_max_at portfolio_value)
                    (seq 0 (List.length portfolio_value))) = series_max portfolio_value /\
    (strictly_increasing portfolio_value = true ->
     forallb F64.is_finite portfolio_value = true ->
     F64.is_zero (last portfolio_value F64.nan) = false ->
     F64.eqb (max_drawdown m) F64.zero = true).
Proof.
  intros Hlen.
  assert (Hne : portfolio_value <> []) by (destruct portfolio_value; [simpl in Hlen; lia | discriminate]).
  destruct (metrics_defined portfolio_value Hne) as (m & Hm & Hdd).
  exists m. split; [exact Hm|]. split; [rewrite Hdd; apply drawdown_of_spec|].
  split; [apply series_max_running|].
  intros Hinc Hfin Hlast. rewrite Hdd. apply drawdown_increasing; assumption.
Qed.

Lemma max_drawdown_all_time_peak_witness :
  exists m,
    compute_portfolio_metrics rising_series = Ok m /\
    max_drawdown m = spec_max_drawdown rising_series /\
    F64.eqb (max_drawdown m) F64.zero = true.
Proof.
  destruct (max_drawdown_all_time_peak rising_series) as (m & Hm & Hs & _ & Hz).
  - simpl. lia.
  - exists m. split; [exact Hm|]. split; [exact Hs|].
    apply Hz; reflexivity.
Defined.

(** An increasing series that ends at zero has no defined drawdown. *)
Lemma max_drawdown_increasing_counterexample :
  strictly_increasing [F64.of_Z (-1); F64.zero] = true /\
  exists m,
    compute_portfolio_metrics [F64.of_Z (-1); F64.zero] = Ok m /\
    max_drawdown m = F64.nan /\
    F64.eqb (max_drawdown m) F64.zero = false.
Proof.
  split; [reflexivity|]. eexists. split; [reflexivity|]. split; reflexivity.
Qed.

(** ** Sign of the drawdown *)

Lemma positive_value_inv x :
  positive_value x = true ->
  exists m e, x = S754_finite false m e /\ F64.valid (S754_finite false m e) = true.
Proof.
  destruct x as [?|?| |[] m e]; try discriminate. intros H. exists m, e. split; [reflexivity | exact H].
Qed.

Lemma sub_cummax_step acc x :
  below_peak acc -> positive_value x = true ->
  F64.leb (F64.sub x (fmax acc x)) F64.zero = true /\ positive_value (fmax acc x) = true.
Proof.
  intros Hacc Hx.
  destruct (positive_value_inv x Hx) as (mx & ex & -> & Hvx).
  destruct Hacc as [->|Hacc].
  - change (fmax F64.neg_infinity (S754_finite false mx ex)) with (S754_finite false mx ex).
    split; [|exact Hx]. rewrite sub_diag by reflexivity. reflexivity.
  - destruct (positive_value_inv acc Hacc) as (ma & ea & -> & Hva).
    unfold fmax. destruct (F64.ltb (S754_finite false ma ea) (S754_finite false mx ex)) eqn:Hlt.
    + split; [|exact Hx]. rewrite sub_diag by reflexivity. reflexivity.
    + split; [|exact Hacc]. apply sub_le_zero; assumption.
Qed.

Lemma sub_cummax_nonpositive acc s :
  below_peak acc -> forallb positive_value s = true ->
  Forall (fun d => F64.leb d F64.zero = true) (zip_with F64.sub s (cummax_from acc s)) /\
  Forall (fun c => positive_value c = true) (cummax_from acc s).
Proof.
  revert acc. induction s as [|x s IH]; intros acc Hacc Hs; [split; constructor|].
  cbn [forallb] in Hs. split_andb Hs Hx Hs.
  destruct (sub_cummax_step acc x Hacc Hx) as [Hd Hc].
  cbn [cummax_from].
  assert (Hn : F64.is_nan x = false) by (destruct x as [?|?| |[] ? ?]; try discriminate; reflexivity).
  rewrite Hn. cbn [zip_with].
  destruct (IH (fmax acc x) (or_intror Hc) Hs) as [IH1 IH2].
  split; constructor; assumption.
Qed.

Lemma fold_fmax_in xs x : In (fold_left fmax xs x) (x :: xs).
Proof.
  revert x. induction xs as [|y xs IH]; intros x; [left; reflexivity|].
  cbn [fold_left]. destruct (IH (fmax x y)) as [E|Hin].
  - rewrite <- E. unfold fmax. destruct (F64.ltb x y); [right; left|left]; reflexivity.
  - right. right. exact Hin.
Qed.

Lemma series_max_in s : dropna s <> [] -> In (series_max s) (dropna s).
Proof.
  unfold series_max. destruct (dropna s) as [|x xs]; [contradiction|].
  intros _. apply fold_fmax_in.
Qed.

Lemma drawdown_nonpositive s :
  s <> [] -> forallb positive_value s = true ->
  F64.leb (drawdown_of s) F64.zero = true.
Proof.
  intros Hne Hs. unfold drawdown_of, cummax.
  destruct (sub_cummax_nonpositive F64.neg_infinity s (or_introl eq_refl) Hs) as [Hd Hc].
  set (ds := zip_with F64.sub s (cummax_from F64.neg_infinity s)) in *.
  set (cs := cummax_from F64.neg_infinity s) in *.
  assert (Hcs : cs <> []).
  { subst cs. destruct s as [|x s]; [contradiction|]. cbn [cummax_from].
    destruct (F64.is_nan x); discriminate. }
  assert (Hds : ds <> []).
  { subst ds. destruct s as [|x s]; [contradiction|]. fold cs.
    destruct cs; [contradiction | discriminate]. }
  assert (Hdn : dropna ds = ds).
  { clear - Hd. induction Hd as [|d ds Hd _ IH]; [reflexivity|]. cbn [dropna filter].
    destruct (leb_not_nan _ _ Hd) as [-> _]. cbn [negb]. f_equal. exact IH. }
  assert (Hcn : dropna cs = cs).
  { clear - Hc. induction Hc as [|c cs Hc _ IH]; [reflexivity|]. cbn [dropna filter].
    destruct (positive_value_inv c Hc) as (m & e & -> & _). cbn [F64.is_nan negb].
    f_equal. exact IH. }
  assert (Hmin : F64.leb (series_min ds) F64.zero = true).
  { destruct (series_min_spec ds) as [Hin _]; [rewrite Hdn; exact Hds|].
    rewrite Hdn in Hin. rewrite Forall_forall in Hd. apply Hd. exact Hin. }
  assert (Hmax : positive_value (series_max cs) = true).
  { pose proof (series_max_in cs) as Hin. rewrite Hcn in Hin.
    rewrite Forall_forall in Hc. apply Hc. apply Hin. exact Hcs. }
  destruct (positive_value_inv _ Hmax) as (m & e & -> & _).
  apply div_le_zero. exact Hmin.
Qed.

(** C10. For a value series of two or more positive values Max Drawdown is
    at most 0: no value exceeds the running maximum, and the peak that
    divides the differences is positive. *)
Theorem max_drawdown_nonpositive portfolio_value :
  (2 <= List.length portfolio_value)%nat ->
  forallb positive_value portfolio_value = true ->
  exists m,
    compute_portfolio_metrics portfolio_value = Ok m /\
    F64.leb (max_drawdown m) F64.zero = true.
Proof.
  intros Hlen Hpos.
  assert (Hne : portfolio_value <> []) by (destruct portfolio_value; [simpl in Hlen; lia | discriminate]).
  destruct (metrics_defined portfolio_value Hne) as (m & Hm & Hdd).
  exists m. split; [exact Hm|]. rewrite Hdd. apply drawdown_nonpositive; assumption.
Qed.

Lemma max_drawdown_nonpositive_witness :
  exists m,
    compute_portfolio_metrics dipping_series = Ok m /\
    F64.leb (max_drawdown m) F64.zero = true.
Proof.
  apply (max_drawdown_nonpositive dipping_series).
  - simpl. lia.
  - vm_compute. reflexivity.
Defined.

(** ** One asset *)

Lemma sum_axis1_single col :
  no_nan col = true -> sum_axis1 (List.length col) [col] = col.
Proof.
  unfold sum_axis1. induction col as [|x col IH]; [reflexivity|].
  cbn [no_nan forallb]. rewrite andb_true_iff, negb_true_iff. intros [Hx Hcol].
  cbn [List.length seq map nth]. f_equal.
  - unfold series_sum, fill_zero. cbn [map]. rewrite Hx. reflexivity.
  - rewrite <- seq_shift, map_map. apply IH. exact Hcol.
Qed.

Lemma ratios_no_nan p0 prices :
  F64.is_finite p0 = true -> F64.is_zero p0 = false ->
  forallb F64.is_finite prices = true ->
  no_nan (map (fun p => F64.div p p0) prices) = true.
Proof.
  intros H0 Hz. induction prices as [|p prices IH]; [reflexivity|].
  cbn [forallb]. rewrite andb_true_iff. intros [Hp Hps].
  cbn [map no_nan forallb]. rewrite div_not_nan by assumption. apply IH. exact Hps.
Qed.

Lemma single_asset_value dates ticker p0 rest initial_value :
  List.length dates = List.length (p0 :: rest) ->
  F64.is_zero p0 = false ->
  forallb F64.is_finite (p0 :: rest) = true ->
  compute_portfolio_value (single_asset dates ticker (p0 :: rest))
    (Some [(ticker, F64.one)]) initial_value =
  Ok (map (fun p => F64.mul (F64.div p p0) initial_value) (p0 :: rest)).
Proof.
  intros Hlen Hz Hfin.
  assert (H0 : F64.is_finite p0 = true).
  { cbn [forallb] in Hfin. apply andb_true_iff in Hfin. apply Hfin. }
  destruct dates as [|d0 dates]; [discriminate|].
  assert (Hhd : hd F64.nan (p0 :: rest) = p0) by reflexivity.
  set (prices := p0 :: rest) in *.
  unfold compute_portfolio_value, normalize_weights, single_asset.
  cbn [index columns df_empty].
  change (py_sum (map snd [(ticker, F64.one)])) with F64.one.
  cbn [mapM snd fst].
  change (py_div F64.one F64.one) with (@Ok F64.float F64.one).
  cbn [bind fst snd]. unfold dict_get. cbn [dict_find].
  rewrite String.eqb_refl. cbn [bind map snd zip_with].
  rewrite Hlen, Hhd.
  assert (Hw : map (fun p => F64.mul p F64.one) (map (fun p => F64.div p p0) prices) =
               map (fun p => F64.div p p0) prices).
  { rewrite map_map. apply map_ext. intros p. apply mul_one_r. apply div_valid. }
  rewrite Hw.
  rewrite <- (length_map (fun p => F64.div p p0) prices).
  rewrite sum_axis1_single by (apply ratios_no_nan; assumption).
  rewrite map_map. reflexivity.
Qed.

Lemma iloc_last_map (f : F64.float -> F64.float) s :
  iloc_last (map f s) = x <- iloc_last s ;; Ok (f x).
Proof.
  unfold iloc_last. rewrite <- map_rev. destruct (rev s); reflexivity.
Qed.

Lemma iloc_last_defined (x : F64.float) s : exists y, iloc_last (x :: s) = Ok y.
Proof.
  unfold iloc_last. destruct (rev (x :: s)) as [|y r] eqn:E.
  - apply (f_equal (@List.length _)) in E. rewrite length_rev in E. discriminate.
  - exists y. reflexivity.
Qed.

(** The return of the valued series of one asset: the price ratio, scaled by
    the initial value and divided by it again. *)
Lemma single_asset_return dates ticker p0 rest plast initial_value :
  List.length dates = List.length (p0 :: rest) ->
  F64.is_zero p0 = false ->
  forallb F64.is_finite (p0 :: rest) = true ->
  F64.valid initial_value = true ->
  iloc_last (p0 :: rest) = Ok plast ->
  engine_cumulative_return (single_asset dates ticker (p0 :: rest))
    [(ticker, F64.one)] initial_value =
  Ok (F64.sub (F64.div (F64.mul (F64.div plast p0) initial_value) initial_value) F64.one).
Proof.
  intros Hlen Hz Hfin Hv El.
  unfold engine_cumulative_return.
  rewrite single_asset_value by assumption. cbn [bind].
  unfold cumulative_return_of. rewrite iloc_last_map, El.
  cbn [bind iloc_first map].
  assert (Hone : F64.div p0 p0 = F64.one).
  { cbn [forallb] in Hfin. split_andb Hfin H0 Hrest.
    destruct p0 as [?|?| |s m e]; try discriminate. apply div_diag. }
  rewrite Hone, mul_one_l by exact Hv. reflexivity.
Qed.

(** C6, in the form that holds. One asset with weight 1.0, finite prices on
    two dates or more and a non-zero first price.  With the initial value
    1.0 the cumulative return of the series the valuation produces is, bit
    for bit, last price / first price - 1 computed on the price column.
    With another initial value V it is (ratio * V) / V - 1, where ratio is
    last price / first price: the two roundings of the scaling stand between
    it and the direct value. *)
Theorem single_asset_return_unit_value dates ticker prices :
  (2 <= List.length prices)%nat ->
  List.length dates = List.length prices ->
  forallb F64.is_finite prices = true ->
  F64.is_zero (hd F64.nan prices) = false ->
  exists first last,
    iloc_first prices = Ok first /\ iloc_last prices = Ok last /\
    cumulative_return_of prices = Ok (F64.sub (F64.div last first) F64.one) /\
    engine_cumulative_return (single_asset dates ticker prices) [(ticker, F64.one)] F64.one
      = Ok (F64.sub (F64.div last first) F64.one) /\
    forall initial_value, F64.valid initial_value = true ->
      engine_cumulative_return (single_asset dates ticker prices) [(ticker, F64.one)]
        initial_value
      = Ok (F64.sub (F64.div (F64.mul (F64.div last first) initial_value) initial_value)
                    F64.one).
Proof.
  intros Hlen2 Hlen Hfin Hz.
  destruct prices as [|p0 rest]; [simpl in Hlen2; lia|]. cbn [hd] in Hz.
  destruct (iloc_last_defined p0 rest) as [plast El].
  exists p0, plast. split; [reflexivity|]. split; [exact El|].
  split; [unfold cumulative_return_of; rewrite El; reflexivity|].
  split.
  - rewrite (single_asset_return dates ticker p0 rest plast F64.one) by
      (try assumption; reflexivity).
    rewrite mul_one_r, div_one_r by apply div_valid. reflexivity.
  - intros initial_value Hv. apply single_asset_return; assumption.
Qed.

Lemma single_asset_return_unit_value_witness :
  cumulative_return_of [F64.of_Z 3; F64.of_Z 10] =
    Ok (F64.sub (F64.div (F64.of_Z 10) (F64.of_Z 3)) F64.one) /\
  engine_cumulative_return (single_asset [1; 2] "A" [F64.of_Z 3; F64.of_Z 10])
    [("A", F64.one)] F64.one =
    Ok (F64.sub (F64.div (F64.of_Z 10) (F64.of_Z 3)) F64.one).
Proof.
  destruct (single_asset_return_unit_value [1; 2] "A" [F64.of_Z 3; F64.of_Z 10])
    as (first & last & Hf & Hl & Hd & He & _).
  - simpl. lia.
  - reflexivity.
  - reflexivity.
  - reflexivity.
  - injection Hf as <-. injection Hl as <-. split; [exact Hd | exact He].
Defined.

(** With the default initial value the last bit differs, and a zero initial
    value gives no return at all. *)
Lemma single_asset_return_counterexample :
  cumulative_return_of [F64.of_Z 3; F64.of_Z 10] =
    Ok (S754_finite false 5254199565265579 (-51)) /\
  engine_cumulative_return (single_asset [1; 2] "A" [F64.of_Z 3; F64.of_Z 10])
    [("A", F64.one)] default_initial_value =
    Ok (S754_finite false 5254199565265580 (-51)) /\
  engine_cumulative_return (single_asset [1; 2] "A" [F64.of_Z 3; F64.of_Z 10])
    [("A", F64.one)] F64.zero = Ok F64.nan.
Proof. repeat split; vm_compute; reflexivity. Qed.

(** ** Weights that sum to zero *)

Lemma mapM_py_div total (ws : dict F64.float) :
  F64.is_zero total = false ->
  mapM (fun kv => w <- py_div (snd kv) total ;; Ok (fst kv, w)) ws =
  Ok (map (fun kv => (fst kv, F64.div (snd kv) total)) ws).
Proof.
  intros Hz. induction ws as [|kv ws IH]; [reflexivity|].
  cbn [mapM]. unfold py_div at 1. rewrite Hz. cbn [bind]. rewrite IH. reflexivity.
Qed.

Lemma dict_find_some {V : Type} (d : dict V) k :
  In k (map fst d) -> exists v, dict_find d k = Some v.
Proof.
  induction d as [|[k' v'] d IH]; [intros []|].
  cbn [map fst dict_find]. intros [E|Hin].
  - subst k'. rewrite String.eqb_refl. eexists. reflexivity.
  - destruct (String.eqb k k'); [eexists; reflexivity | apply IH; exact Hin].
Qed.

Lemma mapM_dict_get {V : Type} (d : dict V) (cols : dict Series) :
  (forall c, In c cols -> In (fst c) (map fst d)) ->
  exists vs, mapM (fun c => dict_get d (fst c)) cols = Ok vs.
Proof.
  induction cols as [|c cols IH]; intros H; [eexists; reflexivity|].
  cbn [mapM]. unfold dict_get at 1.
  destruct (dict_find_some d (fst c)) as [v ->]; [apply H; left; reflexivity|].
  destruct IH as [vs ->]; [intros c' Hc'; apply H; right; exact Hc'|].
  cbn [bind]. eexists. reflexivity.
Qed.

Lemma app_weights_zero_total tickers raw_weights :
  (1 < List.length tickers)%nat ->
  fold_left Z.add raw_weights 0 = 0 ->
  app_weights tickers raw_weights =
  map (fun t => (t, F64.div F64.one (F64.of_Z (Z.of_nat (List.length tickers))))) tickers.
Proof.
  intros Hn Hsum. unfold app_weights.
  destruct (Z.ltb_spec 1 (Z.of_nat (List.length tickers))); [|lia].
  rewrite Hsum. reflexivity.
Qed.

Lemma normalize_equal_weights data (w : F64.float) (tickers : list string) :
  pos_rounded w -> tickers <> [] ->
  exists total,
    F64.is_zero total = false /\
    normalize_weights data (Some (map (fun t => (t, w)) tickers)) =
    Ok (map (fun t => (t, F64.div w total)) tickers).
Proof.
  intros Hpw Hne. unfold normalize_weights.
  set (total := py_sum (map snd (map (fun t : string => (t, w)) tickers))).
  assert (Htotal : F64.is_zero total = false).
  { subst total. rewrite map_map. cbn [snd].
    destruct tickers as [|t tickers]; [contradiction|].
    cbn [map]. apply py_sum_pos. constructor; [exact Hpw|].
    apply Forall_forall. intros x Hx. apply in_map_iff in Hx. destruct Hx as (_ & <- & _).
    exact Hpw. }
  exists total. split; [exact Htotal|].
  rewrite mapM_py_div by exact Htotal. rewrite map_map. reflexivity.
Qed.

(** C1, in the form that holds. The fall-back to equal weights is the caller's: for
    N >= 2 symbols whose raw weights sum to 0, [app_weights] hands the
    valuation the weight 1/N for every symbol (0.5 and 0.5 for raw weights
    0 and 0); the valuation divides them by their non-zero total, so the
    effective weights are equal, and it returns one value per date without
    raising on every non-empty price table whose columns are among the
    symbols. *)
Theorem zero_total_weights_fall_back_in_caller tickers raw_weights :
  (1 < List.length tickers)%nat ->
  Z.of_nat (List.length tickers) < 2 ^ 53 ->
  fold_left Z.add raw_weights 0 = 0 ->
  let w := F64.div F64.one (F64.of_Z (Z.of_nat (List.length tickers))) in
  app_weights tickers raw_weights = map (fun t => (t, w)) tickers /\
  (forall data, exists total,
     F64.is_zero total = false /\
     normalize_weights data (Some (app_weights tickers raw_weights)) =
     Ok (map (fun t => (t, F64.div w total)) tickers)) /\
  (forall data initial_value,
     df_empty data = false ->
     (forall c, In c (columns data) -> In (fst c) tickers) ->
     exists v,
       compute_portfolio_value data (Some (app_weights tickers raw_weights)) initial_value
         = Ok v /\
       List.length v = List.length (index data)) /\
  app_weights ["A"; "B"] [0; 0] = [("A", one_half); ("B", one_half)] /\
  normalize_weights two_assets (Some [("A", one_half); ("B", one_half)]) =
    Ok [("A", one_half); ("B", one_half)].
Proof.
  intros Hn Hbound Hsum w.
  pose proof (app_weights_zero_total tickers raw_weights Hn Hsum) as Hw. fold w in Hw.
  assert (Hpw : pos_rounded w) by (apply one_div_of_Z_pos; lia).
  assert (Hne : tickers <> []) by (intros ->; simpl in Hn; lia).
  split; [exact Hw|]. split; [|split; [|split; reflexivity]].
  - intros data. rewrite Hw. apply normalize_equal_weights; assumption.
  - intros data initial_value Hdata Hcols.
    destruct (normalize_equal_weights data w tickers Hpw Hne) as (total & _ & E).
    destruct (mapM_dict_get (map (fun t => (t, F64.div w total)) tickers) (columns data))
      as [vs Evs].
    { intros c Hc. rewrite map_map. cbn [fst]. rewrite map_id. apply Hcols. exact Hc. }
    unfold compute_portfolio_value. rewrite Hdata, Hw. unfold dict in *.
    eexists. rewrite E. cbn [bind]. rewrite Evs. cbn [bind]. split; [reflexivity|].
    unfold sum_axis1. rewrite !length_map, length_seq. reflexivity.
Qed.

Lemma zero_total_weights_fall_back_in_caller_witness :
  app_weights ["A"; "B"] [0; 0] = [("A", one_half); ("B", one_half)] /\
  exists v,
    compute_portfolio_value two_assets (Some (app_weights ["A"; "B"] [0; 0]))
      default_initial_value = Ok v /\
    List.length v = 3%nat.
Proof.
  destruct (zero_total_weights_fall_back_in_caller ["A"; "B"] [0; 0])
    as (_ & _ & Hrun & Hhalf & _).
  - simpl. lia.
  - simpl. lia.
  - reflexivity.
  - split; [exact Hhalf|].
    apply (Hrun two_assets default_initial_value).
    + reflexivity.
    + intros c [<-|[<-|[]]]; simpl; auto.
Defined.

(** Handed raw weights that sum to zero, the valuation itself divides by
    zero. *)
Lemma zero_total_weights_counterexample :
  df_empty two_assets = false /\
  py_sum [F64.zero; F64.zero] = F64.zero /\
  normalize_weights two_assets (Some [("A", F64.zero); ("B", F64.zero)])
    = Raise ZeroDivisionError /\
  compute_portfolio_value two_assets
    (Some [("A", F64.zero); ("B", F64.zero)]) default_initial_value
    = Raise ZeroDivisionError.
Proof. repeat split; vm_compute; reflexivity. Qed.

(** ** Further properties of the code *)

(** X1. The value series of one asset with weight 1.0 starts exactly at the
    initial value (section 4.2). *)
Theorem single_asset_starts_at_initial_value dates ticker prices initial_value :
  prices <> [] ->
  List.length dates = List.length prices ->
  forallb F64.is_finite prices = true ->
  F64.is_zero (hd F64.nan prices) = false ->
  F64.valid initial_value = true ->
  exists later,
    compute_portfolio_value (single_asset dates ticker prices)
      (Some [(ticker, F64.one)]) initial_value = Ok (initial_value :: later).
Proof.
  intros Hne Hlen Hfin Hz Hv.
  destruct prices as [|p0 rest]; [contradiction|]. cbn [hd] in Hz.
  rewrite single_asset_value by assumption. cbn [map].
  assert (Hone : F64.div p0 p0 = F64.one).
  { cbn [forallb] in Hfin. split_andb Hfin H0 Hrest.
    destruct p0 as [?|?| |s m e]; try discriminate. apply div_diag. }
  rewrite Hone, mul_one_l by exact Hv. eexists. reflexivity.
Qed.

Lemma single_asset_starts_at_initial_value_witness :
  exists later,
    compute_portfolio_value (single_asset [1; 2] "A" [F64.of_Z 3; F64.of_Z 10])
      (Some [("A", F64.one)]) default_initial_value = Ok (default_initial_value :: later).
Proof.
  apply (single_asset_starts_at_initial_value [1; 2] "A" [F64.of_Z 3; F64.of_Z 10]
           default_initial_value).
  - discriminate.
  - reflexivity.
  - reflexivity.
  - reflexivity.
  - reflexivity.
Defined.

Lemma dropna_length s : (List.length (dropna s) <= List.length s)%nat.
Proof. apply filter_length_le. Qed.

Lemma ffill_from_length last s : List.length (ffill_from last s) = List.length s.
Proof.
  revert last. induction s as [|x s IH]; intros last; [reflexivity|].
  cbn [ffill_from]. destruct (F64.is_nan x); cbn [List.length]; rewrite IH; reflexivity.
Qed.

Lemma daily_returns_length s :
  (List.length (dropna (pct_change s)) <= List.length s - 1)%nat.
Proof.
  unfold pct_change. pose proof (ffill_from_length F64.nan s) as Hl. fold (ffill s) in Hl.
  destruct (ffill s) as [|x xs]; [simpl; lia|].
  cbn [dropna filter F64.is_nan F64.nan negb].
  pose proof (dropna_length (zip_with (fun prev cur => (cur / prev - F64.one)%f64) (x :: xs) xs)) as Hd.
  unfold dropna in Hd. rewrite zip_with_length in Hd. cbn [List.length] in *. lia.
Qed.

(** X2. With fewer than three points there is at most one daily return,
    its deviation is undefined, and so is the Sharpe ratio: NaN, no
    exception (section 7, degenerate metrics). *)
Theorem sharpe_undefined_below_three_points portfolio_values risk_free_rate :
  (List.length portfolio_values <= 2)%nat ->
  compute_sharpe_ratio portfolio_values risk_free_rate = F64.nan.
Proof.
  intros Hlen. unfold compute_sharpe_ratio.
  set (excess_returns := excess_returns_of portfolio_values risk_free_rate).
  assert (Hcount : count excess_returns - 1 <= 0).
  { unfold count. pose proof (dropna_length excess_returns) as Hd.
    subst excess_returns. unfold excess_returns_of in *. rewrite length_map in Hd.
    pose proof (daily_returns_length portfolio_values). lia. }
  assert (Hstd : series_std excess_returns = F64.nan).
  { unfold series_std, series_var.
    destruct (Z.leb_spec (count excess_returns - 1) 0); [reflexivity | lia]. }
  rewrite Hstd, div_nan_r. reflexivity.
Qed.

Lemma sharpe_undefined_below_three_points_witness :
  compute_sharpe_ratio [F64.of_Z 100; F64.of_Z 90] default_risk_free_rate = F64.nan.
Proof.
  apply (sharpe_undefined_below_three_points [F64.of_Z 100; F64.of_Z 90]
           default_risk_free_rate).
  simpl. lia.
Defined.

(** X3. Nothing fetched, no date or no observation at all, gives the empty
    table and no exception (section 4.1, failure mode). *)
Theorem fetch_stock_data_nothing_fetched raw tickers start_date end_date :
  raw_index raw = [] \/ (forall c, In c (raw_columns raw) -> all_nan (snd c) = true) ->
  fetch_stock_data raw tickers start_date end_date = Ok empty_frame.
Proof.
  intros [Hidx|Hcols]; unfold fetch_stock_data.
  - rewrite Hidx. reflexivity.
  - unfold dropna_columns. rewrite filter_nil.
    + destruct (raw_index raw); reflexivity.
    + intros c Hc. rewrite (Hcols c Hc). reflexivity.
Qed.

Lemma fetch_stock_data_nothing_fetched_witness :
  fetch_stock_data
    {| raw_index := [1; 2]; raw_multi := true;
       raw_columns := [(("Close", "ZZZZ"), [F64.nan; F64.nan])] |}
    ["ZZZZ"] 1 2 = Ok empty_frame.
Proof.
  apply (fetch_stock_data_nothing_fetched
           {| raw_index := [1; 2]; raw_multi := true;
              raw_columns := [(("Close", "ZZZZ"), [F64.nan; F64.nan])] |}
           ["ZZZZ"] 1 2).
  right. intros c [<-|[]]. reflexivity.
Defined.

(** ** The valuation: defaults and errors *)

Lemma of_Z_nonzero n : 0 < n -> F64.is_zero (F64.of_Z n) = false.
Proof.
  destruct n as [|p|p]; try lia. intros _.
  unfold F64.of_Z, binary_normalize. apply binary_round_nonzero. lia.
Qed.

Lemma dict_find_none {V : Type} (d : dict V) k :
  dict_find d k = None <-> ~ In k (map fst d).
Proof.
  induction d as [|[k' v'] d IH]; cbn [dict_find map fst In]; [tauto|].
  destruct (String.eqb_spec k k') as [->|Hne].
  - split; [discriminate | intros H; exfalso; apply H; left; reflexivity].
  - rewrite IH. split; [intros H [E|Hin]; [congruence | tauto] | tauto].
Qed.

Lemma mapM_length {A B : Type} (f : A -> result B) l bs :
  mapM f l = Ok bs -> List.length bs = List.length l.
Proof.
  revert bs. induction l as [|a l IH]; intros bs; cbn [mapM].
  - intros E. inversion E. reflexivity.
  - destruct (f a) as [b|e]; cbn [bind]; [|discriminate].
    destruct (mapM f l) as [bs'|e]; cbn [bind]; [|discriminate].
    intros E. inversion E. cbn [List.length]. rewrite (IH bs' eq_refl). reflexivity.
Qed.

(** The alignment of the weights with the columns fails on the first column
    that has no weight, and only then. *)
Lemma mapM_dict_get_cases {V : Type} (d : dict V) (cols : dict Series) :
  match mapM (fun c => dict_get d (fst c)) cols with
  | Ok _ => forall t, In t (map fst cols) -> In t (map fst d)
  | Raise e => exists t, e = KeyError t /\ In t (map fst cols) /\ ~ In t (map fst d)
  end.
Proof.
  induction cols as [|c cols IH]; cbn [mapM map In]; [intros t []|].
  unfold dict_get at 1. destruct (dict_find d (fst c)) as [v|] eqn:E; cbn [bind].
  - destruct (mapM (fun c => dict_get d (fst c)) cols) as [vs|e]; cbn [bind].
    + intros t [<-|Hin]; [|apply IH; exact Hin].
      destruct (in_dec string_dec (fst c) (map fst d)) as [H|H]; [exact H|].
      apply dict_find_none in H. congruence.
    + destruct IH as (t & -> & Hin & Hout). exists t. auto.
  - exists (fst c). apply dict_find_none in E. auto.
Qed.

Lemma value_length (data : DataFrame) (weighted_prices : list Series) initial_value :
  List.length (map (fun v => F64.mul v initial_value)
                   (sum_axis1 (List.length (index data)) weighted_prices))
  = List.length (index data).
Proof. unfold sum_axis1. rewrite !length_map, length_seq. reflexivity. Qed.

Lemma df_empty_false data :
  df_empty data = false -> index data <> [] /\ columns data <> [].
Proof.
  unfold df_empty. destruct (index data), (columns data); try discriminate.
  intros _. split; discriminate.
Qed.

(** X4. Without explicit weights the valuation never raises: every column
    gets the weight 1/N, N >= 1 is not zero, every column finds its
    weight, and the result has one value per date (none on the empty
    table). *)
Theorem default_weights_never_raise data initial_value :
  exists v,
    compute_portfolio_value data None initial_value = Ok v /\
    List.length v = if df_empty data then 0%nat else List.length (index data).
Proof.
  unfold compute_portfolio_value.
  destruct (df_empty data) eqn:Hdata; [exists []; split; reflexivity|].
  apply df_empty_false in Hdata. destruct Hdata as [_ Hcols].
  unfold normalize_weights.
  set (n := F64.of_Z (Z.of_nat (List.length (columns data)))).
  assert (Hn : F64.is_zero n = false).
  { apply of_Z_nonzero. destruct (columns data); [contradiction | simpl; lia]. }
  assert (E : forall cols : dict Series,
             mapM (fun c : string * Series => w <- py_div F64.one n ;; Ok (fst c, w)) cols
             = Ok (map (fun c => (fst c, F64.div F64.one n)) cols)).
  { induction cols as [|c cols IH]; [reflexivity|].
    cbn [mapM map]. unfold py_div at 1. rewrite Hn. cbn [bind].
    rewrite IH. reflexivity. }
  rewrite E. cbn [bind].
  destruct (mapM_dict_get (map (fun c : string * Series => (fst c, F64.div F64.one n))
                               (columns data)) (columns data)) as [vs Evs].
  { intros c Hc. rewrite map_map. cbn [fst]. apply in_map. exact Hc. }
  unfold dict in *. rewrite Evs. cbn [bind].
  eexists. split; [reflexivity|]. apply value_length.
Qed.

Lemma normalize_given_weights data (weights : dict F64.float) :
  let total_weight := py_sum (map snd weights) in
  normalize_weights data (Some weights) =
  match weights with
  | [] => Ok []
  | _ =>
      if F64.is_zero total_weight then Raise ZeroDivisionError
      else Ok (map (fun kv => (fst kv, F64.div (snd kv) total_weight)) weights)
  end.
Proof.
  intros total_weight. unfold normalize_weights. fold total_weight.
  destruct (F64.is_zero total_weight) eqn:Hz.
  - destruct weights as [|kv ws]; [reflexivity|].
    cbn [mapM]. unfold py_div. rewrite Hz. reflexivity.
  - rewrite mapM_py_div by exact Hz. destruct weights; reflexivity.
Qed.

(** X5. With explicit weights, on a non-empty table, the valuation raises
    in two cases only: ZeroDivisionError when the weights are not empty and
    their total is zero, and otherwise KeyError for a column that has no
    weight.  In every other case it returns one value per date. *)
Theorem compute_portfolio_value_errors data weights initial_value :
  df_empty data = false ->
  let total_weight := py_sum (map snd weights) in
  match compute_portfolio_value data (Some weights) initial_value with
  | Ok v =>
      F64.is_zero total_weight = false /\
      (forall t, In t (map fst (columns data)) -> In t (map fst weights)) /\
      List.length v = List.length (index data)
  | Raise e =>
      (e = ZeroDivisionError /\ weights <> [] /\ F64.is_zero total_weight = true) \/
      (exists t, e = KeyError t /\ In t (map fst (columns data)) /\
                 ~ In t (map fst weights) /\
                 (weights = [] \/ F64.is_zero total_weight = false))
  end.
Proof.
  intros Hdata total_weight. unfold compute_portfolio_value. rewrite Hdata.
  apply df_empty_false in Hdata. destruct Hdata as [_ Hcols].
  rewrite normalize_given_weights. fold total_weight.
  destruct weights as [|kv ws].
  - cbn [bind]. destruct (columns data) as [|c cols]; [contradiction|].
    cbn [mapM bind dict_get dict_find]. right. exists (fst c).
    cbn [map In]. auto.
  - destruct (F64.is_zero total_weight) eqn:Hz; cbn [bind].
    + left. repeat split. discriminate.
    + set (weights' := map (fun kv0 => (fst kv0, F64.div (snd kv0) total_weight)) (kv :: ws)).
      pose proof (mapM_dict_get_cases weights' (columns data)) as Hget.
      assert (Hkeys : map fst weights' = map fst (kv :: ws)).
      { subst weights'. rewrite map_map. reflexivity. }
      unfold dict in *.
      destruct (mapM (fun c : string * Series => dict_get weights' (fst c)) (columns data))
        as [vs|e]; cbn [bind].
      * rewrite Hkeys in Hget. split; [reflexivity|]. split; [exact Hget|]. apply value_length.
      * right. destruct Hget as (t & -> & Hin & Hout). rewrite Hkeys in Hout.
        exists t. auto.
Qed.

Lemma compute_portfolio_value_errors_witness :
  df_empty two_assets = false /\
  compute_portfolio_value two_assets (Some [("A", F64.one)]) default_initial_value
    = Raise (KeyError "B") /\
  exists v,
    compute_portfolio_value two_assets (Some [("A", F64.one); ("B", F64.one)])
      default_initial_value = Ok v /\
    List.length v = 3%nat.
Proof.
  split; [reflexivity|]. split; [reflexivity|].
  generalize (compute_portfolio_value_errors two_assets [("A", F64.one); ("B", F64.one)]
                default_initial_value eq_refl).
  cbv zeta.
  destruct (compute_portfolio_value two_assets (Some [("A", F64.one); ("B", F64.one)])
              default_initial_value) as [v|e] eqn:E.
  - intros (_ & _ & Hl). exists v. split; [reflexivity | exact Hl].
  - vm_compute in E. discriminate E.
Defined.

(** ** Metrics of short series *)

Lemma series_std_few s : (List.length s <= 1)%nat -> series_std s = F64.nan.
Proof.
  intros Hlen. unfold series_std, series_var.
  assert (Hcount : count s - 1 <= 0).
  { unfold count. pose proof (dropna_length s). lia. }
  destruct (Z.leb_spec (count s - 1) 0); [reflexivity | lia].
Qed.

(** X6. For a series of at most two points the metrics raise exactly when
    the series is empty; with one or two points there is at most one daily
    return, so the Annual Volatility is NaN. *)
Theorem volatility_undefined_below_three_points portfolio_value :
  (List.length portfolio_value <= 2)%nat ->
  match compute_portfolio_metrics portfolio_value with
  | Ok m => portfolio_value <> [] /\ annual_volatility m = F64.nan
  | Raise _ => portfolio_value = []
  end.
Proof.
  intros Hlen. destruct portfolio_value as [|x s]; [reflexivity|].
  destruct (metrics_defined (x :: s)) as (m & E & _); [discriminate|].
  rewrite E. split; [discriminate|].
  unfold compute_portfolio_metrics in E.
  destruct (cumulative_return_of (x :: s)) as [cr|e]; cbn [bind] in E; [|discriminate].
  inversion E. cbn [annual_volatility].
  rewrite series_std_few; [reflexivity|].
  pose proof (daily_returns_length (x :: s)). lia.
Qed.

Lemma volatility_undefined_below_three_points_witness :
  exists m,
    compute_portfolio_metrics [F64.of_Z 100; F64.of_Z 90] = Ok m /\
    annual_volatility m = F64.nan.
Proof.
  generalize (volatility_undefined_below_three_points [F64.of_Z 100; F64.of_Z 90]).
  destruct (compute_portfolio_metrics [F64.of_Z 100; F64.of_Z 90]) as [m|e].
  - intros H. exists m. split; [reflexivity|]. apply H. simpl. lia.
  - intros H. discriminate H. simpl. lia.
Defined.

(** X7. On a series of a single finite, non-zero value the cumulative
    return is 0, the Annual Volatility is NaN and the Max Drawdown is a
    zero. *)
Theorem metrics_single_point x :
  F64.is_finite x = true -> F64.is_zero x = false ->
  exists m,
    compute_portfolio_metrics [x] = Ok m /\
    cumulative_return m = F64.zero /\
    annual_volatility m = F64.nan /\
    F64.is_zero (max_drawdown m) = true.
Proof.
  intros Hfin Hnz. destruct x as [s|s| |s p e]; try discriminate.
  eexists. split; [reflexivity|]. cbn [cumulative_return annual_volatility max_drawdown].
  split; [|split].
  - rewrite div_diag. reflexivity.
  - reflexivity.
  - unfold drawdown_of, cummax. cbn [cummax_from F64.is_nan].
    rewrite fmax_neg_infinity by reflexivity.
    cbn [zip_with]. rewrite sub_diag by reflexivity.
    reflexivity.
Qed.

Lemma metrics_single_point_witness :
  exists m,
    compute_portfolio_metrics [F64.of_Z 100] = Ok m /\
    cumulative_return m = F64.zero /\
    annual_volatility m = F64.nan /\
    F64.is_zero (max_drawdown m) = true.
Proof. apply (metrics_single_point (F64.of_Z 100)); reflexivity. Defined.

(** X8. With at most one negative daily return the downside deviation
    (ddof=1) is undefined and the Sortino ratio is NaN: one losing day is
    not enough. *)
Theorem sortino_undefined_single_downside portfolio_values risk_free_rate :
  (List.length (filter (fun r => F64.ltb r F64.zero)
                       (dropna (pct_change portfolio_values))) <= 1)%nat ->
  compute_sortino_ratio portfolio_values risk_free_rate = F64.nan.
Proof.
  intros Hlen. unfold compute_sortino_ratio.
  rewrite (series_std_few _ Hlen).
  change (F64.eqb F64.nan F64.zero) with false. cbv iota.
  rewrite div_nan_r. reflexivity.
Qed.

Lemma sortino_undefined_single_downside_witness :
  compute_sortino_ratio dipping_series default_risk_free_rate = F64.nan.
Proof.
  apply (sortino_undefined_single_downside dipping_series).
  vm_compute. lia.
Defined.

(** ** Alerts: sign and thresholds *)

Lemma rank_neg x :
  rank (F64.neg x) =
  let '(a, b, c) := rank x in (- a, - b, - c).
Proof. destruct x as [s|[]| |[] m e]; cbn; try reflexivity; rewrite ?Z.opp_involutive; reflexivity. Qed.

Lemma is_nan_neg x : F64.is_nan (F64.neg x) = F64.is_nan x.
Proof. destruct x; reflexivity. Qed.

(** Negation reverses the order. *)
Lemma neg_antitone x y : F64.leb x y = true -> F64.leb (F64.neg y) (F64.neg x) = true.
Proof.
  intros H. destruct (leb_not_nan _ _ H) as [Hx Hy].
  apply leb_rank in H. apply rank_leb; rewrite ?is_nan_neg; try assumption.
  rewrite !rank_neg. unfold lex_le, lex_lt in *.
  destruct (rank x) as [[a1 a2] a3], (rank y) as [[b1 b2] b3].
  destruct H as [H|H]; [left; lia | right; inversion H; reflexivity].
Qed.

Lemma neg_involutive x : F64.neg (F64.neg x) = x.
Proof. destruct x as [s|s| |s m e]; cbn; rewrite ?negb_involutive; reflexivity. Qed.

(** The change of the first point against itself. *)
Lemma first_change_zero first :
  F64.is_finite first = true -> F64.is_zero first = false ->
  F64.mul (F64.sub (F64.div first first) F64.one) hundred = F64.zero.
Proof.
  intros Hfin Hnz. destruct first as [s|s| |s p e]; try discriminate.
  rewrite div_diag. reflexivity.
Qed.

(** X9. The worst change relative to the first value is never positive
    when the first value is finite and not zero, because the first point
    changes by 0 against itself.  So a threshold of 0 (the least the
    settings allow) or below always yields a portfolio alert. *)
Theorem portfolio_drop_never_positive first rest threshold_pct :
  F64.is_finite first = true -> F64.is_zero first = false ->
  let portfolio_value := first :: rest in
  let drop_pct :=
    map (fun v => F64.mul (F64.sub (F64.div v first) F64.one) hundred) portfolio_value in
  F64.leb (series_min drop_pct) F64.zero = true /\
  (F64.leb F64.zero (F64.neg threshold_pct) = true ->
   check_portfolio_drop portfolio_value threshold_pct =
     Some (portfolio_message (series_min drop_pct) threshold_pct)).
Proof.
  intros Hfin Hnz portfolio_value drop_pct.
  assert (Hmin : F64.leb (series_min drop_pct) F64.zero = true).
  { apply series_min_leb_iff. exists F64.zero. split; [|reflexivity].
    subst drop_pct portfolio_value. cbn [map]. left.
    apply first_change_zero; assumption. }
  split; [exact Hmin|]. intros Ht.
  unfold check_portfolio_drop, portfolio_value. fold portfolio_value. fold drop_pct.
  rewrite (leb_trans _ _ _ Hmin Ht). reflexivity.
Qed.

Lemma portfolio_drop_never_positive_witness :
  check_portfolio_drop rising_series F64.zero =
  Some (portfolio_message F64.zero F64.zero).
Proof.
  generalize (portfolio_drop_never_positive (F64.of_Z 100) [F64.of_Z 110; F64.of_Z 121]
                F64.zero eq_refl eq_refl).
  cbv zeta. intros [_ H]. unfold rising_series. rewrite (H eq_refl). vm_compute. reflexivity.
Defined.

Lemma flat_map_length_le {A B : Type} (f g : A -> list B) l :
  (forall a, (List.length (f a) <= List.length (g a))%nat) ->
  (List.length (flat_map f l) <= List.length (flat_map g l))%nat.
Proof.
  intros H. induction l as [|a l IH]; [apply le_n|].
  cbn [flat_map]. rewrite !length_app. specialize (H a). lia.
Qed.

(** X10. Alerts are monotone in the threshold: when the threshold is
    lowered, a portfolio alert stays, and every symbol keeps at least the
    alerts it had. *)
Theorem alerts_monotone_in_threshold data tickers portfolio_value lower threshold_pct :
  F64.leb lower threshold_pct = true ->
  (check_portfolio_drop portfolio_value threshold_pct <> None ->
   check_portfolio_drop portfolio_value lower <> None) /\
  (List.length (check_stock_drops data tickers threshold_pct)
   <= List.length (check_stock_drops data tickers lower))%nat /\
  (forall a,
     List.length (alerts_naming a (check_stock_drops data tickers threshold_pct))
     <= List.length (alerts_naming a (check_stock_drops data tickers lower)))%nat.
Proof.
  intros Hle. apply neg_antitone in Hle.
  assert (Hstep : forall m, F64.leb m (F64.neg threshold_pct) = true ->
                            F64.leb m (F64.neg lower) = true).
  { intros m Hm. exact (leb_trans _ _ _ Hm Hle). }
  split; [|split].
  - unfold check_portfolio_drop. destruct portfolio_value as [|first rest]; [tauto|].
    cbv zeta.
    destruct (F64.leb _ (F64.neg threshold_pct)) eqn:E; [|tauto].
    rewrite (Hstep _ E). discriminate.
  - unfold check_stock_drops. destruct (df_empty data); [apply le_n|]. cbv zeta.
    apply flat_map_length_le. intros t.
    destruct (dict_find (daily_change_of data) t) as [col|]; [|apply le_n].
    destruct (F64.leb (series_min col) (F64.neg threshold_pct)) eqn:E.
    + rewrite (Hstep _ E). apply le_n.
    + cbn [List.length]. lia.
  - intros a. unfold check_stock_drops. destruct (df_empty data); [apply le_n|]. cbv zeta.
    induction tickers as [|t tickers IH]; [apply le_n|].
    cbn [flat_map]. rewrite !alerts_naming_app, !length_app.
    assert (List.length (alerts_naming a
              match dict_find (daily_change_of data) t with
              | Some col =>
                  if F64.leb (series_min col) (F64.neg threshold_pct)
                  then [stock_message t (series_min col) threshold_pct] else []
              | None => []
              end)
            <= List.length (alerts_naming a
              match dict_find (daily_change_of data) t with
              | Some col =>
                  if F64.leb (series_min col) (F64.neg lower)
                  then [stock_message t (series_min col) lower] else []
              | None => []
              end))%nat; [|lia].
    destruct (dict_find (daily_change_of data) t) as [col|]; [|apply le_n].
    destruct (F64.leb (series_min col) (F64.neg threshold_pct)) eqn:E.
    + rewrite (Hstep _ E). unfold alerts_naming, stock_message. cbn [filter names].
      destruct (String.eqb t a); apply le_n.
    + apply Nat.le_0_l.
Qed.

Lemma alerts_monotone_in_threshold_witness :
  check_portfolio_drop dipping_series (F64.of_Z 8) <> None /\
  check_portfolio_drop dipping_series (F64.of_Z 5) <> None.
Proof.
  assert (H : check_portfolio_drop dipping_series (F64.of_Z 8) <> None).
  { intros E. vm_compute in E. discriminate E. }
  split; [exact H|].
  apply (alerts_monotone_in_threshold two_day_drop ["A"] dipping_series
           (F64.of_Z 5) (F64.of_Z 8)); [reflexivity | exact H].
Defined.

(** ** The latest day against the whole period *)

Lemma iloc_last_In s x : iloc_last s = Ok x -> In x s.
Proof.
  unfold iloc_last. destruct (rev s) as [|y l] eqn:E; [discriminate|].
  intros H. inversion H. subst y. apply in_rev. rewrite E. left. reflexivity.
Qed.

(** A change that is shown and is not a rise is a drop of at least the
    threshold. *)
Lemma shown_drop change threshold :
  F64.leb threshold (F64.abs change) = true -> F64.ltb F64.zero change = false ->
  F64.leb change (F64.neg threshold) = true.
Proof.
  intros Hshown Hred.
  assert (Hc : F64.is_nan change = false).
  { destruct (leb_not_nan _ _ Hshown) as [_ H]. destruct change; easy. }
  apply not_ltb_leb in Hred; [|reflexivity|exact Hc].
  rewrite <- (neg_involutive change). apply neg_antitone.
  destruct change as [s|[]| |[] m e]; try discriminate; exact Hshown.
Qed.

Lemma ltb_not_leb x y : F64.ltb x y = true -> F64.leb y x = false.
Proof.
  intros H. destruct (F64.leb y x) eqn:E; [|reflexivity].
  exfalso. exact (lex_lt_irrefl _ _ (ltb_rank _ _ H) (leb_rank _ _ E)).
Qed.

Lemma mapM_In {A B : Type} (f : A -> result B) l bs b :
  mapM f l = Ok bs -> In b bs -> exists a, In a l /\ f a = Ok b.
Proof.
  revert bs. induction l as [|a l IH]; intros bs; cbn [mapM].
  - intros E. inversion E. intros [].
  - destruct (f a) as [b0|e] eqn:Ea; cbn [bind]; [|discriminate].
    destruct (mapM f l) as [bs'|e]; cbn [bind]; [|discriminate].
    intros E. inversion E. subst bs. intros [<-|Hin].
    + exists a. split; [left; reflexivity | exact Ea].
    + destruct (IH bs' eq_refl Hin) as (a' & Ha' & Ef). exists a'. split; [right|]; assumption.
Qed.

Lemma day_line_In l label change threshold :
  In l (day_line label change threshold) ->
  F64.leb threshold (F64.abs change) = true /\
  l = {| line_rising := F64.ltb F64.zero change; line_label := label; line_change := change |}.
Proof.
  unfold day_line. destruct (F64.leb threshold (F64.abs change)); [|intros []].
  intros [<-|[]]. split; reflexivity.
Qed.

Lemma alerts_naming_listed data threshold_pct t tickers :
  In t tickers -> stock_alert data threshold_pct t <> [] ->
  alerts_naming t (flat_map (stock_alert data threshold_pct) tickers) <> [].
Proof.
  intros Hin Hne. induction tickers as [|t' tickers IH]; [destruct Hin|].
  cbn [flat_map]. rewrite alerts_naming_app.
  destruct Hin as [->|Hin].
  - rewrite alerts_naming_stock_alert, String.eqb_refl.
    destruct (stock_alert data threshold_pct t); [contradiction | discriminate].
  - specialize (IH Hin). intros E. apply app_eq_nil in E. destruct E as [_ E]. contradiction.
Qed.

(** X11. The panel of the latest day agrees with the cumulative alerts
    computed beside it with the same thresholds: a red line for the
    portfolio (a latest change that is shown and is not a rise) comes with a
    cumulative portfolio alert, a red line for a symbol comes with a
    cumulative alert naming that symbol, and the message that nothing
    significant changed is shown only when no line is. *)
Theorem latest_drop_is_a_cumulative_alert data tickers portfolio_value
    portfolio_threshold stock_threshold report :
  df_empty data = false ->
  latest_day_changes data tickers portfolio_value portfolio_threshold stock_threshold
    = Ok report ->
  (forall l, In l (portfolio_lines report) -> line_rising l = false ->
     check_portfolio_drop portfolio_value portfolio_threshold <> None) /\
  (forall l, In l (stock_lines report) -> line_rising l = false ->
     alerts_naming (line_label l) (check_stock_drops data tickers stock_threshold) <> []) /\
  (no_significant_changes report = true ->
     portfolio_lines report = [] /\ stock_lines report = []).
Proof.
  intros Hdata. unfold latest_day_changes.
  destruct portfolio_value as [|first rest]; [discriminate|].
  cbn [iloc_first bind].
  set (drop_pct := map (fun v => F64.mul (F64.sub (F64.div v first) F64.one) hundred)
                       (first :: rest)).
  destruct (iloc_last drop_pct) as [latest|e] eqn:Elast; cbn [bind]; [|discriminate].
  destruct (mapM _ tickers) as [stocks|e] eqn:Estocks; cbn [bind]; [|discriminate].
  intros E. injection E as E. subst report.
  cbn [portfolio_lines stock_lines no_significant_changes].
  split; [|split].
  - intros l Hl Hred. apply day_line_In in Hl. destruct Hl as [Hshown ->].
    cbn [line_rising] in Hred.
    pose proof (shown_drop _ _ Hshown Hred) as Hdrop.
    unfold check_portfolio_drop. fold drop_pct.
    replace (F64.leb (series_min drop_pct) (F64.neg portfolio_threshold)) with true;
      [discriminate|].
    symmetry. apply series_min_leb_iff. exists latest. split; [|exact Hdrop].
    apply iloc_last_In. exact Elast.
  - intros l Hl Hred. apply in_concat in Hl. destruct Hl as (lines & Hlines & Hl).
    destruct (mapM_In _ _ _ _ Estocks Hlines) as (t & Ht & Ef).
    unfold dict_get in Ef.
    destruct (dict_find (daily_change_of data) t) as [col|] eqn:Ecol; cbn [bind] in Ef;
      [|discriminate].
    destruct (iloc_last col) as [c|e] eqn:Ec; cbn [bind] in Ef; [|discriminate].
    inversion Ef. subst lines. apply day_line_In in Hl. destruct Hl as [Hshown ->].
    cbn [line_rising line_label] in *.
    pose proof (shown_drop _ _ Hshown Hred) as Hdrop.
    rewrite (check_stock_drops_unfold data stock_threshold Hdata).
    apply alerts_naming_listed; [exact Ht|].
    unfold stock_alert, worst_daily_change. rewrite Ecol. cbn [option_map].
    replace (F64.leb (series_min col) (F64.neg stock_threshold)) with true; [discriminate|].
    symmetry. apply series_min_leb_iff. exists c. split; [|exact Hdrop].
    apply iloc_last_In. exact Ec.
  - intros Hq. apply andb_true_iff in Hq. destruct Hq as [Hp Hs].
    split.
    + unfold day_line. rewrite (ltb_not_leb _ _ Hp). reflexivity.
    + apply negb_true_iff in Hs. clear Estocks.
      induction stocks as [|lines stocks IH]; [reflexivity|].
      cbn [existsb] in Hs. apply orb_false_iff in Hs. destruct Hs as [H1 H2].
      destruct lines; [|discriminate]. cbn [List.concat app]. apply IH. exact H2.
Qed.

Lemma latest_drop_is_a_cumulative_alert_witness :
  exists report,
    latest_day_changes two_day_drop ["A"] [F64.of_Z 100; F64.of_Z 90]
      (F64.of_Z 5) (F64.of_Z 5) = Ok report /\
    List.length (portfolio_lines report) = 1%nat /\
    List.length (stock_lines report) = 1%nat /\
    check_portfolio_drop [F64.of_Z 100; F64.of_Z 90] (F64.of_Z 5) <> None /\
    alerts_naming "A" (check_stock_drops two_day_drop ["A"] (F64.of_Z 5)) <> [].
Proof.
  destruct (latest_day_changes two_day_drop ["A"] [F64.of_Z 100; F64.of_Z 90]
              (F64.of_Z 5) (F64.of_Z 5)) as [report|e] eqn:E;
    [|vm_compute in E; discriminate E].
  exists report. split; [reflexivity|].
  destruct (latest_drop_is_a_cumulative_alert two_day_drop ["A"]
              [F64.of_Z 100; F64.of_Z 90] (F64.of_Z 5) (F64.of_Z 5) report eq_refl E)
    as (Hp & Hs & _).
  vm_compute in E. inversion E. subst report.
  cbn [portfolio_lines stock_lines List.length].
  split; [reflexivity|]. split; [reflexivity|]. split.
  - eapply Hp; [left; reflexivity | reflexivity].
  - eapply (Hs {| line_rising := false; line_label := "A"; line_change := _ |});
      [left; reflexivity | reflexivity].
Defined.

(** ** The drawdown curve *)

Lemma cummax_from_length acc s : List.length (cummax_from acc s) = List.length s.
Proof.
  revert acc. induction s as [|x s IH]; intros acc; [reflexivity|].
  cbn [cummax_from]. destruct (F64.is_nan x); cbn [List.length]; rewrite IH; reflexivity.
Qed.

(** A non-positive float times a positive one is not positive. *)
Lemma mul_le_zero x m e :
  F64.leb x F64.zero = true ->
  F64.leb (F64.mul x (S754_finite false m e)) F64.zero = true.
Proof.
  intros Hx. destruct x as [sx|sx| |sx mx ex]; try discriminate.
  - destruct sx; reflexivity.
  - destruct sx; [reflexivity | discriminate].
  - destruct sx; [|discriminate].
    apply signed_true_le_zero. unfold F64.mul, SFmul.
    apply (binary_round_aux_signed (xorb true false)). lia.
Qed.

Lemma hundred_unfold : hundred = S754_finite false 7036874417766400 (-46).
Proof. reflexivity. Qed.

Lemma drawdown_step d c :
  F64.leb d F64.zero = true -> positive_value c = true ->
  F64.leb (F64.mul (F64.div d c) hundred) F64.zero = true.
Proof.
  intros Hd Hc. destruct (positive_value_inv c Hc) as (m & e & -> & _).
  rewrite hundred_unfold. apply mul_le_zero. apply div_le_zero. exact Hd.
Qed.

Lemma drawdown_curve_from_nonpositive acc s :
  below_peak acc -> forallb positive_value s = true ->
  Forall (fun d => F64.leb d F64.zero = true)
    (map (fun d => F64.mul d hundred)
         (zip_with F64.div (zip_with F64.sub s (cummax_from acc s)) (cummax_from acc s))).
Proof.
  revert acc. induction s as [|x s IH]; intros acc Hacc Hs; [constructor|].
  cbn [forallb] in Hs. split_andb Hs Hx Hs.
  destruct (sub_cummax_step acc x Hacc Hx) as [Hd Hc].
  cbn [cummax_from].
  assert (Hn : F64.is_nan x = false)
    by (destruct x as [?|?| |[] ? ?]; try discriminate; reflexivity).
  rewrite Hn. cbn [zip_with map].
  constructor; [apply drawdown_step; assumption|].
  apply IH; [right; exact Hc | exact Hs].
Qed.

Lemma drawdown_curve_length prices :
  List.length (drawdown_curve prices) = List.length prices.
Proof.
  unfold drawdown_curve, cummax.
  rewrite length_map, !zip_with_length, cummax_from_length. lia.
Qed.

Lemma drawdown_curve_nth prices i :
  (i < List.length prices)%nat ->
  nth i (drawdown_curve prices) F64.nan =
  F64.mul (F64.div (F64.sub (nth i prices F64.nan) (nth i (cummax prices) F64.nan))
                   (nth i (cummax prices) F64.nan)) hundred.
Proof.
  intros Hi. unfold drawdown_curve.
  assert (Hc : List.length (cummax prices) = List.length prices)
    by apply cummax_from_length.
  rewrite (nth_indep _ F64.nan (F64.mul F64.nan hundred))
    by (rewrite length_map, !zip_with_length; lia).
  rewrite (map_nth (fun d => F64.mul d hundred)).
  rewrite (zip_with_nth F64.div _ _ i F64.nan F64.nan)
    by (rewrite ?zip_with_length; lia).
  rewrite (zip_with_nth F64.sub _ _ i F64.nan F64.nan) by lia.
  reflexivity.
Qed.

(** X12. For a column of positive prices the drawdown curve has one
    entry per date, no entry is above 0, and the entry is exactly 0 on
    every date whose price is the running maximum (the first date among
    them). *)
Theorem plot_drawdown_nonpositive df ticker prices :
  dict_find (columns df) ticker = Some prices ->
  forallb positive_value prices = true ->
  exists curve,
    plot_drawdown df ticker = Ok curve /\
    List.length curve = List.length prices /\
    Forall (fun d => F64.leb d F64.zero = true) curve /\
    (forall i, (i < List.length prices)%nat ->
       nth i (cummax prices) F64.nan = nth i prices F64.nan ->
       nth i curve F64.nan = F64.zero) /\
    (prices <> [] -> hd F64.nan curve = F64.zero).
Proof.
  intros Hcol Hpos. exists (drawdown_curve prices).
  assert (Hnew : forall i, (i < List.length prices)%nat ->
            nth i (cummax prices) F64.nan = nth i prices F64.nan ->
            nth i (drawdown_curve prices) F64.nan = F64.zero).
  { intros i Hi Hpeak. rewrite drawdown_curve_nth by exact Hi. rewrite Hpeak.
    assert (Hp : positive_value (nth i prices F64.nan) = true).
    { rewrite forallb_forall in Hpos. apply Hpos. apply nth_In. exact Hi. }
    destruct (positive_value_inv _ Hp) as (m & e & -> & _).
    rewrite sub_diag by reflexivity. reflexivity. }
  split; [unfold plot_drawdown, dict_get; rewrite Hcol; reflexivity|].
  split; [apply drawdown_curve_length|].
  split; [apply drawdown_curve_from_nonpositive; [left; reflexivity | exact Hpos]|].
  split; [exact Hnew|].
  intros Hne. destruct prices as [|x s]; [contradiction|].
  specialize (Hnew 0%nat). cbn [List.length] in Hnew.
  replace (hd F64.nan (drawdown_curve (x :: s)))
    with (nth 0 (drawdown_curve (x :: s)) F64.nan)
    by (destruct (drawdown_curve (x :: s)); reflexivity).
  apply Hnew; [apply Nat.lt_0_succ|].
  cbn [forallb] in Hpos. split_andb Hpos Hx Hs.
  unfold cummax. cbn [cummax_from].
  assert (Hn : F64.is_nan x = false)
    by (destruct x as [?|?| |[] ? ?]; try discriminate; reflexivity).
  rewrite Hn. cbn [nth]. apply fmax_neg_infinity. exact Hn.
Qed.

Lemma plot_drawdown_nonpositive_witness :
  exists curve,
    plot_drawdown two_day_drop "A" = Ok curve /\
    List.length curve = 2%nat /\
    Forall (fun d => F64.leb d F64.zero = true) curve /\
    hd F64.nan curve = F64.zero.
Proof.
  destruct (plot_drawdown_nonpositive two_day_drop "A" [F64.of_Z 100; F64.of_Z 90]
              eq_refl eq_refl) as (curve & E & Hl & Hall & _ & Hhd).
  exists curve. split; [exact E|]. split; [exact Hl|]. split; [exact Hall|].
  apply Hhd. discriminate.
Defined.

(** ** The contribution traces *)

Lemma dict_find_set {V : Type} (d : dict V) k v k' :
  dict_find (dict_set d k v) k' = if String.eqb k' k then Some v else dict_find d k'.
Proof.
  induction d as [|[k0 v0] d IH]; cbn [dict_set dict_find].
  - reflexivity.
  - destruct (String.eqb_spec k k0) as [->|Hne]; cbn [dict_find].
    + destruct (String.eqb k' k0); reflexivity.
    + rewrite IH. destruct (String.eqb_spec k' k0) as [->|Hne'].
      * destruct (String.eqb_spec k0 k); [congruence | reflexivity].
      * reflexivity.
Qed.

Lemma dict_set_keys {V : Type} (d : dict V) k v :
  In k (map fst d) -> map fst (dict_set d k v) = map fst d.
Proof.
  induction d as [|[k0 v0] d IH]; cbn [dict_set map fst In]; [intros []|].
  intros Hin. destruct (String.eqb_spec k k0) as [->|Hne]; cbn [map fst]; [reflexivity|].
  rewrite IH; [reflexivity|]. destruct Hin as [E|Hin]; [congruence | exact Hin].
Qed.

Lemma dict_find_In {V : Type} (d : dict V) k v :
  dict_find d k = Some v -> In k (map fst d).
Proof.
  intros E. destruct (in_dec string_dec k (map fst d)) as [H|H]; [exact H|].
  apply dict_find_none in H. congruence.
Qed.

Lemma dict_find_NoDup {V : Type} (d : dict V) kv :
  NoDup (map fst d) -> In kv d -> dict_find d (fst kv) = Some (snd kv).
Proof.
  induction d as [|[k0 v0] d IH]; cbn [map fst In dict_find]; [intros _ []|].
  intros Hnd Hin. inversion Hnd as [|? ? Hout Hnd']. subst.
  destruct Hin as [<-|Hin]; cbn [fst snd]; [rewrite String.eqb_refl; reflexivity|].
  destruct (String.eqb_spec (fst kv) k0) as [E|_]; [|apply IH; assumption].
  exfalso. apply Hout. rewrite <- E. apply in_map. exact Hin.
Qed.

Lemma scale_fold_raise weights ks e :
  fold_left (scale_step weights) ks (Raise e) = Raise e.
Proof. induction ks as [|k ks IH]; [reflexivity | exact IH]. Qed.

Lemma scale_fold_spec weights ks :
  NoDup ks -> (forall k, In k ks -> In k (map fst weights)) ->
  forall cols,
  match fold_left (scale_step weights) ks (Ok cols) with
  | Ok cols' =>
      (forall k, In k ks -> In k (map fst cols)) /\
      map fst cols' = map fst cols /\
      forall t, dict_find cols' t =
                if existsb (String.eqb t) ks
                then option_map (scaled weights t) (dict_find cols t)
                else dict_find cols t
  | Raise e => exists t, e = KeyError t /\ In t ks /\ ~ In t (map fst cols)
  end.
Proof.
  induction ks as [|k ks IH]; intros Hnd Hks cols.
  - cbn [fold_left existsb]. split; [intros k []|]. split; reflexivity.
  - inversion Hnd as [|? ? Hout Hnd']. subst.
    cbn [fold_left]. unfold scale_step at 2. cbn [bind]. unfold dict_get.
    destruct (dict_find cols k) as [col|] eqn:Ecol; cbn [bind].
    + destruct (dict_find_some weights k) as [w Ew]; [apply Hks; left; reflexivity|].
      rewrite Ew. cbn [bind].
      assert (Hk : In k (map fst cols)) by (eapply dict_find_In; exact Ecol).
      specialize (IH Hnd' (fun k' H => Hks k' (or_intror H))
                     (dict_set cols k (map (fun p => F64.mul p w) col))).
      destruct (fold_left (scale_step weights) ks _) as [cols'|e].
      * destruct IH as (Hin & Hkeys & Hfind). rewrite dict_set_keys in Hkeys, Hin by exact Hk.
        split; [intros k' [<-|Hk']; [exact Hk | apply Hin; exact Hk']|].
        split; [exact Hkeys|].
        intros t. rewrite Hfind, dict_find_set. cbn [existsb].
        destruct (String.eqb_spec t k) as [->|Hne]; cbn [orb].
        -- replace (existsb (String.eqb k) ks) with false.
           ++ rewrite Ecol. cbn [option_map]. unfold scaled. rewrite Ew. reflexivity.
           ++ symmetry. apply not_true_is_false. intros H. apply existsb_exists in H.
              destruct H as (k' & Hk' & E). apply String.eqb_eq in E. subst k'. contradiction.
        -- reflexivity.
      * destruct IH as (t & -> & Hin & Hnot). rewrite dict_set_keys in Hnot by exact Hk.
        exists t. split; [reflexivity|]. split; [right; exact Hin | exact Hnot].
    + rewrite scale_fold_raise. exists k. split; [reflexivity|].
      split; [left; reflexivity | apply dict_find_none; exact Ecol].
Qed.

Lemma scale_columns_spec cols weights :
  NoDup (map fst weights) ->
  match scale_columns cols weights with
  | Ok cols' =>
      (forall k, In k (map fst weights) -> In k (map fst cols)) /\
      map fst cols' = map fst cols /\
      forall t, dict_find cols' t =
                if existsb (String.eqb t) (map fst weights)
                then option_map (scaled weights t) (dict_find cols t)
                else dict_find cols t
  | Raise e => exists t, e = KeyError t /\ In t (map fst weights) /\ ~ In t (map fst cols)
  end.
Proof.
  intros Hnd. exact (scale_fold_spec weights (map fst weights) Hnd (fun k H => H) cols).
Qed.

Lemma mapM_traces (df : dict Series) (ks : list string) :
  (forall k, In k ks -> In k (map fst df)) ->
  mapM (fun t => col <- dict_get df t ;; Ok (t, col)) ks =
  Ok (map (fun t => (t, match dict_find df t with Some col => col | None => [] end)) ks).
Proof.
  induction ks as [|k ks IH]; intros H; [reflexivity|].
  cbn [mapM map]. unfold dict_get at 1.
  destruct (dict_find_some df k) as [col ->]; [apply H; left; reflexivity|].
  cbn [bind]. rewrite IH by (intros k' Hk'; apply H; right; exact Hk'). reflexivity.
Qed.

(** X13. The contribution chart needs a column for every key of the
    weights: it raises KeyError for a key the table has no column for, and
    otherwise draws, for each key in order, that column multiplied entry by
    entry by its weight. *)
Theorem contributions_need_every_weighted_column data weights :
  NoDup (map fst weights) ->
  match plot_portfolio_contributions data weights with
  | Ok traces =>
      (forall t, In t (map fst weights) -> In t (map fst (columns data))) /\
      traces =
        map (fun kv =>
               (fst kv,
                map (fun p => F64.mul p (snd kv))
                    match dict_find (columns data) (fst kv) with
                    | Some col => col
                    | None => []
                    end))
            weights
  | Raise e =>
      exists t, e = KeyError t /\ In t (map fst weights) /\ ~ In t (map fst (columns data))
  end.
Proof.
  intros Hnd. unfold plot_portfolio_contributions.
  pose proof (scale_columns_spec (columns data) weights Hnd) as Hfold.
  destruct (scale_columns (columns data) weights) as [df|e]; cbn [bind]; [|exact Hfold].
  destruct Hfold as (Hin & Hkeys & Hfind).
  rewrite mapM_traces by (intros k Hk; rewrite Hkeys; apply Hin; exact Hk).
  split; [exact Hin|].
  rewrite map_map. apply map_ext_in. intros kv Hkv. f_equal.
  assert (Hk : In (fst kv) (map fst weights)) by (apply in_map; exact Hkv).
  rewrite Hfind.
  replace (existsb (String.eqb (fst kv)) (map fst weights)) with true
    by (symmetry; apply existsb_exists; exists (fst kv); split;
        [exact Hk | apply String.eqb_refl]).
  destruct (dict_find_some (columns data) (fst kv) (Hin _ Hk)) as [col ->].
  cbn [option_map]. unfold scaled. rewrite (dict_find_NoDup weights kv Hnd Hkv). reflexivity.
Qed.

Lemma contributions_need_every_weighted_column_witness :
  plot_portfolio_contributions two_assets [("A", one_half); ("C", one_half)]
    = Raise (KeyError "C") /\
  exists traces,
    plot_portfolio_contributions two_assets [("A", one_half); ("B", one_half)] = Ok traces /\
    map fst traces = ["A"; "B"].
Proof.
  split; [reflexivity|].
  assert (Hnd : NoDup (map fst [("A", one_half); ("B", one_half)])).
  { repeat constructor; cbn; intuition discriminate. }
  generalize (contributions_need_every_weighted_column two_assets
                [("A", one_half); ("B", one_half)] Hnd).
  destruct (plot_portfolio_contributions two_assets [("A", one_half); ("B", one_half)])
    as [traces|e] eqn:E.
  - intros [_ ->]. eexists. split; reflexivity.
  - vm_compute in E. discriminate E.
Defined.

(** ** The latest market changes *)

Lemma dict_find_map {V W : Type} (f : V -> W) (d : dict V) k :
  dict_find (map (fun c => (fst c, f (snd c))) d) k = option_map f (dict_find d k).
Proof.
  induction d as [|[k0 v0] d IH]; [reflexivity|].
  cbn [map dict_find fst snd]. destruct (String.eqb k k0); [reflexivity | exact IH].
Qed.

Lemma mapM_latest_row latest_prices changes tickers :
  map fst changes = map fst latest_prices ->
  match mapM (latest_row latest_prices changes) tickers with
  | Ok summary =>
      map row_ticker summary = tickers /\
      (forall t, In t tickers -> In t (map fst latest_prices)) /\
      forall row, In row summary ->
        exists p c, dict_find latest_prices (row_ticker row) = Some p /\
                    dict_find changes (row_ticker row) = Some c /\
                    row = {| row_ticker := row_ticker row;
                             row_price := [Lit "$"; Fixed2 p];
                             row_arrow := if F64.ltb F64.zero c then Up else Down;
                             row_change := [Lit " "; Fixed2 (F64.abs c); Lit "%"] |}
  | Raise _ => exists t, In t tickers /\ ~ In t (map fst latest_prices)
  end.
Proof.
  intros Hkeys. induction tickers as [|t tickers IH].
  - cbn [mapM]. split; [reflexivity|]. split; intros ? [].
  - cbn [mapM]. unfold latest_row at 1. unfold dict_get.
    destruct (dict_find latest_prices t) as [p|] eqn:Ep; cbn [bind].
    + assert (Hin : In t (map fst latest_prices)) by (eapply dict_find_In; exact Ep).
      destruct (dict_find_some changes t) as [c Ec]; [rewrite Hkeys; exact Hin|].
      rewrite Ec. cbn [bind].
      destruct (mapM (latest_row latest_prices changes) tickers) as [summary|e]; cbn [bind].
      * destruct IH as (Hnames & Hall & Hrows).
        split; [cbn [map row_ticker]; rewrite Hnames; reflexivity|].
        split; [intros t' [<-|Ht']; [exact Hin | apply Hall; exact Ht']|].
        intros row [<-|Hrow]; [|apply Hrows; exact Hrow].
        exists p, c. cbn [row_ticker]. auto.
      * destruct IH as (t' & Ht' & Hout). exists t'. split; [right|]; assumption.
    + exists t. split; [left; reflexivity | apply dict_find_none; exact Ep].
Qed.

(** The cases of [get_latest_market_changes]. *)
Lemma latest_changes_cases raw tickers :
  let summary := get_latest_market_changes raw tickers in
  let field := if has_field "Adj Close" (raw_columns raw) then "Adj Close" else "Close" in
  let data :=
    map (fun c => (snd (fst c), ffill (snd c)))
        (filter (fun c => String.eqb (fst (fst c)) field) (raw_columns raw)) in
  (summary = [] \/ map row_ticker summary = tickers) /\
  (summary <> [] <->
   tickers <> [] /\ raw_multi raw = true /\ has_field field (raw_columns raw) = true /\
   (2 <= List.length (raw_index raw))%nat /\
   forall t, In t tickers -> In t (map fst data)) /\
  (forall row, In row summary ->
     exists col,
       dict_find data (row_ticker row) = Some col /\
       row_price row = [Lit "$"; Fixed2 (iloc_back 0 col)] /\
       row_arrow row = (if F64.ltb F64.zero (latest_change col) then Up else Down) /\
       row_change row = [Lit " "; Fixed2 (F64.abs (latest_change col)); Lit "%"]).
Proof.
  intros summary field data.
  assert (Hempty : get_latest_market_changes raw [] = []) by reflexivity.
  destruct tickers as [|t0 tickers'].
  { subst summary. rewrite Hempty. split; [left; reflexivity|].
    split; [split; [intros H; contradiction | intros [H _]; contradiction]|].
    intros row []. }
  set (tickers := t0 :: tickers') in *.
  assert (Hsum : summary =
            match latest_changes_body raw tickers with Ok s => s | Raise _ => [] end)
    by reflexivity.
  unfold latest_changes_body in Hsum. fold field in Hsum.
  assert (Hfield :
    (if has_field "Adj Close" (raw_columns raw) then Some "Adj Close"
     else if has_field "Close" (raw_columns raw) then Some "Close" else None)
    = if has_field field (raw_columns raw) then Some field else None).
  { subst field. destruct (has_field "Adj Close" (raw_columns raw)) eqn:E1;
      [rewrite E1; reflexivity|].
    destruct (has_field "Close" (raw_columns raw)); reflexivity. }
  assert (Hnone : summary = [] ->
            ~ (tickers <> [] /\ raw_multi raw = true /\
               has_field field (raw_columns raw) = true /\
               (2 <= List.length (raw_index raw))%nat /\
               forall t, In t tickers -> In t (map fst data)) ->
            summary = [] /\ forall row : ChangeRow, ~ In row summary).
  { intros E _. rewrite E. split; [reflexivity | intros row []]. }
  assert (Hdone : forall A : Prop, summary = [] -> ~ A ->
            (summary = [] \/ map row_ticker summary = tickers) /\
            (summary <> [] <-> A) /\
            (forall row, In row summary ->
               exists col,
                 dict_find data (row_ticker row) = Some col /\
                 row_price row = [Lit "$"; Fixed2 (iloc_back 0 col)] /\
                 row_arrow row = (if F64.ltb F64.zero (latest_change col) then Up else Down) /\
                 row_change row = [Lit " "; Fixed2 (F64.abs (latest_change col)); Lit "%"])).
  { intros A E Hnot. rewrite E. split; [left; reflexivity|].
    split; [split; [intros H; contradiction | intros H; contradiction]|]. intros row []. }
  clear Hnone.
  rewrite Hfield in Hsum.
  destruct (has_field field (raw_columns raw)) eqn:Hhas;
    [|apply Hdone; [exact Hsum | intros (_ & _ & H & _); discriminate H]].
  destruct (Nat.ltb_spec (List.length (raw_index raw)) 2) as [Hn|Hn];
    [apply Hdone; [exact Hsum | intros (_ & _ & _ & H & _); lia]|].
  destruct (raw_multi raw) eqn:Hmulti;
    [|apply Hdone; [exact Hsum | intros (_ & H & _); discriminate H]].
  cbv zeta in Hsum. fold data in Hsum.
  set (changes := map (fun c : string * Series => (fst c, latest_change (snd c))) data) in *.
  set (latest_prices := map (fun c : string * Series => (fst c, iloc_back 0 (snd c))) data) in *.
  assert (Hkp : map fst latest_prices = map fst data)
    by (subst latest_prices; rewrite map_map; reflexivity).
  assert (Hkc : map fst changes = map fst latest_prices)
    by (subst changes; rewrite Hkp, map_map; reflexivity).
  pose proof (mapM_latest_row latest_prices changes tickers Hkc) as Hrows.
  destruct (mapM (latest_row latest_prices changes) tickers) as [rows|e].
  - destruct Hrows as (Hnames & Hall & Hrows). rewrite Hkp in Hall.
    rewrite Hsum. split; [right; exact Hnames|]. split.
    + split.
      * intros _. split; [discriminate|]. repeat split; assumption.
      * intros _ E. rewrite E in Hnames. discriminate Hnames.
    + intros row Hrow. destruct (Hrows row Hrow) as (p & c & Ep & Ec & Erow).
      subst latest_prices changes.
      rewrite (dict_find_map (iloc_back 0)) in Ep.
      rewrite (dict_find_map latest_change) in Ec.
      destruct (dict_find data (row_ticker row)) as [col|]; [|discriminate].
      cbn [option_map] in Ep, Ec. inversion Ep. inversion Ec. subst p c.
      exists col. rewrite Erow. cbn [row_ticker row_price row_arrow row_change]. auto.
  - apply Hdone; [exact Hsum|]. intros (_ & _ & _ & _ & H).
    destruct Hrows as (t & Ht & Hout). apply Hout. rewrite Hkp. apply H. exact Ht.
Qed.


(** X14. The table of the latest changes is all or nothing: it is empty,
    or it has exactly one row per requested symbol, in the order asked.  It
    has rows exactly when symbols were asked, the download has a two-level
    header with an adjusted close or a close, at least two dates, and a
    column for every symbol asked; one symbol without a column, or a
    single-level header, empties the whole table. *)
Theorem latest_changes_all_or_nothing raw tickers :
  let summary := get_latest_market_changes raw tickers in
  let field := if has_field "Adj Close" (raw_columns raw) then "Adj Close" else "Close" in
  let symbols :=
    map (fun c => snd (fst c))
        (filter (fun c => String.eqb (fst (fst c)) field) (raw_columns raw)) in
  (summary = [] \/ map row_ticker summary = tickers) /\
  (summary <> [] <->
   tickers <> [] /\ raw_multi raw = true /\ has_field field (raw_columns raw) = true /\
   (2 <= List.length (raw_index raw))%nat /\
   forall t, In t tickers -> In t symbols).
Proof.
  intros summary field symbols.
  destruct (latest_changes_cases raw tickers) as (H1 & H2 & _).
  cbv zeta in H2. rewrite map_map in H2. cbn [fst] in H2.
  split; [exact H1 | exact H2].
Qed.

Lemma ffill_from_stale known earlier x :
  F64.is_nan x = false ->
  ffill_from known (earlier ++ [x; F64.nan]) = ffill_from known earlier ++ [x; x].
Proof.
  intros Hx. revert known. induction earlier as [|y earlier IH]; intros known.
  - cbn [app ffill_from F64.is_nan F64.nan]. rewrite Hx. reflexivity.
  - cbn [app ffill_from]. destruct (F64.is_nan y); rewrite IH; reflexivity.
Qed.

(** X15. A row shows the last forward-filled price and the change from
    the date before.  So when a symbol has no price on the latest date and
    a finite, non-zero price x on the date before, its row shows the price
    x, a change of 0 and the down arrow. *)
Theorem stale_quote_shows_no_change raw tickers row earlier x :
  let field := if has_field "Adj Close" (raw_columns raw) then "Adj Close" else "Close" in
  In row (get_latest_market_changes raw tickers) ->
  dict_find (map (fun c => (snd (fst c), snd c))
                 (filter (fun c => String.eqb (fst (fst c)) field) (raw_columns raw)))
            (row_ticker row) = Some (earlier ++ [x; F64.nan]) ->
  F64.is_finite x = true -> F64.is_zero x = false ->
  row_price row = [Lit "$"; Fixed2 x] /\
  row_arrow row = Down /\
  row_change row = [Lit " "; Fixed2 F64.zero; Lit "%"].
Proof.
  intros field Hrow Hcol Hfin Hnz.
  destruct (latest_changes_cases raw tickers) as (_ & _ & Hrows).
  destruct (Hrows row Hrow) as (col & Ecol & -> & -> & ->). clear Hrows.
  fold field in Ecol.
  assert (E : col = ffill earlier ++ [x; x]).
  { assert (Hmap : forall l : list ((string * string) * Series),
              map (fun c => (snd (fst c), ffill (snd c))) l =
              map (fun c => (fst c, ffill (snd c))) (map (fun c => (snd (fst c), snd c)) l))
      by (intros l; rewrite map_map; reflexivity).
    rewrite Hmap, (dict_find_map ffill) in Ecol. unfold dict in *. rewrite Hcol in Ecol.
    cbn [option_map] in Ecol. inversion Ecol.
    apply ffill_from_stale. apply is_finite_not_nan. exact Hfin. }
  assert (H0 : iloc_back 0 col = x).
  { unfold iloc_back. rewrite E, rev_app_distr. reflexivity. }
  assert (Hc : latest_change col = F64.zero).
  { unfold latest_change. rewrite H0. unfold iloc_back. rewrite E, rev_app_distr.
    cbn [rev app nth]. apply first_change_zero; assumption. }
  rewrite H0, Hc. repeat split.
Qed.

Lemma stale_quote_shows_no_change_witness :
  get_latest_market_changes
    {| raw_index := [1; 2; 3]; raw_multi := true;
       raw_columns := [(("Close", "A"), [F64.of_Z 100; F64.of_Z 101; F64.nan])] |}
    ["A"]
  = [{| row_ticker := "A";
        row_price := [Lit "$"; Fixed2 (F64.of_Z 101)];
        row_arrow := Down;
        row_change := [Lit " "; Fixed2 F64.zero; Lit "%"] |}] /\
  format_2f (F64.of_Z 101) = "101.00" /\ format_2f F64.zero = "0.00".
Proof.
  split; [|split; reflexivity].
  set (raw := {| raw_index := [1; 2; 3]; raw_multi := true;
                 raw_columns := [(("Close", "A"), [F64.of_Z 100; F64.of_Z 101; F64.nan])] |}).
  destruct (get_latest_market_changes raw ["A"]) as [|row rows] eqn:E;
    [vm_compute in E; discriminate E|].
  assert (Hrow : In row (get_latest_market_changes raw ["A"]))
    by (rewrite E; left; reflexivity).
  assert (Hname : row_ticker row = "A" /\ rows = []).
  { vm_compute in E. inversion E. split; reflexivity. }
  destruct Hname as [Hname ->].
  destruct (stale_quote_shows_no_change raw ["A"] row [F64.of_Z 100] (F64.of_Z 101) Hrow)
    as (Hp & Ha & Hc); [rewrite Hname; reflexivity | reflexivity | reflexivity |].
  destruct row as [t p a c]. cbn [row_ticker row_price row_arrow row_change] in *.
  subst. reflexivity.
Defined.

(** ** The ticker list *)

Lemma upper_ascii_idem c : upper_ascii (upper_ascii c) = upper_ascii c.
Proof. destruct c as [[] [] [] [] [] [] [] []]; reflexivity. Qed.

Lemma is_space_upper c : is_space (upper_ascii c) = is_space c.
Proof. destruct c as [[] [] [] [] [] [] [] []]; reflexivity. Qed.

Lemma comma_upper c : Ascii.eqb (upper_ascii c) comma = Ascii.eqb c comma.
Proof. destruct c as [[] [] [] [] [] [] [] []]; reflexivity. Qed.

Lemma upper_idem s : upper (upper s) = upper s.
Proof.
  induction s as [|c s IH]; [reflexivity|].
  cbn [upper]. rewrite upper_ascii_idem, IH. reflexivity.
Qed.

Lemma lstrip_upper s : lstrip (upper s) = upper (lstrip s).
Proof.
  induction s as [|c s IH]; [reflexivity|].
  cbn [upper lstrip]. rewrite is_space_upper. destruct (is_space c); [exact IH | reflexivity].
Qed.

Lemma rstrip_upper s : rstrip (upper s) = upper (rstrip s).
Proof.
  induction s as [|c s IH]; [reflexivity|].
  cbn [upper rstrip]. rewrite IH, is_space_upper.
  destruct (rstrip s) as [|c' r]; cbn [upper]; [destruct (is_space c)|]; reflexivity.
Qed.

Lemma strip_upper s : strip (upper s) = upper (strip s).
Proof. unfold strip. rewrite lstrip_upper, rstrip_upper. reflexivity. Qed.

Lemma is_empty_upper s : is_empty (upper s) = is_empty s.
Proof. destruct s; reflexivity. Qed.

Lemma has_comma_upper s : has_comma (upper s) = has_comma s.
Proof.
  induction s as [|c s IH]; [reflexivity|].
  cbn [upper has_comma]. rewrite comma_upper, IH. reflexivity.
Qed.

Lemma rstrip_keeps_head c s :
  is_space c = false -> rstrip (String c s) = String c (rstrip s).
Proof.
  intros Hc. cbn [rstrip]. destruct (rstrip s); [rewrite Hc|]; reflexivity.
Qed.

Lemma rstrip_idem s : rstrip (rstrip s) = rstrip s.
Proof.
  induction s as [|c s IH]; [reflexivity|].
  cbn [rstrip]. destruct (rstrip s) as [|c' r] eqn:E.
  - destruct (is_space c) eqn:Hc; [reflexivity|]. cbn [rstrip]. rewrite Hc. reflexivity.
  - cbn [rstrip]. cbn [rstrip] in IH. rewrite IH. reflexivity.
Qed.

Lemma lstrip_head s :
  lstrip s = EmptyString \/ exists c r, lstrip s = String c r /\ is_space c = false.
Proof.
  induction s as [|c s IH]; [left; reflexivity|].
  cbn [lstrip]. destruct (is_space c) eqn:Hc; [exact IH|].
  right. exists c, s. split; [reflexivity | exact Hc].
Qed.

Lemma strip_idem s : strip (strip s) = strip s.
Proof.
  unfold strip. destruct (lstrip_head s) as [->|(c & r & -> & Hc)]; [reflexivity|].
  rewrite rstrip_keeps_head by exact Hc. cbn [lstrip]. rewrite Hc.
  rewrite <- rstrip_keeps_head by exact Hc. apply rstrip_idem.
Qed.

Lemma has_comma_lstrip s : has_comma s = false -> has_comma (lstrip s) = false.
Proof.
  induction s as [|c s IH]; [reflexivity|].
  cbn [has_comma lstrip]. intros H. apply orb_false_iff in H. destruct H as [H1 H2].
  destruct (is_space c); [apply IH; exact H2|].
  cbn [has_comma]. rewrite H1. exact H2.
Qed.

Lemma has_comma_rstrip s : has_comma s = false -> has_comma (rstrip s) = false.
Proof.
  induction s as [|c s IH]; [reflexivity|].
  cbn [has_comma rstrip]. intros H. apply orb_false_iff in H. destruct H as [H1 H2].
  specialize (IH H2). destruct (rstrip s) as [|c' r].
  - destruct (is_space c); [reflexivity|]. cbn [has_comma]. rewrite H1. reflexivity.
  - cbn [has_comma] in *. rewrite H1. exact IH.
Qed.

Lemma split_comma_not_nil s : split_comma s <> [].
Proof.
  induction s as [|c s IH]; [discriminate|].
  cbn [split_comma]. destruct (Ascii.eqb c comma); [discriminate|].
  destruct (split_comma s); discriminate.
Qed.

Lemma split_comma_pieces s piece : In piece (split_comma s) -> has_comma piece = false.
Proof.
  revert piece. induction s as [|c s IH]; intros piece.
  - intros [<-|[]]. reflexivity.
  - cbn [split_comma]. destruct (Ascii.eqb c comma) eqn:Hc.
    + intros [<-|H]; [reflexivity | apply IH; exact H].
    + destruct (split_comma s) as [|p ps].
      * intros [<-|[]]. cbn [has_comma]. rewrite Hc. reflexivity.
      * intros [<-|H].
        -- cbn [has_comma]. rewrite Hc. apply IH. left. reflexivity.
        -- apply IH. right. exact H.
Qed.

Lemma split_comma_join t rest :
  has_comma t = false ->
  split_comma (t ++ String comma rest) = t :: split_comma rest.
Proof.
  induction t as [|c t IH]; intros H.
  - reflexivity.
  - cbn [has_comma] in H. apply orb_false_iff in H. destruct H as [H1 H2].
    cbn [String.append split_comma]. rewrite H1, (IH H2). reflexivity.
Qed.

Lemma split_comma_single t : has_comma t = false -> split_comma t = [t].
Proof.
  induction t as [|c t IH]; intros H; [reflexivity|].
  cbn [has_comma] in H. apply orb_false_iff in H. destruct H as [H1 H2].
  cbn [split_comma]. rewrite H1, (IH H2). reflexivity.
Qed.

Lemma split_join l :
  l <> [] -> (forall t, In t l -> has_comma t = false) ->
  split_comma (join_comma l) = l.
Proof.
  induction l as [|t l IH]; [contradiction|]. intros _ H.
  destruct l as [|t' l].
  - apply split_comma_single. apply H. left. reflexivity.
  - change (join_comma (t :: t' :: l)) with (t ++ String comma (join_comma (t' :: l)))%string.
    rewrite split_comma_join by (apply H; left; reflexivity).
    rewrite IH; [reflexivity | discriminate | intros u Hu; apply H; right; exact Hu].
Qed.

Lemma fromkeys_In seen l t :
  In t (fromkeys seen l) <-> In t l /\ ~ In t seen.
Proof.
  revert seen. induction l as [|k l IH]; intros seen; cbn [fromkeys In]; [tauto|].
  destruct (existsb (String.eqb k) seen) eqn:E.
  - rewrite IH. apply existsb_exists in E. destruct E as (k' & Hk' & Ek).
    apply String.eqb_eq in Ek. subst k'.
    split; [tauto|]. intros [[->|H] Hn]; [contradiction | tauto].
  - assert (Hk : ~ In k seen).
    { intros H. apply not_true_iff_false in E. apply E. apply existsb_exists.
      exists k. split; [exact H | apply String.eqb_refl]. }
    cbn [In]. rewrite IH. cbn [In]. split.
    + intros [<-|(H1 & H2)]; [tauto|]. split; [right; exact H1 | tauto].
    + intros [[->|H1] H2]; [left; reflexivity|].
      destruct (string_dec k t) as [->|Hne]; [left; reflexivity|].
      right. split; [exact H1|]. intros [E'|H']; [congruence | contradiction].
Qed.

Lemma fromkeys_NoDup seen l : NoDup (fromkeys seen l).
Proof.
  revert seen. induction l as [|k l IH]; intros seen; cbn [fromkeys]; [constructor|].
  destruct (existsb (String.eqb k) seen); [apply IH|].
  constructor; [|apply IH]. rewrite fromkeys_In. cbn [In]. tauto.
Qed.

Lemma fromkeys_NoDup_id seen l :
  NoDup l -> (forall t, In t l -> ~ In t seen) -> fromkeys seen l = l.
Proof.
  revert seen. induction l as [|k l IH]; intros seen Hnd Hseen; [reflexivity|].
  inversion Hnd as [|? ? Hout Hnd']. subst. cbn [fromkeys].
  replace (existsb (String.eqb k) seen) with false.
  - f_equal. apply IH; [exact Hnd'|].
    intros t Ht [<-|H]; [contradiction|]. exact (Hseen t (or_intror Ht) H).
  - symmetry. apply not_true_iff_false. intros E. apply existsb_exists in E.
    destruct E as (k' & Hk' & Ek). apply String.eqb_eq in Ek. subst k'.
    exact (Hseen k (or_introl eq_refl) Hk').
Qed.

Lemma parse_tickers_normal tickers_input t :
  In t (parse_tickers tickers_input) -> normal_ticker t.
Proof.
  unfold parse_tickers. rewrite fromkeys_In. intros [H _].
  apply in_map_iff in H. destruct H as (piece & <- & H).
  apply filter_In in H. destruct H as [Hpiece Hne]. apply negb_true_iff in Hne.
  unfold normal_ticker.
  rewrite is_empty_upper, strip_upper, strip_idem, upper_idem, has_comma_upper.
  repeat split; [exact Hne|].
  unfold strip. apply has_comma_rstrip, has_comma_lstrip.
  eapply split_comma_pieces. exact Hpiece.
Qed.

(** X16. The ticker list read from the text area has no repeated symbol
    and every symbol in it is not empty, stripped and in upper case.
    Writing the list back with commas and reading it again gives the same
    list. *)
Theorem parse_tickers_round_trip tickers_input :
  let tickers := parse_tickers tickers_input in
  NoDup tickers /\
  (forall t, In t tickers -> t <> EmptyString /\ strip t = t /\ upper t = t) /\
  parse_tickers (join_comma tickers) = tickers.
Proof.
  intros tickers.
  assert (Hnd : NoDup tickers) by apply fromkeys_NoDup.
  assert (Hnormal : forall t, In t tickers -> normal_ticker t)
    by (intros t; apply parse_tickers_normal).
  split; [exact Hnd|]. split.
  - intros t Ht. destruct (Hnormal t Ht) as (He & Hs & Hu & _).
    split; [intros ->; discriminate He | split; assumption].
  - destruct tickers as [|t0 l] eqn:E; [reflexivity|]. rewrite <- E in *.
    unfold parse_tickers at 1.
    rewrite split_join;
      [|rewrite E; discriminate | intros t Ht; apply (Hnormal t Ht)].
    replace (filter (fun t => negb (is_empty (strip t))) tickers) with tickers.
    + replace (map (fun t => upper (strip t)) tickers) with tickers.
      * apply fromkeys_NoDup_id; [exact Hnd | intros t _ []].
      * rewrite <- (map_id tickers) at 1. apply map_ext_in. intros t Ht.
        destruct (Hnormal t Ht) as (_ & -> & -> & _). reflexivity.
    + symmetry. apply forallb_filter_id. apply forallb_forall. intros t Ht.
      destruct (Hnormal t Ht) as (He & -> & _). rewrite He. reflexivity.
Qed.

(** ** Fetching: labels and bounds *)

Lemma fetch_stock_data_cases raw tickers start_date end_date df :
  fetch_stock_data raw tickers start_date end_date = Ok df ->
  df = empty_frame \/
  exists prices,
    select_prices (raw_multi raw) (dropna_columns (raw_columns raw)) tickers = Ok prices /\
    df = loc_range start_date end_date
           {| index := raw_index raw; columns := dropna_columns (fill_missing prices) |} /\
    dropna_columns (fill_missing prices) <> [].
Proof.
  unfold fetch_stock_data.
  destruct (raw_index raw) as [|d ds]; [intros E; inversion E; left; reflexivity|].
  destruct (dropna_columns (raw_columns raw)) as [|c cs];
    [intros E; inversion E; left; reflexivity|].
  destruct (select_prices (raw_multi raw) (c :: cs) tickers) as [prices|e]; cbn [bind];
    [|discriminate].
  destruct (dropna_columns (fill_missing prices)) as [|f fs] eqn:Ef;
    intros E; inversion E; [left; reflexivity|].
  right. exists prices. rewrite Ef. repeat split. discriminate.
Qed.

Lemma select_prices_labels multi cols tickers prices :
  select_prices multi cols tickers = Ok prices ->
  (forall c, In c prices -> upper (fst c) = fst c) /\
  (forall t, tickers = [t] -> map fst prices = [upper t]).
Proof.
  unfold select_prices.
  destruct (has_field _ cols); [|discriminate].
  set (labelled := map _ (filter _ cols)).
  assert (Hmulti : forall l : dict Series,
            forall c, In c (map (fun c => (upper (fst c), snd c)) l) ->
                      upper (fst c) = fst c).
  { intros l c Hc. apply in_map_iff in Hc. destruct Hc as (c' & <- & _).
    cbn [fst]. apply upper_idem. }
  destruct tickers as [|t [|t' tickers]].
  - intros E. inversion E. split; [apply Hmulti | discriminate].
  - destruct labelled as [|c [|c' l]]; try discriminate.
    intros E. inversion E. split.
    + intros c0 [<-|[]]. cbn [fst]. apply upper_idem.
    + intros t0 Et. inversion Et. reflexivity.
  - intros E. inversion E. split; [apply Hmulti | discriminate].
Qed.

Lemma dropna_fill_labels (prices : dict Series) :
  forall c, In c (dropna_columns (fill_missing prices)) -> In (fst c) (map fst prices).
Proof.
  intros c Hc. unfold dropna_columns in Hc. apply filter_In in Hc. destruct Hc as [Hc _].
  unfold fill_missing in Hc. apply in_map_iff in Hc. destruct Hc as (c' & <- & Hc').
  cbn [fst]. apply in_map. exact Hc'.
Qed.

Lemma invalid_tickers_single t df :
  map fst (columns df) = [t] -> invalid_tickers [t] df = [].
Proof.
  intros H. unfold invalid_tickers. rewrite H. cbn [filter existsb].
  rewrite String.eqb_refl. reflexivity.
Qed.

(** X17. Every column of the table [fetch_stock_data] returns is labelled
    in upper case.  When a single symbol is asked, the table is empty or its
    only column is labelled by that symbol in upper case, whatever label
    the download gave it; so a symbol already in upper case is never
    reported as invalid unless nothing was fetched. *)
Theorem fetch_stock_data_labels raw tickers start_date end_date df :
  fetch_stock_data raw tickers start_date end_date = Ok df ->
  (forall c, In c (columns df) -> upper (fst c) = fst c) /\
  (forall t, tickers = [t] ->
     (df = empty_frame \/ map fst (columns df) = [upper t]) /\
     (upper t = t -> columns df <> [] -> invalid_tickers tickers df = [])).
Proof.
  intros Hfetch. apply fetch_stock_data_cases in Hfetch.
  destruct Hfetch as [->|(prices & Esel & -> & Hne)].
  { split; [intros c []|]. intros t _. split; [left; reflexivity|].
    intros _ H. contradiction H. reflexivity. }
  destruct (select_prices_labels _ _ _ _ Esel) as [Hupper Hsingle].
  cbn [loc_range columns index].
  split.
  - intros c Hc. apply in_map_iff in Hc. destruct Hc as (c' & <- & Hc'). cbn [fst].
    apply dropna_fill_labels in Hc'. apply in_map_iff in Hc'.
    destruct Hc' as (c0 & E0 & Hc0). pose proof (Hupper c0 Hc0) as Hc.
    unfold Series in *. rewrite E0 in Hc. exact Hc.
  - intros t Et. specialize (Hsingle t Et).
    assert (Hcols : map fst (dropna_columns (fill_missing prices)) = [upper t]).
    { destruct prices as [|[k v] [|? ?]]; try discriminate Hsingle.
      cbn [map fst] in Hsingle. inversion Hsingle. subst k.
      unfold fill_missing, dropna_columns in *. cbn [map filter fst snd] in *.
      destruct (negb (all_nan (bfill (ffill v)))); [reflexivity | contradiction]. }
    assert (Hlabels :
      map fst (map (fun c : string * Series =>
                      (fst c, select_rows (map (in_range start_date end_date)
                                               (raw_index raw)) (snd c)))
                   (dropna_columns (fill_missing prices))) = [upper t]).
    { rewrite map_map. cbn [fst]. exact Hcols. }
    split; [right; exact Hlabels|].
    intros Hup _. subst tickers. apply invalid_tickers_single.
    rewrite Hup in Hlabels. exact Hlabels.
Qed.

Lemma fetch_stock_data_labels_witness :
  exists df,
    fetch_stock_data
      {| raw_index := [1; 2]; raw_multi := false;
         raw_columns := [(("Close", ""), [F64.of_Z 100; F64.of_Z 90])] |}
      ["AAPL"] 1 2 = Ok df /\
    map fst (columns df) = ["AAPL"] /\
    invalid_tickers ["AAPL"] df = [].
Proof.
  set (raw := {| raw_index := [1; 2]; raw_multi := false;
                 raw_columns := [(("Close", ""), [F64.of_Z 100; F64.of_Z 90])] |}).
  destruct (fetch_stock_data raw ["AAPL"] 1 2) as [df|e] eqn:E;
    [|vm_compute in E; discriminate E].
  exists df. split; [reflexivity|].
  destruct (fetch_stock_data_labels raw ["AAPL"] 1 2 df E) as [_ H].
  destruct (H "AAPL" eq_refl) as [Hcols Hinv].
  assert (Hne : columns df <> []).
  { vm_compute in E. inversion E. discriminate. }
  split; [|apply Hinv; [reflexivity | exact Hne]].
  destruct Hcols as [->|Hcols]; [contradiction Hne; reflexivity | exact Hcols].
Defined.

(** X18. A date range whose end is before its start is not an error: the
    table that comes back has no date, so it is empty for the caller. *)
Theorem fetch_stock_data_degenerate_range raw tickers start_date end_date df :
  end_date < start_date ->
  fetch_stock_data raw tickers start_date end_date = Ok df ->
  index df = [] /\ df_empty df = true /\
  forall c, In c (columns df) -> snd c = [].
Proof.
  intros Hrange Hfetch. apply fetch_stock_data_cases in Hfetch.
  destruct Hfetch as [->|(prices & _ & -> & _)].
  { split; [reflexivity|]. split; [reflexivity | intros c []]. }
  assert (Hkeep : forall l : list Z, map (in_range start_date end_date) l = map (fun _ => false) l).
  { intros l. apply map_ext. intros d. unfold in_range.
    apply andb_false_iff. destruct (Z.leb_spec start_date d); [right | left; reflexivity].
    apply Z.leb_gt. lia. }
  assert (Hnone : forall (A : Type) (keep : list Z) (l : list A),
            select_rows (map (fun _ => false) keep) l = []).
  { intros A keep. induction keep as [|k keep IH]; intros l; [reflexivity|].
    destruct l; [reflexivity|]. cbn [map select_rows]. apply IH. }
  unfold loc_range, df_empty. cbn [index columns]. rewrite Hkeep, Hnone.
  split; [reflexivity|]. split; [reflexivity|].
  intros c Hc. apply in_map_iff in Hc. destruct Hc as (c' & <- & _). cbn [snd]. apply Hnone.
Qed.

Lemma fetch_stock_data_degenerate_range_witness :
  exists df,
    fetch_stock_data
      {| raw_index := [1; 2]; raw_multi := false;
         raw_columns := [(("Close", ""), [F64.of_Z 100; F64.of_Z 90])] |}
      ["AAPL"] 2 1 = Ok df /\
    index df = [] /\ df_empty df = true.
Proof.
  set (raw := {| raw_index := [1; 2]; raw_multi := false;
                 raw_columns := [(("Close", ""), [F64.of_Z 100; F64.of_Z 90])] |}).
  destruct (fetch_stock_data raw ["AAPL"] 2 1) as [df|e] eqn:E;
    [|vm_compute in E; discriminate E].
  exists df. split; [reflexivity|].
  destruct (fetch_stock_data_degenerate_range raw ["AAPL"] 2 1 df) as (H1 & H2 & _);
    [lia | exact E |]. split; assumption.
Defined.

(** ** The weights of the sidebar *)

(** A quotient of two positive integers below 2^53 is a positive float. *)
Lemma of_Z_div_pos a b :
  0 < a < 2 ^ 53 -> 0 < b < 2 ^ 53 -> pos_rounded (F64.div (F64.of_Z a) (F64.of_Z b)).
Proof.
  intros Ha Hb. destruct a as [|pa|pa]; try lia. destruct b as [|pb|pb]; try lia.
  destruct (of_Z_exact pa) as (ma & Hma & -> & Hva); [lia|].
  destruct (of_Z_exact pb) as (mb & Hmb & -> & Hvb); [lia|].
  set (da := Zdigits2 (Zpos pa)) in *. set (db := Zdigits2 (Zpos pb)) in *.
  assert (Hda : 0 < da <= 53).
  { subst da. split; [apply Zdigits2_pos_gt|].
    rewrite Zdigits2_log2. destruct Ha as [_ Ha]. apply Z.log2_lt_pow2 in Ha; lia. }
  assert (Hdb : 0 < db <= 53).
  { subst db. split; [apply Zdigits2_pos_gt|].
    rewrite Zdigits2_log2. destruct Hb as [_ Hb]. apply Z.log2_lt_pow2 in Hb; lia. }
  assert (Hdma : Zdigits2 (Zpos ma) = 53).
  { rewrite Hma, Zdigits2_mul_pow2 by lia. fold da. lia. }
  assert (Hdmb : Zdigits2 (Zpos mb) = 53).
  { rewrite Hmb, Zdigits2_mul_pow2 by lia. fold db. lia. }
  unfold F64.div, SFdiv, SFdiv_core_binary.
  rewrite Hdma, Hdmb.
  change (fexp F64.prec F64.emax) with fexp64. rewrite fexp_unfold.
  set (e' := Z.min _ _).
  assert (He' : e' = da - db - 53) by (subst e'; lia).
  assert (Hs : da - 53 - (db - 53) - e' = 53) by lia.
  rewrite Hs. cbv iota beta. rewrite div_eucl_div_mod.
  assert (Hmb_lt : Zpos mb < 2 ^ 53).
  { pose proof (Zdigits2_bounds mb) as [_ H]. rewrite Hdmb in H. exact H. }
  assert (Hma_ge : 2 ^ 52 <= Zpos ma).
  { pose proof (Zdigits2_bounds ma) as [H _]. rewrite Hdma in H. exact H. }
  assert (Hq : 0 < Z.shiftl (Zpos ma) 53 / Zpos mb).
  { apply Z.div_str_pos. rewrite Z.shiftl_mul_pow2 by lia.
    change (2 ^ 53) with 9007199254740992 in *.
    change (2 ^ 52) with 4503599627370496 in *. nia. }
  split.
  - apply (binary_round_aux_signed (xorb false false)). lia.
  - apply binary_round_aux_nonzero; lia.
Qed.

Lemma add_zero_or_pos x y : zero_or_pos x -> zero_or_pos y -> zero_or_pos (F64.add x y).
Proof.
  intros [->|Hx] [->|Hy].
  - left. reflexivity.
  - right. rewrite add_zero_pos by exact Hy. exact Hy.
  - right. destruct Hx as [Hx Zx]. destruct Hx; try discriminate; split;
      (constructor || reflexivity); assumption.
  - right. apply add_pos; assumption.
Qed.

Lemma add_pos_l x y : pos_rounded x -> zero_or_pos y -> pos_rounded (F64.add x y).
Proof.
  intros Hx [->|Hy]; [|apply add_pos; assumption].
  destruct Hx as [Hx Zx]. destruct Hx; try discriminate; split;
    (constructor || reflexivity); assumption.
Qed.

Lemma fold_add_pos acc ws :
  pos_rounded acc -> Forall zero_or_pos ws -> pos_rounded (fold_left F64.add ws acc).
Proof.
  intros Hacc Hws. revert acc Hacc.
  induction Hws as [|w ws Hw _ IH]; intros acc Hacc; cbn [fold_left]; [assumption|].
  apply IH. apply add_pos_l; assumption.
Qed.

Lemma fold_add_some_pos acc ws :
  zero_or_pos acc -> Forall zero_or_pos ws -> Exists pos_rounded ws ->
  pos_rounded (fold_left F64.add ws acc).
Proof.
  intros Hacc Hws Hex. revert acc Hacc Hws.
  induction Hex as [w ws Hw|w ws _ IH]; intros acc Hacc Hws;
    inversion Hws as [|? ? Hw' Hws']; subst; cbn [fold_left].
  - apply fold_add_pos; [|exact Hws'].
    destruct Hacc as [->|Hacc]; [rewrite add_zero_pos; assumption | apply add_pos; assumption].
  - apply IH; [apply add_zero_or_pos; assumption | exact Hws'].
Qed.

Lemma sum_nonneg_zero ws :
  Forall (fun w => 0 <= w) ws -> forall acc, 0 <= acc ->
  acc <= fold_left Z.add ws acc /\
  (fold_left Z.add ws acc = acc -> Forall (fun w => w = 0) ws).
Proof.
  induction 1 as [|w ws Hw _ IH]; intros acc Hacc; cbn [fold_left].
  - split; [lia | constructor].
  - destruct (IH (acc + w) ltac:(lia)) as [H1 H2]. split; [lia|].
    intros E. assert (w = 0) by lia. subst w. constructor; [reflexivity|].
    apply H2. rewrite Z.add_0_r in *. exact E.
Qed.

Lemma sum_bounded ws :
  Forall (fun w => 0 <= w <= 100) ws -> forall acc,
  fold_left Z.add ws acc <= acc + 100 * Z.of_nat (List.length ws).
Proof.
  induction 1 as [|w ws Hw _ IH]; intros acc; cbn [fold_left List.length]; [lia|].
  specialize (IH (acc + w)). lia.
Qed.

Lemma combine_keys {A B : Type} (l : list A) (l' : list B) :
  List.length l' = List.length l -> map fst (combine l l') = l.
Proof.
  revert l'. induction l as [|a l IH]; intros [|b l'] H; try discriminate; [reflexivity|].
  cbn [combine map fst]. rewrite IH; [reflexivity|]. inversion H. reflexivity.
Qed.

(** The valuation returns when the total weight is not zero and every
    column has a weight. *)
Lemma compute_portfolio_value_ok data (weights : dict F64.float) initial_value :
  df_empty data = false ->
  F64.is_zero (py_sum (map snd weights)) = false ->
  (forall t, In t (map fst (columns data)) -> In t (map fst weights)) ->
  exists v,
    compute_portfolio_value data (Some weights) initial_value = Ok v /\
    List.length v = List.length (index data).
Proof.
  intros Hdata Hz Hcols. unfold compute_portfolio_value. rewrite Hdata.
  unfold normalize_weights. rewrite mapM_py_div by exact Hz. cbn [bind].
  destruct (mapM_dict_get
              (map (fun kv : string * F64.float =>
                      (fst kv, F64.div (snd kv) (py_sum (map snd weights)))) weights)
              (columns data)) as [vs Evs].
  { intros c Hc. rewrite map_map. cbn [fst]. apply Hcols. apply in_map. exact Hc. }
  unfold dict in *. rewrite Evs. cbn [bind].
  eexists. split; [reflexivity | apply value_length].
Qed.

Lemma app_weights_total requested raw_weights :
  requested <> [] ->
  List.length raw_weights = List.length requested ->
  Forall (fun w => 0 <= w <= 100) raw_weights ->
  Z.of_nat (List.length requested) < 2 ^ 46 ->
  map fst (app_weights requested raw_weights) = requested /\
  pos_rounded (py_sum (map snd (app_weights requested raw_weights))).
Proof.
  intros Hne Hlen Hraw Hn. unfold app_weights.
  destruct (Z.ltb_spec 1 (Z.of_nat (List.length requested))) as [H1|H1].
  - set (total := fold_left Z.add raw_weights 0).
    assert (Hnonneg : Forall (fun w => 0 <= w) raw_weights)
      by (eapply Forall_impl; [|exact Hraw]; cbv beta; lia).
    destruct (sum_nonneg_zero raw_weights Hnonneg 0 ltac:(lia)) as [Hge Hzero].
    fold total in Hge, Hzero.
    pose proof (sum_bounded raw_weights Hraw 0) as Hle. fold total in Hle.
    destruct (Z.eqb_spec total 0) as [E|E].
    + split; [rewrite map_map; cbn [fst]; apply map_id|].
      rewrite map_map. cbn [snd].
      destruct requested as [|t requested]; [contradiction|].
      cbn [map]. apply py_sum_pos.
      assert (Hw : pos_rounded
                (F64.div F64.one (F64.of_Z (Z.of_nat (List.length (t :: requested))))))
        by (apply one_div_of_Z_pos; change (2 ^ 53) with (2 ^ 46 * 128); lia).
      constructor; [exact Hw|]. apply Forall_forall. intros x Hx.
      apply in_map_iff in Hx. destruct Hx as (_ & <- & _). exact Hw.
    + split; [rewrite map_map; cbn [fst]; apply combine_keys; exact Hlen|].
      rewrite map_map. cbn [snd].
      assert (Htotal : 0 < total < 2 ^ 53) by (change (2 ^ 53) with (2 ^ 46 * 128); lia).
      assert (Hall : Forall zero_or_pos
                (map (fun tw : string * Z => F64.div (F64.of_Z (snd tw)) (F64.of_Z total))
                     (combine requested raw_weights))).
      { apply Forall_forall. intros x Hx. apply in_map_iff in Hx.
        destruct Hx as ([t w] & <- & Hin). cbn [snd]. apply in_combine_r in Hin.
        rewrite Forall_forall in Hraw. specialize (Hraw w Hin).
        destruct (Z.eq_dec w 0) as [->|Hw].
        - left. destruct total as [|p|p]; try lia.
          destruct (of_Z_exact p) as (m & _ & -> & _); [lia|]. reflexivity.
        - right. apply of_Z_div_pos; [|exact Htotal].
          change (2 ^ 53) with 9007199254740992. lia. }
      apply fold_add_some_pos; [left; reflexivity | exact Hall|].
      apply Exists_exists.
      assert (Hsome : exists w, In w raw_weights /\ w <> 0).
      { destruct (Forall_Exists_dec (fun w => w = 0) (fun w => Z.eq_dec w 0) raw_weights)
          as [Hall0|Hex].
        - exfalso. apply E. clear - Hall0. subst total.
          induction Hall0 as [|w ws -> _ IH]; [reflexivity | exact IH].
        - apply Exists_exists in Hex. exact Hex. }
      destruct Hsome as (w & Hw & Hw0).
      assert (Hpair : exists t, In (t, w) (combine requested raw_weights)).
      { clear - Hw Hlen. revert raw_weights Hw Hlen.
        induction requested as [|t requested IH]; intros [|w' ws] Hw Hlen;
          try discriminate; [destruct Hw|].
        destruct Hw as [->|Hw]; [exists t; left; reflexivity|].
        destruct (IH ws Hw) as [t' Ht']; [inversion Hlen; reflexivity|].
        exists t'. right. exact Ht'. }
      destruct Hpair as [t Ht].
      exists (F64.div (F64.of_Z w) (F64.of_Z total)). split.
      * apply in_map_iff. exists (t, w). split; [reflexivity | exact Ht].
      * rewrite Forall_forall in Hraw. specialize (Hraw w Hw).
        apply of_Z_div_pos; [|exact Htotal]. change (2 ^ 53) with 9007199254740992. lia.
  - destruct requested as [|t [|t' requested]]; [contradiction| |cbn [List.length] in H1; lia].
    split; [reflexivity|]. vm_compute. split; [constructor; lia | reflexivity].
Qed.

(** X19. The weights the sidebar builds never make the valuation of the
    application raise: for every list of requested symbols, whole raw
    weights between 0 and 100 (the bounds of the inputs), and every
    non-empty table whose columns are among the requested symbols, the
    total of the weights is positive, every column finds its weight, and
    the portfolio value is returned. *)
Theorem sidebar_weights_never_raise requested raw_weights data :
  List.length raw_weights = List.length requested ->
  Forall (fun w => 0 <= w <= 100) raw_weights ->
  Z.of_nat (List.length requested) < 2 ^ 46 ->
  df_empty data = false ->
  (forall t, In t (map fst (columns data)) -> In t requested) ->
  let weights := app_weights requested raw_weights in
  F64.is_zero (py_sum (map snd weights)) = false /\
  (exists v,
     compute_portfolio_value data (Some weights) default_initial_value = Ok v /\
     List.length v = List.length (index data)) /\
  exists portfolio_value,
    app_portfolio_value data (map fst (columns data)) weights = Ok portfolio_value.
Proof.
  intros Hlen Hraw Hn Hdata Hcols weights.
  assert (Hne : requested <> []).
  { apply df_empty_false in Hdata. destruct Hdata as [_ Hc].
    destruct (columns data) as [|c cs]; [contradiction|].
    intros ->. exact (Hcols (fst c) (or_introl eq_refl)). }
  destruct (app_weights_total requested raw_weights Hne Hlen Hraw Hn) as [Hkeys [_ Hz]].
  fold weights in Hkeys, Hz.
  assert (Hok : exists v,
            compute_portfolio_value data (Some weights) default_initial_value = Ok v /\
            List.length v = List.length (index data)).
  { apply compute_portfolio_value_ok; [exact Hdata | exact Hz|].
    rewrite Hkeys. exact Hcols. }
  split; [exact Hz|]. split; [exact Hok|].
  unfold app_portfolio_value.
  destruct (columns data) as [|[t col] [|c cs]] eqn:E.
  - destruct Hok as (v & Ev & _). exists v. exact Ev.
  - cbn [map fst]. exists col. unfold dict_get. cbn [dict_find].
    rewrite String.eqb_refl. reflexivity.
  - destruct Hok as (v & Ev & _). exists v. exact Ev.
Qed.

Lemma sidebar_weights_never_raise_witness :
  exists portfolio_value,
    app_portfolio_value two_assets ["A"; "B"] (app_weights ["A"; "B"; "C"] [50; 0; 50])
      = Ok portfolio_value /\
    List.length portfolio_value = 3%nat.
Proof.
  assert (Hraw : Forall (fun w => 0 <= w <= 100) [50; 0; 50])
    by (repeat constructor; lia).
  assert (Hcols : forall t, In t (map fst (columns two_assets)) -> In t ["A"; "B"; "C"])
    by (cbn; tauto).
  destruct (sidebar_weights_never_raise ["A"; "B"; "C"] [50; 0; 50] two_assets
              eq_refl Hraw eq_refl eq_refl Hcols) as (_ & (v & Ev & Hv) & _).
  exists v. split; [exact Ev | exact Hv].
Defined.

(** ** A single date; a download without prices *)

Lemma pct_change_short s : (List.length s <= 1)%nat -> dropna (pct_change s) = [].
Proof.
  intros H. pose proof (daily_returns_length s) as Hl.
  destruct (dropna (pct_change s)); [reflexivity | cbn [List.length] in Hl; lia].
Qed.

Lemma dropna_scaled_nil (s : Series) y :
  dropna s = [] -> dropna (map (fun r => F64.mul r y) s) = [].
Proof.
  induction s as [|x s IH]; [reflexivity|].
  cbn [dropna filter map]. destruct x; cbn [F64.is_nan negb]; try discriminate.
  intros H. cbn [F64.mul SFmul F64.is_nan negb]. apply IH. exact H.
Qed.

(** X20. On a table with a single date no symbol has a daily change, so
    [check_stock_drops] returns no alert, whatever the threshold is. *)
Theorem check_stock_drops_single_date data tickers threshold_pct :
  (forall c, In c (columns data) -> (List.length (snd c) <= 1)%nat) ->
  check_stock_drops data tickers threshold_pct = [].
Proof.
  intros Hshort. unfold check_stock_drops. destruct (df_empty data); [reflexivity|].
  cbv zeta. induction tickers as [|t tickers IH]; [reflexivity|].
  cbn [flat_map]. rewrite IH, app_nil_r.
  destruct (dict_find (daily_change_of data) t) as [col|] eqn:E; [|reflexivity].
  assert (Hcol : dropna col = []).
  { unfold daily_change_of in E.
    rewrite (dict_find_map (fun s => map (fun r => F64.mul r hundred) (pct_change s))) in E.
    destruct (dict_find (columns data) t) as [s|] eqn:Es; [|discriminate].
    cbn [option_map] in E. inversion E.
    apply dropna_scaled_nil. apply pct_change_short.
    assert (Hin : exists k, In (k, s) (columns data)).
    { clear - Es. induction (columns data) as [|[k v] d IH]; [discriminate|].
      cbn [dict_find] in Es. destruct (String.eqb t k).
      - inversion Es. exists k. left. reflexivity.
      - destruct (IH Es) as [k' Hk']. exists k'. right. exact Hk'. }
    destruct Hin as [k Hk]. exact (Hshort _ Hk). }
  rewrite (series_min_nan col Hcol). reflexivity.
Qed.

Lemma check_stock_drops_single_date_witness :
  check_stock_drops {| index := [1]; columns := [("A", [F64.of_Z 100])] |} ["A"] F64.zero = [].
Proof.
  apply check_stock_drops_single_date.
  intros c [<-|[]]. cbn. lia.
Defined.

(** X21. [fetch_stock_data] raises only while it selects the price field:
    KeyError when the fetched columns that hold data have neither an
    adjusted close nor a close, and the error of the relabelling when one
    symbol is asked and the field has not exactly one column.  Without a
    price field it does raise KeyError. *)
Theorem fetch_stock_data_errors raw tickers start_date end_date :
  let data := dropna_columns (raw_columns raw) in
  let field := if has_field "Adj Close" data then "Adj Close" else "Close" in
  (forall err,
     fetch_stock_data raw tickers start_date end_date = Raise err ->
     raw_index raw <> [] /\ data <> [] /\
     ((exists key, err = KeyError key) /\ has_field "Adj Close" data = false /\
      has_field "Close" data = false \/
      (exists t msg,
         tickers = [t] /\ err = ValueError msg /\
         List.length (filter (fun c => String.eqb (fst (fst c)) field) data) <> 1%nat))) /\
  (raw_index raw <> [] -> data <> [] ->
   has_field "Adj Close" data = false -> has_field "Close" data = false ->
   exists key, fetch_stock_data raw tickers start_date end_date = Raise (KeyError key)).
Proof.
  cbv zeta. unfold fetch_stock_data.
  generalize (dropna_columns (raw_columns raw)). intros data. split.
  - intros err. destruct (raw_index raw) as [|d ds]; [discriminate|].
    destruct data as [|c cs]; [discriminate|].
    set (data := c :: cs).
    set (field := if has_field "Adj Close" data then "Adj Close" else "Close").
    intros H. split; [discriminate|]. split; [discriminate|].
    destruct (select_prices (raw_multi raw) data tickers) as [prices|e] eqn:Esel;
      cbn [bind] in H.
    { destruct (dropna_columns (fill_missing prices)); discriminate H. }
    inversion H. subst e. clear H.
    unfold select_prices in Esel. cbv zeta in Esel. fold field in Esel.
    destruct (has_field field data) eqn:Hfield.
    + right. set (picked := filter (fun c => String.eqb (fst (fst c)) field) data) in *.
      destruct tickers as [|t [|t' tickers]]; [discriminate Esel| |discriminate Esel].
      exists t.
      destruct picked as [|p [|p' ps]]; cbn [map] in Esel;
        [|discriminate Esel|]; inversion Esel; eexists;
        (split; [reflexivity|]); (split; [reflexivity|]); discriminate.
    + left. inversion Esel. subst field.
      destruct (has_field "Adj Close" data) eqn:Hadj; [congruence|].
      split; [eexists; reflexivity|]. split; [reflexivity | exact Hfield].
  - intros Hidx Hdata Hadj Hclose.
    destruct (raw_index raw) as [|d ds]; [contradiction|].
    destruct data as [|c cs]; [contradiction|].
    unfold select_prices. rewrite Hadj, Hclose. eexists. reflexivity.
Qed.

(** ** A constant price *)

Lemma eqb_refl_finite c : F64.is_finite c = true -> F64.eqb c c = true.
Proof.
  destruct c as [s|s| |s m e]; try discriminate; intros _; [reflexivity|].
  unfold F64.eqb, SFeqb, SFcompare.
  rewrite Z.compare_refl.
  change (PosDef.Pos.compare_cont Eq m m) with (Pos.compare m m).
  rewrite Pos.compare_refl. destruct s; reflexivity.
Qed.

Lemma ewm_from_constant alpha c n :
  F64.is_finite c = true ->
  ewm_from alpha {| weighted := c; old_wt := F64.one |} (repeat c n) = repeat c n.
Proof.
  intros Hc. induction n as [|n IH]; [reflexivity|].
  cbn [repeat ewm_from]. unfold ewm_step at 1 2. cbn [weighted old_wt].
  rewrite (is_finite_not_nan c Hc), (eqb_refl_finite c Hc).
  cbn [weighted]. rewrite IH. reflexivity.
Qed.

Lemma ewm_mean_constant span c n :
  F64.is_finite c = true -> ewm_mean span (repeat c n) = repeat c n.
Proof.
  intros Hc. destruct n as [|n]; [reflexivity|].
  cbn [repeat ewm_mean]. rewrite ewm_from_constant by exact Hc. reflexivity.
Qed.

Lemma zip_sub_repeat c n :
  F64.is_finite c = true -> zip_with F64.sub (repeat c n) (repeat c n) = repeat F64.zero n.
Proof.
  intros Hc. induction n as [|n IH]; [reflexivity|].
  cbn [repeat zip_with]. rewrite sub_diag by exact Hc. rewrite IH. reflexivity.
Qed.

(** X22. On a constant finite price the exponential averages are that
    price itself (an observation equal to the average leaves it untouched),
    so [plot_macd] draws a MACD line, a signal line and a histogram that
    are exactly 0 at every date. *)
Theorem plot_macd_constant_price data ticker c n :
  dict_find (columns data) ticker = Some (repeat c (S n)) ->
  F64.is_finite c = true ->
  (forall span, ewm_mean span (repeat c (S n)) = repeat c (S n)) /\
  plot_macd data ticker =
    Some {| macd_line := repeat F64.zero (S n);
            signal_line := repeat F64.zero (S n);
            histogram := repeat F64.zero (S n) |}.
Proof.
  intros Hcol Hc. split; [intros span; apply ewm_mean_constant; exact Hc|].
  unfold plot_macd. rewrite Hcol.
  assert (Hall : all_nan (repeat c (S n)) = false).
  { cbn [repeat all_nan forallb]. rewrite (is_finite_not_nan c Hc). reflexivity. }
  rewrite Hall. unfold macd_of.
  rewrite !(ewm_mean_constant _ c (S n) Hc), (zip_sub_repeat c (S n) Hc).
  rewrite (ewm_mean_constant 9 F64.zero (S n) eq_refl).
  rewrite (zip_sub_repeat F64.zero (S n) eq_refl). reflexivity.
Qed.

Lemma plot_macd_constant_price_witness :
  plot_macd {| index := [1; 2; 3];
               columns := [("A", repeat (F64.div (F64.of_Z 111) (F64.of_Z 10)) 3)] |} "A" =
    Some {| macd_line := repeat F64.zero 3;
            signal_line := repeat F64.zero 3;
            histogram := repeat F64.zero 3 |}.
Proof.
  apply (plot_macd_constant_price
           {| index := [1; 2; 3];
              columns := [("A", repeat (F64.div (F64.of_Z 111) (F64.of_Z 10)) 3)] |}
           "A" (F64.div (F64.of_Z 111) (F64.of_Z 10)) 2); reflexivity.
Defined.
